(** * Sim.js of joist: frame scheduler, resize coordinator, screen switching
      and popup stack, embedded as state-passing functions.

    The class [Sim] lives in [src/js/NavigationBarScreenButton.ts] (second
    half of the file).  Every method modelled below keeps the name it has
    there.  JavaScript numbers are modelled as exact rationals ([Q]), so
    rounding is not; the millisecond timestamps returned by [Date.now()]
    are integers ([Z]).  A number that the code accumulates over several
    calls is therefore stated by the additions the code makes, in the order
    in which it makes them, and not by a sum in closed form, which rounding
    need not respect.

    Collaborators that are not part of the sources (scenery nodes, axon
    properties and emitters, the navigation bar, the toolbar, the screens'
    models and views) are modelled by the calls the code makes on them:
    every such call is logged, in program order, as an [Event].  What a
    collaborator does in such a call, the listeners it may have linked to
    the properties of the sim included, is outside the model: the calls are
    taken to return and to leave the fields of the sim as they are. *)

From Stdlib Require Import QArith Qminmax ZArith List Bool String Lia Lqa PeanoNat.
Import ListNotations.
Local Open Scope Q_scope.

(** ** Data *)

(** dot/Bounds2: [new Bounds2( minX, minY, maxX, maxY )]. *)
Record Bounds2 : Type := mkBounds2 {
  minX : Q;
  minY : Q;
  maxX : Q;
  maxY : Q
}.

(** dot/Dimension2: [new Dimension2( width, height )]. *)
Record Dimension2 : Type := mkDimension2 {
  dimWidth : Q;
  dimHeight : Q
}.

(** A node handed to [showPopup]/[hidePopup].  Object identity is the
    identity of the record; [hasHide] and [hasLayout] say whether the object
    carries a [hide] and a [layout] method. *)
Record Popup : Type := mkPopup {
  popupId : nat;
  hasHide : bool;
  hasLayout : bool
}.

Definition Popup_eqb (p q : Popup) : bool :=
  Nat.eqb (popupId p) (popupId q)
  && Bool.eqb (hasHide p) (hasHide q)
  && Bool.eqb (hasLayout p) (hasLayout q).

(** One entry of [this.screens].  [maxDT] is the optional cap of the step,
    [modelHasStep]/[viewHasStep] say whether [screen.model.step] and
    [screen.view.step] exist, [active] is [screen.activeProperty.value] and
    [viewVisible] is [screen.view.visible]. *)
Record Screen : Type := mkScreen {
  maxDT : option Q;
  modelHasStep : bool;
  viewHasStep : bool;
  active : bool;
  viewVisible : bool
}.

(** What the code reads from its environment: the global [assert], the
    query parameters, the [window], [platform], PhET-iO, and the constants
    and geometry of collaborators that are not among the sources. *)
Record Host : Type := mkHost {
  assertions : bool;              (* the global [assert] is defined *)
  speed : Q;                      (* phet.chipper.queryParameters.speed *)
  playbackModeEnabled : bool;     (* phet.joist.playbackModeEnabledProperty.value *)
  supportsPanAndZoom : bool;      (* phet.chipper.queryParameters.supportsPanAndZoom *)
  memoryLimit : bool;             (* phet.chipper.queryParameters.memoryLimit *)
  PHET_IO_ENABLED : bool;         (* Tandem.PHET_IO_ENABLED *)
  isReadyForDisplay : bool;       (* phet.phetio.phetioEngine.isReadyForDisplay *)
  hasTWEEN : bool;                (* window.TWEEN *)
  mobileSafari : bool;            (* platform.mobileSafari *)
  innerWidth : Q;                 (* window.innerWidth *)
  innerHeight : Q;                (* window.innerHeight *)
  NAVIGATION_BAR_SIZE_height : Q; (* NavigationBar.NAVIGATION_BAR_SIZE.height *)
  (* [this.navigationBar.height] once [layout( scale, width, height )] ran *)
  navigationBar_height : Q -> Q -> Q -> Q;
  (* [this.toolbar.getDisplayedWidth()] once [layout( scale, height )] ran *)
  toolbar_getDisplayedWidth : Q -> Q -> Q
}.

(** HomeScreenView.js: [const LAYOUT_BOUNDS = new Bounds2( 0, 0, 768, 504 )]. *)
Definition LAYOUT_BOUNDS : Bounds2 := mkBounds2 0 0 768 504.
Definition Bounds2_width (b : Bounds2) : Q := maxX b - minX b.
Definition Bounds2_height (b : Bounds2) : Q := maxY b - minY b.

(** The fields of [Sim] (and the global [phet.joist.elapsedTime]) that the
    modelled methods read or write. *)
Record Sim : Type := mkSim {
  dimensionProperty : Dimension2;
  scaleProperty : Q;
  boundsProperty : option Bounds2;
  screenBoundsProperty : option Bounds2;
  frameCounter : Z;
  resizePending : bool;
  elapsedTime : Q;                (* phet.joist.elapsedTime, milliseconds *)
  screens : list Screen;
  screenProperty : nat;           (* position of the current screen in [screens] *)
  activeProperty : bool;
  destroyed : bool;
  lastStepTime : Z;
  lastAnimationFrameTime : Z;
  hasToolbar : bool;              (* [this.toolbar] is not null *)
  hasVibrationManager : bool;     (* [this.vibrationManager] is not null *)
  isSettingPhetioStateProperty : bool;
  topLayer : list Popup;          (* children of [this.topLayer] other than the barrier *)
  modalNodeStack : list Popup;
  barrierVisible : bool           (* [this.barrierRectangle.visible] *)
}.

(** Calls on collaborators and writes of observable properties, in the
    order the code performs them. *)
Inductive Event : Type :=
| FrameStartedEmit
| FrameEndedEmit
| StepTimerEmit (dt : Q)
| ModelStep (screen : nat) (dt : Q)
| ViewStep (screen : nat) (dt : Q)
| TweenUpdate (time : Q)
| PanZoomStep (dt : Q)
| VibrationManagerStep (dt : Q)
| UpdateDisplay
| MemoryMonitorMeasure
| DimensionPropertySet (d : Dimension2)
| NavigationBarLayout (scale width height : Q)
| NavigationBarSetY (y : Q)
| DisplaySetSize (d : Dimension2)
| ToolbarLayout (scale height : Q)
| ScreenViewLayout (screen : nat) (b : Bounds2)
| PopupLayout (p : Popup) (b : option Bounds2)
| WindowScrollTo
| ScalePropertySet (scale : Q)
| BoundsPropertySet (b : Bounds2)
| ScreenBoundsPropertySet (b : Bounds2)
| PanZoomSetTargetScale (scale : Q)
| PanZoomSetTargetBounds (b : Bounds2)
| PanZoomSetPanBounds (b : Bounds2)
| PanZoomResetTransform
| UpdateBackground
| ScreenViewInterruptSubtreeInput (screen : nat)
| RootNodeInterruptSubtreeInput
| ActivePropertySet (screen : nat) (v : bool)
| ViewSetVisible (screen : nat) (v : bool)
| ModalNodeStackPush (p : Popup)
| ModalNodeStackRemove (p : Popup)
| BarrierSetVisible (v : bool)
| TopLayerAddChild (p : Popup)
| TopLayerRemoveChild (p : Popup)
| RequestAnimationFrame
| FuzzInputEvents
| AnimationFrameTimerEmit (dt : Q)
| PhetioOnAnimationLoop
| UtteranceQueuesClear
| RunOnNextTickUpdateDisplay.

(** ** A state, log and exception monad

    A method either returns or throws; in both cases the mutations and the
    calls made so far stay. *)
Inductive Outcome (A : Type) : Type :=
| Ret (a : A)
| Throw (msg : string).
Arguments Ret {A} a.
Arguments Throw {A} msg.

Definition M (A : Type) : Type := Sim -> Outcome A * Sim * list Event.

Definition ret {A} (a : A) : M A := fun s => (Ret a, s, []).

Definition bind {A B} (m : M A) (f : A -> M B) : M B :=
  fun s =>
    match m s with
    | (Ret a, s1, t1) =>
        match f a s1 with
        | (o, s2, t2) => (o, s2, t1 ++ t2)
        end
    | (Throw msg, s1, t1) => (Throw msg, s1, t1)
    end.

Notation "x <- m ;; k" := (bind m (fun x => k))
  (at level 61, m at next level, right associativity).
Notation "m ;; k" := (bind m (fun _ => k))
  (at level 61, right associativity).

Definition get : M Sim := fun s => (Ret s, s, []).
Definition modify (f : Sim -> Sim) : M unit := fun s => (Ret tt, f s, []).
Definition emit (e : Event) : M unit := fun s => (Ret tt, s, [e]).
Definition throw {A} (msg : string) : M A := fun s => (Throw msg, s, []).
Definition when (b : bool) (m : M unit) : M unit := if b then m else ret tt.

(** [assert && assert( cond, msg )] *)
Definition assert_ (h : Host) (cond : bool) (msg : string) : M unit :=
  if assertions h && negb cond then throw msg else ret tt.

(** [xs.forEach( f )] and [_.each( xs, f )] *)
Fixpoint forEach {A} (xs : list A) (f : A -> M unit) : M unit :=
  match xs with
  | [] => ret tt
  | x :: xs' => f x ;; forEach xs' f
  end.

Definition outcome {A} (r : Outcome A * Sim * list Event) : Outcome A := fst (fst r).
Definition state_of {A} (r : Outcome A * Sim * list Event) : Sim := snd (fst r).
Definition trace_of {A} (r : Outcome A * Sim * list Event) : list Event := snd r.

(** ** Field updates *)

Definition set_dimensionProperty (v : Dimension2) (s : Sim) : Sim :=
  mkSim v (scaleProperty s) (boundsProperty s) (screenBoundsProperty s)
    (frameCounter s) (resizePending s) (elapsedTime s) (screens s)
    (screenProperty s) (activeProperty s) (destroyed s) (lastStepTime s)
    (lastAnimationFrameTime s) (hasToolbar s) (hasVibrationManager s)
    (isSettingPhetioStateProperty s) (topLayer s) (modalNodeStack s)
    (barrierVisible s).

Definition set_scaleProperty (v : Q) (s : Sim) : Sim :=
  mkSim (dimensionProperty s) v (boundsProperty s) (screenBoundsProperty s)
    (frameCounter s) (resizePending s) (elapsedTime s) (screens s)
    (screenProperty s) (activeProperty s) (destroyed s) (lastStepTime s)
    (lastAnimationFrameTime s) (hasToolbar s) (hasVibrationManager s)
    (isSettingPhetioStateProperty s) (topLayer s) (modalNodeStack s)
    (barrierVisible s).

Definition set_boundsProperty (v : option Bounds2) (s : Sim) : Sim :=
  mkSim (dimensionProperty s) (scaleProperty s) v (screenBoundsProperty s)
    (frameCounter s) (resizePending s) (elapsedTime s) (screens s)
    (screenProperty s) (activeProperty s) (destroyed s) (lastStepTime s)
    (lastAnimationFrameTime s) (hasToolbar s) (hasVibrationManager s)
    (isSettingPhetioStateProperty s) (topLayer s) (modalNodeStack s)
    (barrierVisible s).

Definition set_screenBoundsProperty (v : option Bounds2) (s : Sim) : Sim :=
  mkSim (dimensionProperty s) (scaleProperty s) (boundsProperty s) v
    (frameCounter s) (resizePending s) (elapsedTime s) (screens s)
    (screenProperty s) (activeProperty s) (destroyed s) (lastStepTime s)
    (lastAnimationFrameTime s) (hasToolbar s) (hasVibrationManager s)
    (isSettingPhetioStateProperty s) (topLayer s) (modalNodeStack s)
    (barrierVisible s).

Definition set_frameCounter (v : Z) (s : Sim) : Sim :=
  mkSim (dimensionProperty s) (scaleProperty s) (boundsProperty s)
    (screenBoundsProperty s) v (resizePending s) (elapsedTime s) (screens s)
    (screenProperty s) (activeProperty s) (destroyed s) (lastStepTime s)
    (lastAnimationFrameTime s) (hasToolbar s) (hasVibrationManager s)
    (isSettingPhetioStateProperty s) (topLayer s) (modalNodeStack s)
    (barrierVisible s).

Definition set_resizePending (v : bool) (s : Sim) : Sim :=
  mkSim (dimensionProperty s) (scaleProperty s) (boundsProperty s)
    (screenBoundsProperty s) (frameCounter s) v (elapsedTime s) (screens s)
    (screenProperty s) (activeProperty s) (destroyed s) (lastStepTime s)
    (lastAnimationFrameTime s) (hasToolbar s) (hasVibrationManager s)
    (isSettingPhetioStateProperty s) (topLayer s) (modalNodeStack s)
    (barrierVisible s).

Definition set_elapsedTime (v : Q) (s : Sim) : Sim :=
  mkSim (dimensionProperty s) (scaleProperty s) (boundsProperty s)
    (screenBoundsProperty s) (frameCounter s) (resizePending s) v (screens s)
    (screenProperty s) (activeProperty s) (destroyed s) (lastStepTime s)
    (lastAnimationFrameTime s) (hasToolbar s) (hasVibrationManager s)
    (isSettingPhetioStateProperty s) (topLayer s) (modalNodeStack s)
    (barrierVisible s).

Definition set_screens (v : list Screen) (s : Sim) : Sim :=
  mkSim (dimensionProperty s) (scaleProperty s) (boundsProperty s)
    (screenBoundsProperty s) (frameCounter s) (resizePending s) (elapsedTime s)
    v (screenProperty s) (activeProperty s) (destroyed s) (lastStepTime s)
    (lastAnimationFrameTime s) (hasToolbar s) (hasVibrationManager s)
    (isSettingPhetioStateProperty s) (topLayer s) (modalNodeStack s)
    (barrierVisible s).

Definition set_screenProperty (v : nat) (s : Sim) : Sim :=
  mkSim (dimensionProperty s) (scaleProperty s) (boundsProperty s)
    (screenBoundsProperty s) (frameCounter s) (resizePending s) (elapsedTime s)
    (screens s) v (activeProperty s) (destroyed s) (lastStepTime s)
    (lastAnimationFrameTime s) (hasToolbar s) (hasVibrationManager s)
    (isSettingPhetioStateProperty s) (topLayer s) (modalNodeStack s)
    (barrierVisible s).

Definition set_destroyed (v : bool) (s : Sim) : Sim :=
  mkSim (dimensionProperty s) (scaleProperty s) (boundsProperty s)
    (screenBoundsProperty s) (frameCounter s) (resizePending s) (elapsedTime s)
    (screens s) (screenProperty s) (activeProperty s) v (lastStepTime s)
    (lastAnimationFrameTime s) (hasToolbar s) (hasVibrationManager s)
    (isSettingPhetioStateProperty s) (topLayer s) (modalNodeStack s)
    (barrierVisible s).

Definition set_lastStepTime (v : Z) (s : Sim) : Sim :=
  mkSim (dimensionProperty s) (scaleProperty s) (boundsProperty s)
    (screenBoundsProperty s) (frameCounter s) (resizePending s) (elapsedTime s)
    (screens s) (screenProperty s) (activeProperty s) (destroyed s) v
    (lastAnimationFrameTime s) (hasToolbar s) (hasVibrationManager s)
    (isSettingPhetioStateProperty s) (topLayer s) (modalNodeStack s)
    (barrierVisible s).

Definition set_lastAnimationFrameTime (v : Z) (s : Sim) : Sim :=
  mkSim (dimensionProperty s) (scaleProperty s) (boundsProperty s)
    (screenBoundsProperty s) (frameCounter s) (resizePending s) (elapsedTime s)
    (screens s) (screenProperty s) (activeProperty s) (destroyed s)
    (lastStepTime s) v (hasToolbar s) (hasVibrationManager s)
    (isSettingPhetioStateProperty s) (topLayer s) (modalNodeStack s)
    (barrierVisible s).

Definition set_topLayer (v : list Popup) (s : Sim) : Sim :=
  mkSim (dimensionProperty s) (scaleProperty s) (boundsProperty s)
    (screenBoundsProperty s) (frameCounter s) (resizePending s) (elapsedTime s)
    (screens s) (screenProperty s) (activeProperty s) (destroyed s)
    (lastStepTime s) (lastAnimationFrameTime s) (hasToolbar s)
    (hasVibrationManager s) (isSettingPhetioStateProperty s) v
    (modalNodeStack s) (barrierVisible s).

Definition set_modalNodeStack (v : list Popup) (s : Sim) : Sim :=
  mkSim (dimensionProperty s) (scaleProperty s) (boundsProperty s)
    (screenBoundsProperty s) (frameCounter s) (resizePending s) (elapsedTime s)
    (screens s) (screenProperty s) (activeProperty s) (destroyed s)
    (lastStepTime s) (lastAnimationFrameTime s) (hasToolbar s)
    (hasVibrationManager s) (isSettingPhetioStateProperty s) (topLayer s) v
    (barrierVisible s).

Definition set_barrierVisible (v : bool) (s : Sim) : Sim :=
  mkSim (dimensionProperty s) (scaleProperty s) (boundsProperty s)
    (screenBoundsProperty s) (frameCounter s) (resizePending s) (elapsedTime s)
    (screens s) (screenProperty s) (activeProperty s) (destroyed s)
    (lastStepTime s) (lastAnimationFrameTime s) (hasToolbar s)
    (hasVibrationManager s) (isSettingPhetioStateProperty s) (topLayer s)
    (modalNodeStack s) v.

(** ** JavaScript tests on numbers *)

(** [a > 0] *)
Definition Qpositive (a : Q) : bool := negb (Qle_bool a 0).
(** [a === 0] *)
Definition Qis_zero (a : Q) : bool := Qeq_bool a 0.
(** a number used as a condition: true unless it is zero *)
Definition truthy (a : Q) : bool := negb (Qeq_bool a 0).

(** ** The resize coordinator *)

(** The body of [this.resizeAction] (lines 422-474).  The barrier, which
    is the first child of the top layer, has no [layout] method and is left
    out of [topLayer]. *)
Definition resizeAction (h : Host) (width height : Q) : M unit :=
  assert_ h (Qpositive width && Qpositive height) "sim should have a nonzero area" ;;
  modify (set_dimensionProperty (mkDimension2 width height)) ;;
  emit (DimensionPropertySet (mkDimension2 width height)) ;;
  (* Gracefully support bad dimensions *)
  if Qis_zero width || Qis_zero height then ret tt
  else
    let scale := Qmin (width / Bounds2_width LAYOUT_BOUNDS)
                      (height / Bounds2_height LAYOUT_BOUNDS) in
    let navBarHeight := scale * NAVIGATION_BAR_SIZE_height h in
    emit (NavigationBarLayout scale width navBarHeight) ;;
    emit (NavigationBarSetY (height - navBarHeight)) ;;
    emit (DisplaySetSize (mkDimension2 width height)) ;;
    let screenHeight := height - navigationBar_height h scale width navBarHeight in
    s <- get ;;
    when (hasToolbar s) (emit (ToolbarLayout scale screenHeight)) ;;
    let screenMinX :=
      if hasToolbar s then toolbar_getDisplayedWidth h scale screenHeight else 0 in
    let availableScreenBounds := mkBounds2 screenMinX 0 width screenHeight in
    (* Layout each of the screens *)
    forEach (seq 0 (List.length (screens s)))
            (fun m => emit (ScreenViewLayout m availableScreenBounds)) ;;
    forEach (topLayer s)
            (fun child => when (hasLayout child)
                            (emit (PopupLayout child (Some availableScreenBounds)))) ;;
    when (mobileSafari h) (emit WindowScrollTo) ;;
    (* update our scale and bounds properties after other changes *)
    modify (set_scaleProperty scale) ;;
    emit (ScalePropertySet scale) ;;
    modify (set_boundsProperty (Some (mkBounds2 0 0 width height))) ;;
    emit (BoundsPropertySet (mkBounds2 0 0 width height)) ;;
    modify (set_screenBoundsProperty (Some availableScreenBounds)) ;;
    emit (ScreenBoundsPropertySet availableScreenBounds) ;;
    emit (PanZoomSetTargetScale scale) ;;
    emit (PanZoomSetTargetBounds (mkBounds2 0 0 width height)) ;;
    emit (PanZoomSetPanBounds (mkBounds2 0 0 width height)).

(** [resize( width, height )]: [this.resizeAction.execute( width, height )]. *)
Definition resize (h : Host) (width height : Q) : M unit :=
  resizeAction h width height.

(** [resizeToWindow()] *)
Definition resizeToWindow (h : Host) : M unit :=
  modify (set_resizePending false) ;;
  resize h (innerWidth h) (innerHeight h).

(** ** The frame scheduler *)

(** [this.screenProperty.value]: the entry of [this.screens] currently
    selected.  The property only admits members of [this.screens]
    ([validValues]); a position outside the list has no screen behind it. *)
Definition currentScreen : M Screen :=
  s <- get ;;
  match nth_error (screens s) (screenProperty s) with
  | Some screen => ret screen
  | None => throw "screenProperty.value is not one of this.screens"
  end.

(** [if ( screen.maxDT ) { dt = Math.min( dt, screen.maxDT ); }] *)
Definition capDT (screen : Screen) (dt : Q) : Q :=
  match maxDT screen with
  | Some m => if truthy m then Qmin dt m else dt
  | None => dt
  end.

(** The body of [this.stepSimulationAction] (lines 510-579). *)
Definition stepSimulationAction (h : Host) (dt : Q) : M unit :=
  emit FrameStartedEmit ;;
  (* increment this before we can have an exception thrown *)
  modify (fun s => set_frameCounter (frameCounter s + 1)%Z s) ;;
  (* Apply any scaling effects here before it is used. *)
  let dt := dt * speed h in
  s <- get ;;
  when (resizePending s) (resizeToWindow h) ;;
  screen <- currentScreen ;;
  s <- get ;;
  (* cap dt based on the current screen *)
  let dt := capDT screen dt in
  (* Store the elapsed time in milliseconds for usage by Tween clients *)
  modify (fun s => set_elapsedTime (elapsedTime s + dt * 1000) s) ;;
  (* timer step before model/view steps *)
  emit (StepTimerEmit dt) ;;
  (* If the DT is 0, we will skip the model step *)
  when (modelHasStep screen && truthy dt) (emit (ModelStep (screenProperty s) dt)) ;;
  s' <- get ;;
  when (hasTWEEN h) (emit (TweenUpdate (elapsedTime s'))) ;;
  when (supportsPanAndZoom h) (emit (PanZoomStep dt)) ;;
  when (hasVibrationManager s') (emit (VibrationManagerStep dt)) ;;
  (* View step is the last thing before updateDisplay() *)
  when (viewHasStep screen) (emit (ViewStep (screenProperty s) dt)) ;;
  when (negb (PHET_IO_ENABLED h && negb (isReadyForDisplay h))) (emit UpdateDisplay) ;;
  when (memoryLimit h) (emit MemoryMonitorMeasure) ;;
  emit FrameEndedEmit.

(** [stepSimulation( dt )]: [this.stepSimulationAction.execute( dt )]. *)
Definition stepSimulation (h : Host) (dt : Q) : M unit :=
  stepSimulationAction h dt.

(** [getDT( lastTime, currentTime )]: seconds since the last event, or
    1/60 when no time has been recorded yet. *)
Definition getDT (lastTime currentTime : Z) : Q :=
  if (lastTime =? -1)%Z then 1 / 60
  else inject_Z (currentTime - lastTime) / 1000.

(** [stepOneFrame()]; [currentTime] is what [Date.now()] returns. *)
Definition stepOneFrame (h : Host) (currentTime : Z) : M unit :=
  s <- get ;;
  let dt := getDT (lastStepTime s) currentTime in
  modify (set_lastStepTime currentTime) ;;
  (* Don't run the simulation on steps back in time *)
  when (Qpositive dt) (stepSimulation h dt).

(** [runAnimationLoop()]; [stepTime] and [currentTime] are the results of
    the two calls of [Date.now()], in [stepOneFrame] and in the loop. *)
Definition runAnimationLoop (h : Host) (stepTime currentTime : Z) : M unit :=
  s <- get ;;
  when (negb (destroyed s)) (emit RequestAnimationFrame) ;;
  (* Only run animation frames for an active sim. *)
  when (activeProperty s && negb (playbackModeEnabled h))
       (when (0 <? frameCounter s)%Z (emit FuzzInputEvents) ;;
        stepOneFrame h stepTime) ;;
  (* The animation frame timer runs every frame *)
  s <- get ;;
  emit (AnimationFrameTimerEmit (getDT (lastAnimationFrameTime s) currentTime)) ;;
  modify (set_lastAnimationFrameTime currentTime) ;;
  when (PHET_IO_ENABLED h) (emit PhetioOnAnimationLoop).

(** [updateViews()]: runs after PhET-iO has set the state.  It steps the
    view of the selected screen with a step of zero. *)
Definition updateViews (h : Host) : M unit :=
  (* Trigger layout code *)
  resizeToWindow h ;;
  screen <- currentScreen ;;
  s <- get ;;
  when (viewHasStep screen) (emit (ViewStep (screenProperty s) 0)) ;;
  emit UtteranceQueuesClear ;;
  emit RunOnNextTickUpdateDisplay.

(** [destroy()] (the removal of the DOM element is not modelled). *)
Definition destroy : M unit := modify (set_destroyed true).

(** The [resizeListener] that [finishInit] registers on the window. *)
Definition resizeListener (h : Host) : M unit :=
  (* Don't resize on window size changes if we are playing back input events. *)
  when (negb (playbackModeEnabled h)) (modify (set_resizePending true)).

(** ** Screen switching *)

Fixpoint update_nth {A} (n : nat) (f : A -> A) (l : list A) : list A :=
  match l, n with
  | [], _ => []
  | x :: l', O => f x :: l'
  | x :: l', S n' => x :: update_nth n' f l'
  end.

Definition with_active (v : bool) (scr : Screen) : Screen :=
  mkScreen (maxDT scr) (modelHasStep scr) (viewHasStep scr) v (viewVisible scr).

Definition with_viewVisible (v : bool) (scr : Screen) : Screen :=
  mkScreen (maxDT scr) (modelHasStep scr) (viewHasStep scr) (active scr) v.

(** [screen.activeProperty.set( v )] for the screen at position [screen]. *)
Definition screen_activeProperty_set (screen : nat) (v : bool) : M unit :=
  modify (fun s => set_screens (update_nth screen (with_active v) (screens s)) s) ;;
  emit (ActivePropertySet screen v).

(** [screen.view.setVisible( v )] for the screen at position [screen]. *)
Definition screen_view_setVisible (screen : nat) (v : bool) : M unit :=
  modify (fun s => set_screens (update_nth screen (with_viewVisible v) (screens s)) s) ;;
  emit (ViewSetVisible screen v).

(** [this.updateBackground()] *)
Definition updateBackground : M unit := emit UpdateBackground.

(** The body of the loop [screens.forEach( screen => ... )] of the listener
    below (lines 898-910), for the screen at position [screen]. *)
Definition showOrHideScreen (currentScreen screen : nat) : M unit :=
  let visible := Nat.eqb screen currentScreen in
  (* Make the selected screen visible and active, other screens invisible
     and inactive.  screen.isActiveProperty should change only while the
     screen is invisible. *)
  when visible (screen_activeProperty_set screen visible) ;;
  screen_view_setVisible screen visible ;;
  when (negb visible) (screen_activeProperty_set screen visible).

(** The listener that [finishInit] links to [this.screenProperty]
    (lines 897-919). *)
Definition screenListener (currentScreen : nat) : M unit :=
  s <- get ;;
  forEach (seq 0 (List.length (screens s))) (showOrHideScreen currentScreen) ;;
  updateBackground ;;
  s <- get ;;
  when (negb (isSettingPhetioStateProperty s)) (emit PanZoomResetTransform).

(** [this.screenProperty.value = newScreen] once [finishInit] has run.  An
    axon Property notifies its listeners, in the order they were linked,
    only when the new value differs from the current one.  The listeners
    linked by [Sim] are, in order: [updateBackground] (line 830), the
    interruption of the old screen's input (line 834), and [screenListener]
    (line 897). *)
Definition screenProperty_set (newScreen : nat) : M unit :=
  s <- get ;;
  let oldScreen := screenProperty s in
  if Nat.eqb newScreen oldScreen then ret tt
  else
    modify (set_screenProperty newScreen) ;;
    updateBackground ;;
    emit (ScreenViewInterruptSubtreeInput oldScreen) ;;
    screenListener newScreen.

(** ** Popups *)

(** [this.topLayer.hasChild( popup )] and [this.modalNodeStack.includes( popup )] *)
Definition includes (l : list Popup) (popup : Popup) : bool :=
  existsb (Popup_eqb popup) l.

(** Removal of the first occurrence, as [ObservableArray.remove] and
    [Node.removeChild] do. *)
Fixpoint remove_first (popup : Popup) (l : list Popup) : list Popup :=
  match l with
  | [] => []
  | x :: l' => if Popup_eqb popup x then l' else x :: remove_first popup l'
  end.

(** Modelled from the spec: BarrierRectangle (scenery-phet) is not among the
    sources.  It is constructed over [this.modalNodeStack] and, whenever the
    length of that array changes, makes itself visible when the array is not
    empty and invisible when it is. *)
Definition barrierLengthListener : M unit :=
  s <- get ;;
  let v := negb (Nat.eqb (List.length (modalNodeStack s)) 0) in
  modify (set_barrierVisible v) ;;
  emit (BarrierSetVisible v).

(** [this.modalNodeStack.push( popup )] *)
Definition modalNodeStack_push (popup : Popup) : M unit :=
  modify (fun s => set_modalNodeStack (modalNodeStack s ++ [popup]) s) ;;
  emit (ModalNodeStackPush popup) ;;
  barrierLengthListener.

(** [this.modalNodeStack.remove( popup )]: nothing happens when the popup is
    not in the array. *)
Definition modalNodeStack_remove (popup : Popup) : M unit :=
  s <- get ;;
  when (includes (modalNodeStack s) popup)
    (modify (fun s => set_modalNodeStack (remove_first popup (modalNodeStack s)) s) ;;
     emit (ModalNodeStackRemove popup) ;;
     barrierLengthListener).

(** [this.topLayer.addChild( popup )] *)
Definition topLayer_addChild (popup : Popup) : M unit :=
  modify (fun s => set_topLayer (topLayer s ++ [popup]) s) ;;
  emit (TopLayerAddChild popup).

(** [this.topLayer.removeChild( popup )] *)
Definition topLayer_removeChild (popup : Popup) : M unit :=
  modify (fun s => set_topLayer (remove_first popup (topLayer s)) s) ;;
  emit (TopLayerRemoveChild popup).

(** [showPopup( popup, isModal )].  The first assertion, [assert( popup )],
    holds of every [Popup]. *)
Definition showPopup (h : Host) (popup : Popup) (isModal : bool) : M unit :=
  assert_ h (hasHide popup) "Missing popup.hide() for showPopup" ;;
  s <- get ;;
  assert_ h (negb (includes (topLayer s) popup)) "popup already shown" ;;
  when isModal
    (emit RootNodeInterruptSubtreeInput ;;
     modalNodeStack_push popup) ;;
  s <- get ;;
  when (hasLayout popup) (emit (PopupLayout popup (screenBoundsProperty s))) ;;
  topLayer_addChild popup.

(** [hidePopup( popup, isModal )] *)
Definition hidePopup (h : Host) (popup : Popup) (isModal : bool) : M unit :=
  s <- get ;;
  assert_ h (includes (modalNodeStack s) popup) "Assertion failed" ;;
  assert_ h (includes (topLayer s) popup) "popup was not shown" ;;
  when isModal (modalNodeStack_remove popup) ;;
  topLayer_removeChild popup.

(** ** Definitions used to state the results *)

(** [prepend t r] puts the events [t] in front of the log of the result [r]. *)
Definition prepend {A} (t : list Event) (r : Outcome A * Sim * list Event)
  : Outcome A * Sim * list Event :=
  (outcome r, state_of r, t ++ trace_of r).

(** The computation [m] leaves the component [f] of the sim as it finds
    it, whether it returns or throws. *)
Definition keeps {X A} (f : Sim -> X) (m : M A) : Prop :=
  forall s, f (state_of (m s)) = f s.

(** Every event that the computation [m] logs satisfies [P]. *)
Definition logsOnly {A} (P : Event -> bool) (m : M A) : Prop :=
  forall s, forallb P (trace_of (m s)) = true.

(** *** Kinds of events *)

(** The calls of [layout] on a screen view or on a child of the top layer. *)
Definition isLayoutCall (e : Event) : bool :=
  match e with
  | ScreenViewLayout _ _ | PopupLayout _ _ => true
  | _ => false
  end.

Definition isScreenViewLayout (e : Event) : bool :=
  match e with
  | ScreenViewLayout _ _ => true
  | _ => false
  end.

(** The writes of [scaleProperty], [boundsProperty] and [screenBoundsProperty]. *)
Definition isGeometryWrite (e : Event) : bool :=
  match e with
  | ScalePropertySet _ | BoundsPropertySet _ | ScreenBoundsPropertySet _ => true
  | _ => false
  end.

(** The first write that a resize performs. *)
Definition isDimensionWrite (e : Event) : bool :=
  match e with
  | DimensionPropertySet _ => true
  | _ => false
  end.

(** The numbers handed to a [layout] routine by the call [e]. *)
Definition layoutArguments (e : Event) : list Q :=
  match e with
  | NavigationBarLayout scale width height => [scale; width; height]
  | ToolbarLayout scale height => [scale; height]
  | ScreenViewLayout _ b => [minX b; minY b; maxX b; maxY b]
  | PopupLayout _ (Some b) => [minX b; minY b; maxX b; maxY b]
  | _ => []
  end.

Definition isModelStep (e : Event) : bool :=
  match e with
  | ModelStep _ _ => true
  | _ => false
  end.

Definition isViewStep (e : Event) : bool :=
  match e with
  | ViewStep _ _ => true
  | _ => false
  end.

Definition isNotFrameRequest (e : Event) : bool :=
  match e with
  | RequestAnimationFrame => false
  | _ => true
  end.

Definition isInterrupt (e : Event) : bool :=
  match e with
  | ScreenViewInterruptSubtreeInput _ => true
  | _ => false
  end.

Definition isShow (e : Event) : bool :=
  match e with
  | ViewSetVisible _ true => true
  | _ => false
  end.

Definition isResetTransform (e : Event) : bool :=
  match e with
  | PanZoomResetTransform => true
  | _ => false
  end.

(** *** The resize coordinator *)

(** The value of [availableScreenBounds] (lines 431-448). *)
Definition contentBounds (h : Host) (s : Sim) (width height : Q) : Bounds2 :=
  let scale := Qmin (width / Bounds2_width LAYOUT_BOUNDS)
                    (height / Bounds2_height LAYOUT_BOUNDS) in
  let navBarHeight := scale * NAVIGATION_BAR_SIZE_height h in
  let screenHeight := height - navigationBar_height h scale width navBarHeight in
  mkBounds2 (if hasToolbar s then toolbar_getDisplayedWidth h scale screenHeight else 0)
            0 width screenHeight.

(** What one child of the top layer logs when it is offered the bounds. *)
Definition popupLayoutEvent (b : Bounds2) (child : Popup) : list Event :=
  if hasLayout child then [PopupLayout child (Some b)] else [].

(** *** The frame scheduler *)

(** The step that [stepSimulationAction] works with when it is called with
    [dt] while [screen] is selected: [dt] times the speed, capped. *)
Definition effectiveDT (h : Host) (screen : Screen) (dt : Q) : Q :=
  capDT screen (dt * speed h).

(** The elapsed time after the additions [elapsedTime += dt * 1000] of a
    sequence of calls, made one after the other in the order of the calls
    from the value [elapsed]; [eff] gives the effective step of a call. *)
Definition accumulate (eff : Q -> Q) (dts : list Q) (elapsed : Q) : Q :=
  fold_left (fun e dt => e + eff dt * 1000) dts elapsed.

(** What [stepSimulationAction] logs from the timer step onwards, for the
    effective step [dt], the selected screen [screen] at position [i], and
    the elapsed time [elapsed] reached by this step. *)
Definition stepEvents (h : Host) (vibration : bool) (i : nat) (screen : Screen)
           (dt elapsed : Q) : list Event :=
  [StepTimerEmit dt]
  ++ (if modelHasStep screen && truthy dt then [ModelStep i dt] else [])
  ++ (if hasTWEEN h then [TweenUpdate elapsed] else [])
  ++ (if supportsPanAndZoom h then [PanZoomStep dt] else [])
  ++ (if vibration then [VibrationManagerStep dt] else [])
  ++ (if viewHasStep screen then [ViewStep i dt] else [])
  ++ (if negb (PHET_IO_ENABLED h && negb (isReadyForDisplay h))
      then [UpdateDisplay] else [])
  ++ (if memoryLimit h then [MemoryMonitorMeasure] else [])
  ++ [FrameEndedEmit].



(** *** Screen switching *)

(** What the listener of [finishInit] logs for the screen at position [i]
    when [selected] is the current screen. *)
Definition screenEvents (selected i : nat) : list Event :=
  if Nat.eqb i selected
  then [ActivePropertySet i true; ViewSetVisible i true]
  else [ViewSetVisible i false; ActivePropertySet i false].

(** The screens once the listener has gone through them; [i] is the
    position of the head of the list. *)
Fixpoint showScreens (selected i : nat) (l : list Screen) : list Screen :=
  match l with
  | [] => []
  | scr :: l' =>
      mkScreen (maxDT scr) (modelHasStep scr) (viewHasStep scr)
               (Nat.eqb i selected) (Nat.eqb i selected)
      :: showScreens selected (S i) l'
  end.

(** Every screen is active and visible exactly when it is the selected one. *)
Definition onlySelectedShown (l : list Screen) (selected : nat) : Prop :=
  forall i scr, nth_error l i = Some scr ->
                active scr = Nat.eqb i selected
                /\ viewVisible scr = Nat.eqb i selected.

(** Replays the log [t] on the screens [l] and checks that every write of
    an active flag that changes the flag happens while the view of that
    screen is invisible. *)
Fixpoint activeChangesWhileInvisible (l : list Screen) (t : list Event) : bool :=
  match t with
  | [] => true
  | ActivePropertySet i v :: t' =>
      match nth_error l i with
      | Some scr =>
          (Bool.eqb (active scr) v || negb (viewVisible scr))
          && activeChangesWhileInvisible (update_nth i (with_active v) l) t'
      | None => activeChangesWhileInvisible l t'
      end
  | ViewSetVisible i v :: t' =>
      activeChangesWhileInvisible (update_nth i (with_viewVisible v) l) t'
  | _ :: t' => activeChangesWhileInvisible l t'
  end.

(** *** Popups *)

(** A call of [showPopup] or of [hidePopup]. *)
Inductive PopupCall : Type :=
| Show (popup : Popup) (isModal : bool)
| Hide (popup : Popup) (isModal : bool).

Definition callPopup (h : Host) (c : PopupCall) : M unit :=
  match c with
  | Show popup isModal => showPopup h popup isModal
  | Hide popup isModal => hidePopup h popup isModal
  end.

(** The sim after a sequence of calls.  A call that throws leaves the sim
    as it was when the error was raised, and the next call finds it so. *)
Fixpoint callPopups (h : Host) (cs : list PopupCall) (s : Sim) : Sim :=
  match cs with
  | [] => s
  | c :: cs' => callPopups h cs' (state_of (callPopup h c s))
  end.

(** The sim after [showPopup( popup, isModal )] has returned. *)
Definition shown (popup : Popup) (isModal : bool) (s : Sim) : Sim :=
  set_topLayer (topLayer s ++ [popup])
    (if isModal
     then set_barrierVisible true
            (set_modalNodeStack (modalNodeStack s ++ [popup]) s)
     else s).

(** The barrier is visible exactly when the modal stack is not empty. *)
Definition barrierFollowsStack (s : Sim) : Prop :=
  barrierVisible s = true <-> modalNodeStack s <> [].

(** ** Sample configurations *)

(** A production build (no assertions) in a 1024 x 768 window, at normal
    speed, with a navigation bar of fixed height 40 that takes the height it
    is laid out with, and no toolbar. *)
Definition productionHost : Host :=
  mkHost false 1 false true false false true false false 1024 768 40
         (fun _ _ height => height) (fun _ _ => 0).

(** The same with assertions enabled. *)
Definition developmentHost : Host :=
  mkHost true 1 false true false false true false false 1024 768 40
         (fun _ _ height => height) (fun _ _ => 0).

(** Playback mode, after the window has been resized to 800 x 600. *)
Definition playbackHost : Host :=
  mkHost false 1 true true false false true false false 800 600 40
         (fun _ _ height => height) (fun _ _ => 0).

(** The same outside playback mode. *)
Definition resizedHost : Host :=
  mkHost false 1 false true false false true false false 800 600 40
         (fun _ _ height => height) (fun _ _ => 0).

(** A home screen followed by two content screens, the home screen selected. *)
Definition threeScreens : list Screen :=
  [mkScreen None true true true true;
   mkScreen None true true false false;
   mkScreen (Some (1 # 2)) true true false false].

(** A sim once [finishInit] has run in the window of [productionHost]. *)
Definition runningSim : Sim :=
  mkSim (mkDimension2 1024 768) (4 # 3)
        (Some (mkBounds2 0 0 1024 768)) (Some (mkBounds2 0 0 1024 (2144 # 3)))
        0%Z false 0 threeScreens 0 true false (-1)%Z (-1)%Z
        false false false [] [] false.

(** A sim whose last frame was stepped at the clock reading 1000. *)
Definition tickingSim : Sim := set_lastStepTime 1000 runningSim.

(** A sim on which [destroy()] has been called. *)
Definition destroyedSim : Sim := state_of (destroy runningSim).

(** A sim in which PhET-iO is setting the state. *)
Definition settingStateSim : Sim :=
  mkSim (mkDimension2 1024 768) (4 # 3)
        (Some (mkBounds2 0 0 1024 768)) (Some (mkBounds2 0 0 1024 (2144 # 3)))
        0%Z false 0 threeScreens 0 true false (-1)%Z (-1)%Z
        false false true [] [] false.

(** Two popups: a menu without a layout routine and a dialog with one. *)
Definition menuPopup : Popup := mkPopup 1 true false.
Definition dialogPopup : Popup := mkPopup 2 true true.

(** ** Further definitions: sequences of calls *)

(** A sequence of ticks of the animation loop; each tick comes with the two
    readings of the clock that it makes. *)
Definition runAnimationLoops (h : Host) (ticks : list (Z * Z)) : M unit :=
  forEach ticks (fun t => runAnimationLoop h (fst t) (snd t)).

(** A sequence of assignments to [this.screenProperty]. *)
Definition selectScreens (ys : list nat) : M unit :=
  forEach ys screenProperty_set.

(** The screens after the writes of active flags and of visibility that the
    log [t] records. *)
Fixpoint replayScreens (l : list Screen) (t : list Event) : list Screen :=
  match t with
  | [] => l
  | ActivePropertySet i v :: t' => replayScreens (update_nth i (with_active v) l) t'
  | ViewSetVisible i v :: t' => replayScreens (update_nth i (with_viewVisible v) l) t'
  | _ :: t' => replayScreens l t'
  end.

(** The clock readings [ts] increase strictly, starting above [t0]. *)
Fixpoint increasingFrom (t0 : Z) (ts : list Z) : Prop :=
  match ts with
  | [] => True
  | t :: ts' => (t0 < t)%Z /\ increasingFrom t ts'
  end.

Definition isFrameStarted (e : Event) : bool :=
  match e with
  | FrameStartedEmit => true
  | _ => false
  end.

Definition isRootInterrupt (e : Event) : bool :=
  match e with
  | RootNodeInterruptSubtreeInput => true
  | _ => false
  end.

(** The steps that [stepOneFrame] computes, tick by tick, for the clock
    readings [ts], the step time recorded before the first of them being
    [t0]. *)
Fixpoint stepsOf (t0 : Z) (ts : list Z) : list Q :=
  match ts with
  | [] => []
  | t :: ts' => getDT t0 t :: stepsOf t ts'
  end.

(** *** The parts of the sim *)

(** The frame counter, the elapsed time and the two recorded clock readings. *)
Definition clockOf (s : Sim) : Z * Q * Z * Z :=
  (frameCounter s, elapsedTime s, lastStepTime s, lastAnimationFrameTime s).

(** The size of the sim, its scale and bounds, and the pending flag. *)
Definition geometryOf (s : Sim)
  : Dimension2 * Q * option Bounds2 * option Bounds2 * bool :=
  (dimensionProperty s, scaleProperty s, boundsProperty s,
   screenBoundsProperty s, resizePending s).

(** The screens with their flags, and the selected screen. *)
Definition selectionOf (s : Sim) : list Screen * nat :=
  (screens s, screenProperty s).

(** The children of the top layer, the modal stack and the barrier. *)
Definition popupsOf (s : Sim) : list Popup * list Popup * bool :=
  (topLayer s, modalNodeStack s, barrierVisible s).

(** A development build whose window has no width. *)
Definition collapsedHost : Host :=
  mkHost true 1 false true false false true false false 0 768 40
         (fun _ _ height => height) (fun _ _ => 0).

(** [runningSim] with a resize pending. *)
Definition pendingSim : Sim := set_resizePending true runningSim.

(** [runningSim] once its second content screen, which caps its steps at
    half a second, has been selected. *)
Definition cappedSim : Sim := state_of (screenProperty_set 2 runningSim).

(** ** The PhET menu (PhetMenu.js) *)

(** What [show] and [hide] of the menu work on: the flag [this.isShowing]
    of the menu, [Display.focus] (the focused node, if any) and the sim
    [window.phet.joist.sim]. *)
Record PhetMenuWorld : Type := mkPhetMenuWorld {
  isShowing : bool;
  Display_focus : option nat;
  joist_sim : Sim
}.

(** [show()] of the menu [self] (lines 487-496).  The focus listener of the
    menu ignores the value null of [Display.focus].  When [showPopup]
    throws, the assignment to [this.isShowing] is not reached. *)
Definition PhetMenu_show (h : Host) (self : Popup) (w : PhetMenuWorld)
  : Outcome unit * PhetMenuWorld * list Event :=
  if negb (isShowing w) then
    (* make sure that any previously focused elements no longer have focus *)
    let focus : option nat := None in
    let r := showPopup h self true (joist_sim w) in
    match outcome r with
    | Ret _ => (Ret tt, mkPhetMenuWorld true focus (state_of r), trace_of r)
    | Throw msg =>
        (Throw msg, mkPhetMenuWorld (isShowing w) focus (state_of r), trace_of r)
    end
  else (Ret tt, w, []).

(** [hide()] of the menu [self] (lines 499-504): the flag is cleared before
    [hidePopup] is called. *)
Definition PhetMenu_hide (h : Host) (self : Popup) (w : PhetMenuWorld)
  : Outcome unit * PhetMenuWorld * list Event :=
  if isShowing w then
    let r := hidePopup h self true (joist_sim w) in
    (outcome r, mkPhetMenuWorld false (Display_focus w) (state_of r), trace_of r)
  else (Ret tt, w, []).

(** The parts of the result of a call on the menu. *)
Definition menuOutcome {A} (r : A * PhetMenuWorld * list Event) : A := fst (fst r).
Definition menuWorld {A} (r : A * PhetMenuWorld * list Event) : PhetMenuWorld :=
  snd (fst r).

(** A call of [show] or of [hide] on the menu. *)
Inductive MenuCall : Type := MenuShow | MenuHide.

Definition callMenu (h : Host) (self : Popup) (c : MenuCall) (w : PhetMenuWorld)
  : Outcome unit * PhetMenuWorld * list Event :=
  match c with
  | MenuShow => PhetMenu_show h self w
  | MenuHide => PhetMenu_hide h self w
  end.

(** A sequence of calls, each from its own event: the outcomes of the
    calls, the world that the last one leaves, and the events logged. *)
Fixpoint callMenus (h : Host) (self : Popup) (cs : list MenuCall) (w : PhetMenuWorld)
  : list (Outcome unit) * PhetMenuWorld * list Event :=
  match cs with
  | [] => ([], w, [])
  | c :: cs' =>
      let '(o, w1, t1) := callMenu h self c w in
      let '(os, w2, t2) := callMenus h self cs' w1 in
      (o :: os, w2, t1 ++ t2)
  end.

(** How often [popup] occurs in [l]. *)
Definition occurrences (popup : Popup) (l : list Popup) : nat :=
  List.length (filter (Popup_eqb popup) l).

(** The popups of [l] other than [popup], in order. *)
Definition otherPopups (popup : Popup) (l : list Popup) : list Popup :=
  filter (fun q => negb (Popup_eqb popup q)) l.

(** The flag of the menu agrees with the sim: the menu is a child of the
    top layer and an entry of the modal stack, once each, when the flag is
    set, and neither when it is not. *)
Definition menuConsistent (self : Popup) (w : PhetMenuWorld) : Prop :=
  occurrences self (topLayer (joist_sim w)) = (if isShowing w then 1 else 0)%nat
  /\ occurrences self (modalNodeStack (joist_sim w))
     = (if isShowing w then 1 else 0)%nat.

(** Whether the menu shows after the calls [cs], given whether it does
    before: the last call decides. *)
Fixpoint showsAfter (cs : list MenuCall) (before : bool) : bool :=
  match cs with
  | [] => before
  | MenuShow :: cs' => showsAfter cs' true
  | MenuHide :: cs' => showsAfter cs' false
  end.

(** The updates of the display, now ([display.updateDisplay()]) or on the
    next tick. *)
Definition isDisplayUpdate (e : Event) : bool :=
  match e with
  | UpdateDisplay | RunOnNextTickUpdateDisplay => true
  | _ => false
  end.

(** ** Start-up: [start] and [finishInit] *)

(** What start-up reads besides the [Host]: query parameters of chipper,
    the brand, the document and the window, the warnings of
    QueryStringMachine, [DotUtils.linear], the identity of
    [screen.backgroundColorProperty] for the screen at each position
    (screens may share one instance), the position of the home screen in
    [this.screens], if there is one, and whether a listener of the step
    timer draws a random number when the timer is flushed. *)
Record StartHost : Type := mkStartHost {
  profiler : bool;
  continuousTest : bool;
  postMessageOnLoad : bool;
  windowParent : bool;
  phetioStandalone : bool;
  brandIsPhet : bool;
  hasProgressBarForeground : bool;
  hasVisualViewport : bool;
  warnings : nat;
  linear : Q -> Q -> Q -> Q -> Q -> Q;
  backgroundColorProperty : nat -> nat;
  homeScreen : option nat;
  stepTimerDrawsRandom : bool
}.

Definition PROGRESS_BAR_WIDTH : Q := 273.

(** The children that [finishInit] adds to [display.simulationRoot]. *)
Inductive RootChild : Type :=
| ScreenViewChild (screen : nat)
| NavigationBarChild
| ToolbarChild
| TopLayerChild.

(** The log of start-up: the events of the sim, and the calls that only
    start-up makes. *)
Inductive StartEvent : Type :=
| SimEvent (e : Event)
| BackgroundColorPropertyLink (property : nat)
| InitializeModel (screen : nat)
| InitializeView (screen numberOfScreens : nat) (isHomeScreen : bool)
| ProgressBarSetWidth (width : Q)
| ViewSetLayerSplit (screen : nat)
| SimulationRootAddChild (child : RootChild)
| SimulationRootSetPdomOrderToolbar
| ScreenPropertyLink
| TopLayerAddBarrierRectangle
| JQueryWindowResize
| WindowAddEventListener (type : string)
| VisualViewportAddEventListener (type : string)
| UpdateCheckCheck
| PolyfillRequestAnimationFrame
| ProfilerStart
| ConstructionCompleteSet
| SplashScreenDispose
| ReportContinuousTestResult
| ParentPostMessage.

(** The state of start-up: the sim, and the background properties that
    have [this.updateBackground] among their listeners. *)
Record StartState : Type := mkStartState {
  sim_of : Sim;
  linkedBackgrounds : list nat
}.

Definition MS (A : Type) : Type :=
  StartState -> Outcome A * StartState * list StartEvent.

Definition retS {A} (a : A) : MS A := fun w => (Ret a, w, []).

Definition bindS {A B} (m : MS A) (f : A -> MS B) : MS B :=
  fun w =>
    match m w with
    | (Ret a, w1, t1) =>
        match f a w1 with
        | (o, w2, t2) => (o, w2, t1 ++ t2)
        end
    | (Throw msg, w1, t1) => (Throw msg, w1, t1)
    end.

Declare Scope start_scope.
Delimit Scope start_scope with start.
Notation "x <- m ;; k" := (bindS m (fun x => k))
  (at level 61, m at next level, right associativity) : start_scope.
Notation "m ;; k" := (bindS m (fun _ => k))
  (at level 61, right associativity) : start_scope.

Definition getS : MS StartState := fun w => (Ret w, w, []).
Definition modifyS (f : StartState -> StartState) : MS unit :=
  fun w => (Ret tt, f w, []).
Definition emitS (e : StartEvent) : MS unit := fun w => (Ret tt, w, [e]).
Definition throwS {A} (msg : string) : MS A := fun w => (Throw msg, w, []).
Definition whenS (b : bool) (m : MS unit) : MS unit := if b then m else retS tt.

Definition assertS (h : Host) (cond : bool) (msg : string) : MS unit :=
  if assertions h && negb cond then throwS msg else retS tt.

Fixpoint forEachS {A} (xs : list A) (f : A -> MS unit) : MS unit :=
  match xs with
  | [] => retS tt
  | x :: xs' => (f x ;; forEachS xs' f)%start
  end.

(** A computation of the sim as a step of start-up. *)
Definition liftSim {A} (m : M A) : MS A :=
  fun w =>
    let r := m (sim_of w) in
    (outcome r, mkStartState (state_of r) (linkedBackgrounds w),
     map SimEvent (trace_of r)).

Definition outcomeS {A} (r : Outcome A * StartState * list StartEvent) : Outcome A :=
  fst (fst r).
Definition stateS {A} (r : Outcome A * StartState * list StartEvent) : StartState :=
  snd (fst r).
Definition traceS {A} (r : Outcome A * StartState * list StartEvent) : list StartEvent :=
  snd r.

(** The dialog that [finishInit] creates for the warnings. *)
Definition warningDialog : Popup := mkPopup 0 true true.

(** [finishInit( screens )] (lines 884-978).  [link] calls the listener at
    once with the current value.  The barrier rectangle is a child of the
    top layer that is not a popup and has no [layout]; [topLayer] lists the
    other children.  [warningDialog.show()] is [Dialog.show] of sun, which
    shows the dialog through [showPopup]. *)
Definition finishInit (h : Host) (sh : StartHost) : MS unit :=
  (w <- getS ;;
   forEachS (seq 0 (List.length (screens (sim_of w))))
     (fun screen =>
        emitS (ViewSetLayerSplit screen) ;;
        emitS (SimulationRootAddChild (ScreenViewChild screen))) ;;
   emitS (SimulationRootAddChild NavigationBarChild) ;;
   whenS (hasToolbar (sim_of w))
     (emitS (SimulationRootAddChild ToolbarChild) ;;
      emitS SimulationRootSetPdomOrderToolbar) ;;
   emitS ScreenPropertyLink ;;
   liftSim (screenListener (screenProperty (sim_of w))) ;;
   (* layer for popups, dialogs, and their backgrounds and barriers *)
   liftSim (modify (set_topLayer [])) ;;
   emitS (SimulationRootAddChild TopLayerChild) ;;
   liftSim (modify (set_modalNodeStack [])) ;;
   emitS TopLayerAddBarrierRectangle ;;
   (* Fit to the window and render the initial scene *)
   emitS JQueryWindowResize ;;
   emitS (WindowAddEventListener "resize") ;;
   emitS (WindowAddEventListener "orientationchange") ;;
   whenS (hasVisualViewport sh) (emitS (VisualViewportAddEventListener "resize")) ;;
   liftSim (resizeToWindow h) ;;
   (* Kick off checking for updates, if that is enabled *)
   emitS UpdateCheckCheck ;;
   (* Keep track of the previous time for computing dt, and initially
      signify that time hasn't been recorded yet. *)
   liftSim (modify (set_lastStepTime (-1))) ;;
   liftSim (modify (set_lastAnimationFrameTime (-1))) ;;
   (* show any query parameter warnings in a dialog *)
   whenS (negb (Nat.eqb (warnings sh) 0)) (liftSim (showPopup h warningDialog true)))%start.

(** The work that [start] schedules: for each screen, the model and then
    the view. *)
Inductive WorkItem : Type :=
| ModelItem (screen : nat)
| ViewItem (screen : nat).

(** [this.screens.forEach( screen => { workItems.push( ... ); workItems.push( ... ); } )] *)
Definition workItems (numberOfScreens : nat) : list WorkItem :=
  flat_map (fun screen => [ModelItem screen; ViewItem screen])
           (seq 0 numberOfScreens).

(** [workItems[ i ]()] *)
Definition runWorkItem (sh : StartHost) (item : WorkItem) : MS unit :=
  match item with
  | ModelItem screen =>
      (w <- getS ;;
       let property := backgroundColorProperty sh screen in
       (* Screens may share the same instance of backgroundProperty *)
       whenS (negb (existsb (Nat.eqb property) (linkedBackgrounds w)))
         (modifyS (fun w => mkStartState (sim_of w)
                              (linkedBackgrounds w ++ [property])) ;;
          emitS (BackgroundColorPropertyLink property) ;;
          liftSim updateBackground) ;;
       emitS (InitializeModel screen))%start
  | ViewItem screen =>
      (w <- getS ;;
       emitS (InitializeView screen (List.length (screens (sim_of w)))
                (match homeScreen sh with
                 | Some home => Nat.eqb home screen
                 | None => false
                 end)))%start
  end.

(** The body of the last timer of [start] (lines 1079-1135); [stepTime]
    and [currentTime] are the clock readings of the first tick. *)
Definition finishStart (h : Host) (sh : StartHost) (stepTime currentTime : Z)
  : MS unit :=
  (finishInit h sh ;;
   (* Make sure requestAnimationFrame is defined *)
   emitS PolyfillRequestAnimationFrame ;;
   whenS (profiler sh) (emitS ProfilerStart) ;;
   emitS ConstructionCompleteSet ;;
   (* Schedules animation updates and runs the first step() *)
   liftSim (runAnimationLoop h stepTime currentTime) ;;
   (* If the sim is in playback mode, then flush the timer's listeners. *)
   whenS (playbackModeEnabled h)
     (liftSim (emit (StepTimerEmit 0)) ;;
      assertS h (negb (stepTimerDrawsRandom sh))
        "Random was called more times in the playback sim on startup") ;;
   (* After the application is ready to go, remove the splash screen and
      progress bar. *)
   whenS (negb (PHET_IO_ENABLED h) || phetioStandalone sh) (emitS SplashScreenDispose) ;;
   whenS (brandIsPhet sh)
     (assertS h (negb (PHET_IO_ENABLED h))
        "window.phet.preloads.phetio should not exist for phet brand") ;;
   whenS (continuousTest sh) (emitS ReportContinuousTestResult) ;;
   whenS (postMessageOnLoad sh) (whenS (windowParent sh) (emitS ParentPostMessage)))%start.

(** [runItem( i )] (lines 1057-1146): the timers run one after the
    other, and an error in one of them ends the chain; the delays are not
    modelled.  [timers] bounds the number of timers still to run. *)
Fixpoint runItem (h : Host) (sh : StartHost) (items : list WorkItem)
         (stepTime currentTime : Z) (timers i : nat) : MS unit :=
  match timers with
  | O => throwS "no timer left"
  | S timers' =>
      match nth_error items i with
      | None => throwS "TypeError: workItems[i] is not a function"
      | Some item =>
          (runWorkItem sh item ;;
           (* Move the progress ahead by one so we show the full progress
              bar for a moment before the sim starts up *)
           let progress :=
             linear sh 0 (inject_Z (Z.of_nat (List.length items)) - 1) (1 # 4) 1
                    (inject_Z (Z.of_nat i)) in
           whenS (hasProgressBarForeground sh)
             (emitS (ProgressBarSetWidth (progress * PROGRESS_BAR_WIDTH))) ;;
           if (i + 1 <? List.length items)%nat
           then runItem h sh items stepTime currentTime timers' (i + 1)
           else finishStart h sh stepTime currentTime)%start
      end
  end.

(** [start()] (lines 1034-1151) *)
Definition start (h : Host) (sh : StartHost) (stepTime currentTime : Z) : MS unit :=
  (w <- getS ;;
   let items := workItems (List.length (screens (sim_of w))) in
   runItem h sh items stepTime currentTime (S (List.length items)) 0)%start.

(** *** Definitions used to state the results on start-up *)

Definition prependS {A} (t : list StartEvent)
           (r : Outcome A * StartState * list StartEvent)
  : Outcome A * StartState * list StartEvent :=
  (outcomeS r, stateS r, t ++ traceS r).

(** The events of the sim in a log of start-up. *)
Fixpoint simEvents (t : list StartEvent) : list Event :=
  match t with
  | [] => []
  | SimEvent e :: t' => e :: simEvents t'
  | _ :: t' => simEvents t'
  end.

Definition isInitialize (e : StartEvent) : bool :=
  match e with
  | InitializeModel _ | InitializeView _ _ _ => true
  | _ => false
  end.

(** The background properties linked, in the order of the log. *)
Fixpoint linksOf (t : list StartEvent) : list nat :=
  match t with
  | [] => []
  | BackgroundColorPropertyLink p :: t' => p :: linksOf t'
  | _ :: t' => linksOf t'
  end.

(** The calls that the work items make: links of background properties,
    initializations, and the background update that a link triggers. *)
Definition isWorkCall (e : StartEvent) : bool :=
  match e with
  | BackgroundColorPropertyLink _ | InitializeModel _ | InitializeView _ _ _
  | ProgressBarSetWidth _ | SimEvent UpdateBackground => true
  | _ => false
  end.

(** The initializations of [n] screens, screen by screen, the model of a
    screen before its view. *)
Definition initializations (sh : StartHost) (n : nat) : list StartEvent :=
  flat_map (fun screen =>
              [InitializeModel screen;
               InitializeView screen n
                 (match homeScreen sh with
                  | Some home => Nat.eqb home screen
                  | None => false
                  end)])
           (seq 0 n).

(** The background properties with the listener once the screens [l] have
    been worked on, [linked] being those that had it before. *)
Fixpoint linkedAfter (sh : StartHost) (linked : list nat) (l : list nat) : list nat :=
  match l with
  | [] => linked
  | screen :: l' =>
      let property := backgroundColorProperty sh screen in
      linkedAfter sh
        (if existsb (Nat.eqb property) linked then linked else linked ++ [property])
        l'
  end.

(** What the two work items of the screen at position [screen] log, the
    progress included; [total] is the number of work items. *)
Definition screenWork (sh : StartHost) (n : nat) (linked : list nat) (screen : nat)
  : list StartEvent :=
  let property := backgroundColorProperty sh screen in
  let progress i :=
    if hasProgressBarForeground sh
    then [ProgressBarSetWidth
            (linear sh 0 (inject_Z (Z.of_nat (List.length (workItems n))) - 1)
                    (1 # 4) 1 (inject_Z (Z.of_nat i)) * PROGRESS_BAR_WIDTH)]
    else [] in
  (if existsb (Nat.eqb property) linked then []
   else [BackgroundColorPropertyLink property; SimEvent UpdateBackground])
  ++ [InitializeModel screen]
  ++ progress (2 * screen)%nat
  ++ [InitializeView screen n
        (match homeScreen sh with
         | Some home => Nat.eqb home screen
         | None => false
         end)]
  ++ progress (2 * screen + 1)%nat.

(** What the work items of the screens [l] log. *)
Fixpoint workLog (sh : StartHost) (n : nat) (linked : list nat) (l : list nat)
  : list StartEvent :=
  match l with
  | [] => []
  | screen :: l' =>
      let property := backgroundColorProperty sh screen in
      screenWork sh n linked screen
      ++ workLog sh n
           (if existsb (Nat.eqb property) linked then linked else linked ++ [property])
           l'
  end.

(** The sim that [finishInit] leaves in a window of positive area when
    there are no warnings. *)
Definition initialized (h : Host) (s : Sim) : Sim :=
  let s1 := set_modalNodeStack []
              (set_topLayer []
                 (set_screens (showScreens (screenProperty s) 0 (screens s)) s)) in
  let width := innerWidth h in
  let height := innerHeight h in
  set_lastAnimationFrameTime (-1)
    (set_lastStepTime (-1)
       (set_screenBoundsProperty (Some (contentBounds h s1 width height))
          (set_boundsProperty (Some (mkBounds2 0 0 width height))
             (set_scaleProperty
                (Qmin (width / Bounds2_width LAYOUT_BOUNDS)
                      (height / Bounds2_height LAYOUT_BOUNDS))
                (set_dimensionProperty (mkDimension2 width height)
                   (set_resizePending false s1)))))).

(** A launch on the phet brand without PhET-iO: no query parameter is set,
    the three screens have a background property each, and the first is the
    home screen. *)
Definition plainStart : StartHost :=
  mkStartHost false false false false false true true true 0
    (fun a1 a2 b1 b2 a3 => (b2 - b1) / (a2 - a1) * (a3 - a1) + b1)
    (fun screen => screen) (Some 0%nat) false.

(** The same with one background property shared by all the screens. *)
Definition sharedBackgroundStart : StartHost :=
  mkStartHost false false false false false true true true 0
    (fun a1 a2 b1 b2 a3 => (b2 - b1) / (a2 - a1) * (a3 - a1) + b1)
    (fun _ => 7%nat) (Some 0%nat) false.

(** A sim before start-up: nothing laid out, a resize pending, no screen
    shown yet. *)
Definition constructedSim : Sim :=
  mkSim (mkDimension2 0 0) 1 None None 0%Z true 0
        [mkScreen None true true false false;
         mkScreen None true true false false;
         mkScreen (Some (1 # 2)) true true false false]
        0 true false 0%Z 0%Z false false false [] [] false.

(** Every event that the computation [m] of start-up logs satisfies [P]. *)
Definition logsOnlyS {A} (P : StartEvent -> bool) (m : MS A) : Prop :=
  forall w, forallb P (traceS (m w)) = true.

(** The calls on the screens and on their background properties. *)
Definition isScreenSetup (e : StartEvent) : bool :=
  match e with
  | BackgroundColorPropertyLink _ | InitializeModel _ | InitializeView _ _ _ => true
  | _ => false
  end.

(** The events of start-up other than steps of a model or of a view. *)
Definition stepsNoScreen (e : StartEvent) : bool :=
  match e with
  | SimEvent e' => negb (isModelStep e') && negb (isViewStep e')
  | _ => true
  end.

(** ** The screen buttons of the navigation bar (class NavigationBarScreenButton) *)

(** scenery/Color: the channels red, green and blue, and alpha. *)
Record Color : Type := mkColor {
  red : nat;
  green : nat;
  blue : nat;
  alpha : Q
}.

Definition Color_BLACK : Color := mkColor 0 0 0 1.
Definition Color_WHITE : Color := mkColor 255 255 255 1.

(** [color.equals( other )] compares the four components. *)
Definition Color_equals (c d : Color) : bool :=
  Nat.eqb (red c) (red d) && Nat.eqb (green c) (green d)
  && Nat.eqb (blue c) (blue d) && Qeq_bool (alpha c) (alpha d).

(** The paints that the button uses for its text and for the frame of its
    icon. *)
Inductive Paint : Type :=
| PaintBlack
| PaintGray
| PaintWhite
| PaintTransparent
| BUTTON_YELLOW
| SCREEN_ICON_FRAME.

(** [screen.showScreenIconFrameForNavigationBarFill] *)
Inductive FrameOption : Type :=
| FrameForBlack
| FrameForWhite
| FrameForNone.

(** What the listener for the interaction feedback sets. *)
Record ButtonLook : Type := mkButtonLook {
  text_fill : Paint;
  iconAndText_opacity : Q;
  brightenHighlight_visible : bool;
  darkenHighlight_visible : bool;
  iconFrame_stroke : Paint
}.

(** Is this button's screen selected? *)
Definition selectedProperty (screen : nat) (s : Sim) : bool :=
  Nat.eqb (screenProperty s) screen.

(** The listener of the multilink that manages the interaction feedback
    (lines 152-182). *)
Definition interactionFeedback (showFrame : FrameOption)
           (selected looksPressed looksOver : bool) (navigationBarFill : Color)
           (enabled : bool) : ButtonLook :=
  let useDarkenHighlights := negb (Color_equals navigationBarFill Color_BLACK) in
  (* Color match yellow with the PhET Logo *)
  let selectedTextColor := if useDarkenHighlights then PaintBlack else BUTTON_YELLOW in
  let unselectedTextColor := if useDarkenHighlights then PaintGray else PaintWhite in
  mkButtonLook
    (if selected then selectedTextColor else unselectedTextColor)
    (if selected then 1 else if looksPressed then 65 # 100 else 1 # 2)
    (negb useDarkenHighlights && enabled && (looksOver || looksPressed))
    (useDarkenHighlights && enabled && (looksOver || looksPressed))
    (* Put a frame around the screen icon, depending on the navigation bar
       background color. *)
    (match showFrame with
     | FrameForBlack =>
         if Color_equals navigationBarFill Color_BLACK then SCREEN_ICON_FRAME
         else PaintTransparent
     | FrameForWhite =>
         if Color_equals navigationBarFill Color_WHITE then PaintBlack
         else PaintTransparent
     | FrameForNone => PaintTransparent
     end).

(** [n] resize events of the window, one after the other. *)
Definition resizeListeners (h : Host) (n : nat) : M unit :=
  forEach (seq 0 n) (fun _ => resizeListener h).

(** ** The locale property (i18n/localeProperty.ts)

    Strings are sequences of code units; the locales of the sources are
    ASCII. *)

Definition FALLBACK_LOCALE : string := "en".

(** [isLocaleValid( locale )]: [locale && localeInfoModule[ locale ]];
    [localeInfo] says whether the lookup gives a truthy value, and [None]
    stands for undefined. *)
Definition isLocaleValid (localeInfo : string -> bool) (locale : option string)
  : bool :=
  match locale with
  | Some l => negb (String.eqb l EmptyString) && localeInfo l
  | None => false
  end.

(** [phet.chipper.locale.slice( 0, 2 )], for a locale that is a string. *)
Definition partialLocale (chipperLocale : option string) : option string :=
  match chipperLocale with
  | Some l => Some (substring 0 2 l)
  | None => None
  end.

(** The most valid locale (lines 34-36). *)
Definition validInitialLocale (localeInfo : string -> bool)
           (chipperLocale : option string) : string :=
  match chipperLocale with
  | Some l =>
      if isLocaleValid localeInfo chipperLocale then l
      else
        match partialLocale chipperLocale with
        | Some p => if isLocaleValid localeInfo (Some p) then p else FALLBACK_LOCALE
        | None => FALLBACK_LOCALE
        end
  | None => FALLBACK_LOCALE
  end.

(** [locales.indexOf( value )] *)
Fixpoint indexOf (locales : list string) (value : string) : Z :=
  match locales with
  | [] => -1
  | l :: locales' =>
      if String.eqb l value then 0
      else
        let i := indexOf locales' value in
        if (i =? -1)%Z then -1 else (i + 1)%Z
  end.

(** [locales[ index ]] for an integer [index]: undefined outside the array. *)
Definition localeAt (locales : list string) (index : Z) : option string :=
  if (index <? 0)%Z then None else nth_error locales (Z.to_nat index).

(** [LocaleProperty.unguardedSet( value )] (lines 42-52) on the value
    [current] of the property: the new value of the property, and the
    error if the assertion fails. *)
Definition unguardedSet (assertions : bool) (locales : list string)
           (value : option string) (current : string) : Outcome unit * string :=
  match value with
  | Some v =>
      if existsb (String.eqb v) locales then (Ret tt, v)
      else if assertions then (Throw ("Unsupported locale: " ++ v), current)
           (* Do not try to set if the value was invalid *)
           else (Ret tt, current)
  | None =>
      if assertions then (Throw "Unsupported locale: undefined", current)
      else (Ret tt, current)
  end.

(** [bump( delta )] of the keyboard locale switcher (lines 68-79); the
    remainder of JavaScript truncates towards zero, and with no locale at
    all the index is not a number.  The assignment to the property goes
    through [unguardedSet].  The calls on the event and on the console are
    not modelled. *)
Definition bump (assertions : bool) (locales : list string) (delta : Z)
           (current : string) : Outcome unit * string :=
  let index := indexOf locales current in
  let n := Z.of_nat (List.length locales) in
  let next :=
    if (n =? 0)%Z then None
    else localeAt locales (Z.rem (index + delta + n) n) in
  unguardedSet assertions locales next current.

(** The locale after the bumps [deltas], one key press each. *)
Fixpoint bumps (assertions : bool) (locales : list string) (deltas : list Z)
         (current : string) : string :=
  match deltas with
  | [] => current
  | delta :: deltas' =>
      bumps assertions locales deltas' (snd (bump assertions locales delta current))
  end.

(** ** The description of the voice pitch (preferences/VoicingPanelSection.ts) *)

(** The descriptions of the ranges of the pitch. *)
Inductive PitchDescription : Type :=
| inLowRange
| inNormalRange
| aboveNormalRange
| inHighRange.

(** dot/Range: [range.contains( value )], both ends included. *)
Definition Range_contains (range : Q * Q) (value : Q) : bool :=
  Qle_bool (fst range) value && Qle_bool value (snd range).

(** [VOICE_PITCH_DESCRIPTION_MAP], in the order of insertion (lines 89-93). *)
Definition VOICE_PITCH_DESCRIPTION_MAP : list ((Q * Q) * PitchDescription) :=
  [((1 # 2, 3 # 4), inLowRange);
   ((3 # 4, 5 # 4), inNormalRange);
   ((5 # 4, 3 # 2), aboveNormalRange);
   ((3 # 2, 2), inHighRange)].

(** [getPitchDescriptionString( pitchValue )] (lines 606-615); [None] is
    the empty string that the search starts with.  The message of the error
    ends with the value. *)
Definition getPitchDescriptionString (assertions : bool) (pitchValue : Q)
  : Outcome (option PitchDescription) :=
  let pitchDescription :=
    fold_left (fun found entry =>
                 if Range_contains (fst entry) pitchValue then Some (snd entry)
                 else found)
              VOICE_PITCH_DESCRIPTION_MAP None in
  match pitchDescription with
  | Some d => Ret (Some d)
  | None =>
      if assertions then Throw "no description found for pitch at value"
      else Ret None
  end.

(** ** Running monadic code

    Equations that execute one primitive at the head of a computation. *)

Lemma prepend_triple {A} (t t' : list Event) (o : Outcome A) (s : Sim) :
  prepend t (o, s, t') = (o, s, t ++ t').
Proof. reflexivity. Qed.

Lemma prepend_nil {A} (r : Outcome A * Sim * list Event) : prepend [] r = r.
Proof. destruct r as [[o s] t]. reflexivity. Qed.

Lemma prepend_prepend {A} (t t' : list Event) (r : Outcome A * Sim * list Event) :
  prepend t (prepend t' r) = prepend (t ++ t') r.
Proof. destruct r as [[o s] u]. unfold prepend. simpl. now rewrite app_assoc. Qed.

Lemma outcome_prepend {A} t (r : Outcome A * Sim * list Event) :
  outcome (prepend t r) = outcome r.
Proof. reflexivity. Qed.

Lemma state_of_prepend {A} t (r : Outcome A * Sim * list Event) :
  state_of (prepend t r) = state_of r.
Proof. reflexivity. Qed.

Lemma trace_of_prepend {A} t (r : Outcome A * Sim * list Event) :
  trace_of (prepend t r) = t ++ trace_of r.
Proof. reflexivity. Qed.

Lemma bind_ret {A B} (a : A) (f : A -> M B) s : bind (ret a) f s = f a s.
Proof. unfold bind, ret. destruct (f a s) as [[o s2] t2]. reflexivity. Qed.

Lemma bind_get {B} (f : Sim -> M B) s : bind get f s = f s s.
Proof. unfold bind, get. destruct (f s s) as [[o s2] t2]. reflexivity. Qed.

Lemma bind_modify {B} (g : Sim -> Sim) (f : unit -> M B) s :
  bind (modify g) f s = f tt (g s).
Proof. unfold bind, modify. destruct (f tt (g s)) as [[o s2] t2]. reflexivity. Qed.

Lemma bind_emit {B} (e : Event) (f : unit -> M B) s :
  bind (emit e) f s = prepend [e] (f tt s).
Proof. unfold bind, emit. destruct (f tt s) as [[o s2] t2]. reflexivity. Qed.

Lemma bind_throw {A B} (msg : string) (f : A -> M B) s :
  bind (throw msg) f s = (Throw msg, s, []).
Proof. reflexivity. Qed.

Lemma bind_assoc {A B C} (m : M A) (f : A -> M B) (g : B -> M C) s :
  bind (bind m f) g s = bind m (fun x => bind (f x) g) s.
Proof.
  unfold bind. destruct (m s) as [[[a|msg] s1] t1]; [|reflexivity].
  destruct (f a s1) as [[[b|msg] s2] t2]; [|reflexivity].
  destruct (g b s2) as [[o s3] t3]. now rewrite app_assoc.
Qed.

Lemma bind_run_Ret {A B} (m : M A) (f : A -> M B) s a s1 t1 :
  m s = (Ret a, s1, t1) -> bind m f s = prepend t1 (f a s1).
Proof.
  intros H. unfold bind. rewrite H. destruct (f a s1) as [[o s2] t2]. reflexivity.
Qed.

Lemma bind_run_Throw {A B} (m : M A) (f : A -> M B) s msg s1 t1 :
  m s = (Throw msg, s1, t1) -> bind m f s = (Throw msg, s1, t1).
Proof. intros H. unfold bind. now rewrite H. Qed.

Lemma bind_ext {A B} (m : M A) (f g : A -> M B) s :
  (forall a s', f a s' = g a s') -> bind m f s = bind m g s.
Proof.
  intros H. unfold bind. destruct (m s) as [[[a|msg] s1] t1]; [|reflexivity].
  now rewrite H.
Qed.

Lemma run_emit (e : Event) s : emit e s = (Ret tt, s, [e]).
Proof. reflexivity. Qed.

Lemma run_ret {A} (a : A) s : ret a s = (Ret a, s, []).
Proof. reflexivity. Qed.

Lemma bind_when_true {B} (m : M unit) (f : unit -> M B) s :
  bind (when true m) f s = bind m f s.
Proof. reflexivity. Qed.

Lemma bind_when_false {B} (m : M unit) (f : unit -> M B) s :
  bind (when false m) f s = f tt s.
Proof. unfold when. apply bind_ret. Qed.

(** A loop whose body only logs events logs them in order and returns. *)
Lemma forEach_emits {A} (xs : list A) (f : A -> M unit) (g : A -> list Event) :
  (forall x s, f x s = (Ret tt, s, g x)) ->
  forall s, forEach xs f s = (Ret tt, s, flat_map g xs).
Proof.
  intros Hf. induction xs as [|x xs IH]; intros s; simpl.
  - reflexivity.
  - unfold bind. rewrite Hf, IH. reflexivity.
Qed.

Lemma bind_forEach_emits {A B} (xs : list A) (f : A -> M unit)
      (g : A -> list Event) (k : unit -> M B) s :
  (forall x s, f x s = (Ret tt, s, g x)) ->
  bind (forEach xs f) k s = prepend (flat_map g xs) (k tt s).
Proof.
  intros Hf. unfold bind. rewrite (forEach_emits xs f g Hf).
  destruct (k tt s) as [[o s2] t2]. reflexivity.
Qed.

Create Rewrite HintDb run.
#[local] Hint Rewrite @run_emit @run_ret @bind_assoc @bind_ret @bind_get @bind_modify @bind_emit
  @bind_throw @bind_when_true @bind_when_false @prepend_prepend
  @prepend_triple : run.

Ltac run := repeat (autorewrite with run; cbv beta).

(** ** Facts about the tests on numbers *)

Lemma Qpositive_true (a : Q) : 0 < a -> Qpositive a = true.
Proof.
  intros H. unfold Qpositive. destruct (Qle_bool a 0) eqn:E; [|reflexivity].
  apply Qle_bool_iff in E. exfalso. apply (Qlt_not_le _ _ H E).
Qed.

Lemma Qpositive_false (a : Q) : a <= 0 -> Qpositive a = false.
Proof.
  intros H. unfold Qpositive. apply Qle_bool_iff in H. now rewrite H.
Qed.

Lemma Qpositive_spec (a : Q) : Qpositive a = true <-> 0 < a.
Proof.
  split; [|apply Qpositive_true].
  unfold Qpositive. intros H. apply Qnot_le_lt. intros Hle.
  apply Qle_bool_iff in Hle. rewrite Hle in H. discriminate.
Qed.

Lemma Qis_zero_true (a : Q) : a == 0 -> Qis_zero a = true.
Proof. intros H. now apply Qeq_bool_iff. Qed.

Lemma Qis_zero_false (a : Q) : ~ a == 0 -> Qis_zero a = false.
Proof.
  intros H. unfold Qis_zero. destruct (Qeq_bool a 0) eqn:E; [|reflexivity].
  apply Qeq_bool_iff in E. contradiction.
Qed.


(** ** The resize coordinator, executed *)



Lemma resizeAction_zero h s width height :
  assertions h = false ->
  Qis_zero width || Qis_zero height = true ->
  resizeAction h width height s =
  (Ret tt, set_dimensionProperty (mkDimension2 width height) s,
   [DimensionPropertySet (mkDimension2 width height)]).
Proof.
  intros Ha Hz. unfold resizeAction, assert_. rewrite Ha, Hz. reflexivity.
Qed.

Lemma resizeAction_assertion h s width height :
  assertions h = true ->
  Qpositive width && Qpositive height = false ->
  resizeAction h width height s = (Throw "sim should have a nonzero area", s, []).
Proof.
  intros Ha Hp. unfold resizeAction, assert_. rewrite Ha, Hp. reflexivity.
Qed.

Lemma resizeAction_nonzero h s width height :
  assertions h && negb (Qpositive width && Qpositive height) = false ->
  Qis_zero width || Qis_zero height = false ->
  let scale := Qmin (width / Bounds2_width LAYOUT_BOUNDS)
                    (height / Bounds2_height LAYOUT_BOUNDS) in
  let navBarHeight := scale * NAVIGATION_BAR_SIZE_height h in
  let b := contentBounds h s width height in
  resizeAction h width height s =
  (Ret tt,
   set_screenBoundsProperty (Some b)
     (set_boundsProperty (Some (mkBounds2 0 0 width height))
        (set_scaleProperty scale
           (set_dimensionProperty (mkDimension2 width height) s))),
   [DimensionPropertySet (mkDimension2 width height);
    NavigationBarLayout scale width navBarHeight;
    NavigationBarSetY (height - navBarHeight);
    DisplaySetSize (mkDimension2 width height)]
   ++ (if hasToolbar s then [ToolbarLayout scale (maxY b)] else [])
   ++ flat_map (fun m => [ScreenViewLayout m b]) (seq 0 (List.length (screens s)))
   ++ flat_map (popupLayoutEvent b) (topLayer s)
   ++ (if mobileSafari h then [WindowScrollTo] else [])
   ++ [ScalePropertySet scale;
       BoundsPropertySet (mkBounds2 0 0 width height);
       ScreenBoundsPropertySet b;
       PanZoomSetTargetScale scale;
       PanZoomSetTargetBounds (mkBounds2 0 0 width height);
       PanZoomSetPanBounds (mkBounds2 0 0 width height)]).
Proof.
  intros Ha Hz scale navBarHeight b.
  unfold resizeAction, assert_. rewrite Ha, Hz.
  fold scale. fold navBarHeight.
  run.
  change (hasToolbar (set_dimensionProperty _ s)) with (hasToolbar s).
  change (topLayer (set_dimensionProperty _ s)) with (topLayer s).
  change (screens (set_dimensionProperty _ s)) with (screens s).
  change (mkBounds2 (if hasToolbar s then _ else 0) 0 width _) with b.
  change (height - navigationBar_height h scale width navBarHeight) with (maxY b).
  assert (Hp : forall (x : Popup) (s0 : Sim),
             when (hasLayout x) (emit (PopupLayout x (Some b))) s0
             = (Ret tt, s0, popupLayoutEvent b x)).
  { intros x s0. unfold popupLayoutEvent. now destruct (hasLayout x). }
  destruct (hasToolbar s); destruct (mobileSafari h); run;
    rewrite (bind_forEach_emits _ _ (fun m => [ScreenViewLayout m b]))
      by reflexivity;
    rewrite (bind_forEach_emits _ _ (popupLayoutEvent b)) by exact Hp;
    run; simpl; rewrite <- ?app_assoc; reflexivity.
Qed.

(** A window of positive area passes the assertion and the zero test. *)
Lemma positive_area_guards h width height :
  0 < width -> 0 < height ->
  assertions h && negb (Qpositive width && Qpositive height) = false
  /\ Qis_zero width || Qis_zero height = false.
Proof.
  intros Hw Hh. rewrite (Qpositive_true _ Hw), (Qpositive_true _ Hh).
  rewrite andb_false_r. split; [reflexivity|].
  rewrite !Qis_zero_false; [reflexivity| |].
  - intros E. rewrite E in Hh. now apply Qlt_irrefl in Hh.
  - intros E. rewrite E in Hw. now apply Qlt_irrefl in Hw.
Qed.

(** ** Results on the resize coordinator *)

(** C2, as stated, fails.  With a zero width and no assertions, [resize]
    overwrites the stored dimension; with assertions it raises an error; and
    with a negative width it lays the screens out and changes the scale. *)
Lemma resize_nonpositive_is_not_a_noop :
  ~ dimWidth (dimensionProperty (state_of (resize productionHost 0 600 runningSim)))
    == dimWidth (dimensionProperty runningSim)
  /\ outcome (resize developmentHost 0 600 runningSim)
     = Throw "sim should have a nonzero area"
  /\ existsb isLayoutCall (trace_of (resize productionHost (-1024) 600 runningSim))
     = true
  /\ ~ scaleProperty (state_of (resize productionHost (-1024) 600 runningSim))
       == scaleProperty runningSim.
Proof.
  split; [|split; [|split]].
  - vm_compute. discriminate.
  - vm_compute. reflexivity.
  - vm_compute. reflexivity.
  - vm_compute. discriminate.
Qed.

(** C2, amended.  When the width or the height is zero: with assertions
    enabled the call fails its first assertion and changes nothing; without
    assertions it returns normally and is a no-op apart from the stored
    dimension: the sim differs from the one before at most in the dimension,
    so the scale, the full bounds and the content bounds keep their values,
    and the log holds nothing but the write of the dimension, so no layout
    of the navigation bar, of a screen or of a popup is performed. *)
Theorem resize_zero_area_keeps_geometry h s width height :
  width == 0 \/ height == 0 ->
  (assertions h = true ->
   resize h width height s = (Throw "sim should have a nonzero area", s, []))
  /\ (assertions h = false ->
      let r := resize h width height s in
      outcome r = Ret tt
      /\ state_of r = set_dimensionProperty (dimensionProperty (state_of r)) s
      /\ scaleProperty (state_of r) = scaleProperty s
      /\ boundsProperty (state_of r) = boundsProperty s
      /\ screenBoundsProperty (state_of r) = screenBoundsProperty s
      /\ forallb isDimensionWrite (trace_of r) = true).
Proof.
  intros Hz. split; intros Ha.
  - apply resizeAction_assertion; [exact Ha|].
    destruct Hz as [Hz|Hz].
    + rewrite (Qpositive_false width); [reflexivity|]. rewrite Hz. apply Qle_refl.
    + rewrite (Qpositive_false height); [apply andb_false_r|].
      rewrite Hz. apply Qle_refl.
  - unfold resize. rewrite resizeAction_zero; [repeat split|exact Ha|].
    destruct Hz as [Hz|Hz]; rewrite (Qis_zero_true _ Hz);
      [reflexivity|apply orb_true_r].
Qed.

(** The theorem above for a window of width zero. *)
Lemma resize_zero_area_keeps_geometry_witness :
  0 == 0 /\ scaleProperty (state_of (resize productionHost 0 600 runningSim)) = 4 # 3.
Proof.
  split; [reflexivity|].
  apply (proj2 (resize_zero_area_keeps_geometry productionHost runningSim 0 600
                  (or_introl (Qeq_refl 0))) eq_refl).
Defined.

(** Membership in a log written as a concatenation. *)
Ltac in_left :=
  match goal with |- In _ (?l ++ ?m) => apply (in_or_app l m); left end.
Ltac in_right :=
  match goal with |- In _ (?l ++ ?m) => apply (in_or_app l m); right end.
Ltac in_split H :=
  match type of H with
  | In _ (?l ++ ?m) => apply (in_app_or l m) in H; destruct H as [H|H]
  end.

Lemma in_screen_layouts (b : Bounds2) (n m : nat) :
  In (ScreenViewLayout m b) (flat_map (fun m => [ScreenViewLayout m b]) (seq 0 n))
  <-> (m < n)%nat.
Proof.
  rewrite in_flat_map. split.
  - intros [k [Hk [E|[]]]]. inversion E; subst. apply in_seq in Hk. lia.
  - intros H. exists m. split; [apply in_seq; lia|now left].
Qed.

Lemma in_popup_layouts (b : Bounds2) (p : Popup) (l : list Popup) :
  In p l -> hasLayout p = true ->
  In (PopupLayout p (Some b)) (flat_map (popupLayoutEvent b) l).
Proof.
  intros Hin Hl. apply in_flat_map. exists p. split; [exact Hin|].
  unfold popupLayoutEvent. rewrite Hl. now left.
Qed.

Lemma forallb_flat_map {A B} (p : B -> bool) (g : A -> list B) (l : list A) :
  (forall x, forallb p (g x) = true) -> forallb p (flat_map g l) = true.
Proof.
  intros H. induction l as [|x l IH]; simpl; [reflexivity|].
  now rewrite forallb_app, H, IH.
Qed.

Lemma filter_flat_map_none {A B} (p : B -> bool) (g : A -> list B) (l : list A) :
  (forall x, filter p (g x) = []) -> filter p (flat_map g l) = [].
Proof.
  intros H. induction l as [|x l IH]; simpl; [reflexivity|].
  now rewrite filter_app, H, IH.
Qed.

(** C5, as stated, fails on its last part: the layout routine of a screen
    is handed the content bounds and nothing else.  In a 1024 x 768 window
    the scale is 4/3; it goes to the navigation bar, and none of the numbers
    handed to the screens is equal to it. *)
Lemma resize_screen_layout_receives_no_scale :
  let r := resize productionHost 1024 768 runningSim in
  scaleProperty (state_of r) == 4 # 3
  /\ existsb (fun e => isScreenViewLayout e) (trace_of r) = true
  /\ existsb (fun e => isScreenViewLayout e
                       && existsb (Qeq_bool (scaleProperty (state_of r)))
                                  (layoutArguments e))
             (trace_of r) = false.
Proof.
  vm_compute. repeat split.
Qed.

(** C5, amended.  For a resize to a positive width and height: the scale
    is min(width / 768, height / 504); the navigation bar is laid out with
    that scale and with the height scale x NAVIGATION_BAR_SIZE.height (and
    the toolbar, when there is one, with the same scale); the content bounds
    start at the displayed width of the toolbar (0 without a toolbar), end
    at the width, and their height is the height minus the height of the
    navigation bar, which is scale x NAVIGATION_BAR_SIZE.height when the bar
    takes the height it was laid out with; and the layout routine of every
    screen receives these content bounds (not the scale). *)
Theorem resize_scale_and_content_bounds h s width height :
  0 < width -> 0 < height ->
  let scale := Qmin (width / 768) (height / 504) in
  let navBarHeight := scale * NAVIGATION_BAR_SIZE_height h in
  navigationBar_height h scale width navBarHeight == navBarHeight ->
  let r := resize h width height s in
  exists b,
    outcome r = Ret tt
    /\ scaleProperty (state_of r) = scale
    /\ In (NavigationBarLayout scale width navBarHeight) (trace_of r)
    /\ (hasToolbar s = true -> In (ToolbarLayout scale (maxY b)) (trace_of r))
    /\ screenBoundsProperty (state_of r) = Some b
    /\ minX b = (if hasToolbar s
                 then toolbar_getDisplayedWidth h scale (maxY b) else 0)
    /\ minY b = 0
    /\ maxX b = width
    /\ Bounds2_height b == height - navBarHeight
    /\ (forall m, (m < List.length (screens s))%nat ->
                  In (ScreenViewLayout m b) (trace_of r))
    /\ (forall m b', In (ScreenViewLayout m b') (trace_of r) -> b' = b).
Proof.
  intros Hw Hh scale navBarHeight Hnav r.
  destruct (positive_area_guards h width height Hw Hh) as [Ha Hz].
  exists (contentBounds h s width height).
  subst r. unfold resize. rewrite (resizeAction_nonzero h s width height Ha Hz).
  change (Qmin (width / Bounds2_width LAYOUT_BOUNDS)
               (height / Bounds2_height LAYOUT_BOUNDS)) with scale.
  fold navBarHeight.
  unfold outcome, state_of, trace_of. cbn [fst snd].
  repeat split.
  - in_left. right. now left.
  - intros Ht. rewrite Ht. in_right. in_left. now left.
  - unfold Bounds2_height, contentBounds; cbn [maxY minY].
    change (Qmin (width / Bounds2_width LAYOUT_BOUNDS)
                 (height / Bounds2_height LAYOUT_BOUNDS)) with scale.
    fold navBarHeight. rewrite Hnav. ring.
  - intros m Hm. in_right. in_right. in_left. now apply in_screen_layouts.
  - intros m b' Hin.
    in_split Hin.
    { repeat (destruct Hin as [Hin|Hin]; [discriminate|]). destruct Hin. }
    in_split Hin.
    { destruct (hasToolbar s); [destruct Hin as [Hin|[]]; discriminate|destruct Hin]. }
    in_split Hin.
    { apply in_flat_map in Hin. destruct Hin as [k [_ [E|[]]]]. now inversion E. }
    in_split Hin.
    { apply in_flat_map in Hin. destruct Hin as [p [_ Hp]].
      unfold popupLayoutEvent in Hp.
      destruct (hasLayout p); [destruct Hp as [Hp|[]]; discriminate|destruct Hp]. }
    in_split Hin.
    { destruct (mobileSafari h); [destruct Hin as [Hin|[]]; discriminate|destruct Hin]. }
    repeat (destruct Hin as [Hin|Hin]; [discriminate|]). destruct Hin.
Qed.

Lemma resize_scale_and_content_bounds_witness :
  exists b,
    screenBoundsProperty (state_of (resize productionHost 1024 768 runningSim)) = Some b
    /\ Bounds2_height b == 768 - Qmin (1024 / 768) (768 / 504) * 40.
Proof.
  assert (Hw : 0 < 1024) by reflexivity.
  assert (Hh : 0 < 768) by reflexivity.
  destruct (resize_scale_and_content_bounds productionHost runningSim 1024 768
              Hw Hh (Qeq_refl _)) as [b H].
  exists b. split; apply H.
Defined.

(** C6.  In a resize to a positive width and height, the log splits in two
    parts: the first contains the layout of every screen and of every child
    of the top layer that has a layout routine, and no write of the scale,
    of the full bounds or of the content bounds; the second contains these
    three writes, in this order, and no layout call. *)
Theorem resize_writes_geometry_after_layout h s width height :
  0 < width -> 0 < height ->
  let r := resize h width height s in
  let b := contentBounds h s width height in
  exists before after,
    trace_of r = before ++ after
    /\ (forall m, (m < List.length (screens s))%nat ->
                  In (ScreenViewLayout m b) before)
    /\ (forall p, In p (topLayer s) -> hasLayout p = true ->
                  In (PopupLayout p (Some b)) before)
    /\ forallb (fun e => negb (isGeometryWrite e)) before = true
    /\ forallb (fun e => negb (isLayoutCall e)) after = true
    /\ filter isGeometryWrite after
       = [ScalePropertySet (scaleProperty (state_of r));
          BoundsPropertySet (mkBounds2 0 0 width height);
          ScreenBoundsPropertySet b]
    /\ boundsProperty (state_of r) = Some (mkBounds2 0 0 width height)
    /\ screenBoundsProperty (state_of r) = Some b.
Proof.
  intros Hw Hh r b.
  destruct (positive_area_guards h width height Hw Hh) as [Ha Hz].
  subst r. unfold resize. rewrite (resizeAction_nonzero h s width height Ha Hz).
  fold b. unfold state_of, trace_of. cbn [fst snd].
  set (scale := Qmin (width / Bounds2_width LAYOUT_BOUNDS)
                     (height / Bounds2_height LAYOUT_BOUNDS)).
  exists ([DimensionPropertySet (mkDimension2 width height);
           NavigationBarLayout scale width (scale * NAVIGATION_BAR_SIZE_height h);
           NavigationBarSetY (height - scale * NAVIGATION_BAR_SIZE_height h);
           DisplaySetSize (mkDimension2 width height)]
          ++ (if hasToolbar s then [ToolbarLayout scale (maxY b)] else [])
          ++ flat_map (fun m => [ScreenViewLayout m b]) (seq 0 (List.length (screens s)))
          ++ flat_map (popupLayoutEvent b) (topLayer s)
          ++ (if mobileSafari h then [WindowScrollTo] else [])).
  exists [ScalePropertySet scale;
          BoundsPropertySet (mkBounds2 0 0 width height);
          ScreenBoundsPropertySet b;
          PanZoomSetTargetScale scale;
          PanZoomSetTargetBounds (mkBounds2 0 0 width height);
          PanZoomSetPanBounds (mkBounds2 0 0 width height)].
  split; [now rewrite <- !app_assoc|].
  split.
  { intros m Hm. in_right. in_right. in_left. now apply in_screen_layouts. }
  split.
  { intros p Hp Hl. in_right. in_right. in_right. in_left.
    now apply in_popup_layouts. }
  split.
  { rewrite !forallb_app.
    apply andb_true_intro; split; [reflexivity|].
    apply andb_true_intro; split; [now destruct (hasToolbar s)|].
    apply andb_true_intro; split; [now apply forallb_flat_map|].
    apply andb_true_intro; split; [|now destruct (mobileSafari h)].
    apply forallb_flat_map. intros p. unfold popupLayoutEvent.
    now destruct (hasLayout p). }
  repeat split.
Qed.

Lemma resize_writes_geometry_after_layout_witness :
  exists before after,
    trace_of (resize productionHost 1024 768 runningSim) = before ++ after
    /\ forallb (fun e => negb (isGeometryWrite e)) before = true
    /\ forallb (fun e => negb (isLayoutCall e)) after = true.
Proof.
  assert (Hw : 0 < 1024) by reflexivity.
  assert (Hh : 0 < 768) by reflexivity.
  destruct (resize_writes_geometry_after_layout productionHost runningSim
              1024 768 Hw Hh) as [before [after H]].
  exists before, after. repeat split; apply H.
Defined.

(** ** The frame scheduler, executed *)

Lemma bind_when_emit {B} (c : bool) (e : Event) (k : unit -> M B) s :
  bind (when c (emit e)) k s = prepend (if c then [e] else []) (k tt s).
Proof.
  destruct c; run; [reflexivity|]. now rewrite prepend_nil.
Qed.

Lemma run_when_emit (c : bool) (e : Event) s :
  when c (emit e) s = (Ret tt, s, if c then [e] else []).
Proof. now destruct c. Qed.

#[local] Hint Rewrite @bind_when_emit @run_when_emit : run.

(** [resizeToWindow] in a window of positive area returns, clears the
    pending flag, stores the size of the window, leaves the clock and the
    screens alone and steps nothing. *)
Lemma resizeToWindow_run h s :
  0 < innerWidth h -> 0 < innerHeight h ->
  exists s' t,
    resizeToWindow h s = (Ret tt, s', t)
    /\ resizePending s' = false
    /\ dimensionProperty s' = mkDimension2 (innerWidth h) (innerHeight h)
    /\ frameCounter s' = frameCounter s
    /\ elapsedTime s' = elapsedTime s
    /\ screens s' = screens s
    /\ screenProperty s' = screenProperty s
    /\ hasVibrationManager s' = hasVibrationManager s
    /\ filter isModelStep t = []
    /\ filter isViewStep t = [].
Proof.
  intros Hw Hh.
  destruct (positive_area_guards h _ _ Hw Hh) as [Ha Hz].
  unfold resizeToWindow, resize. run.
  rewrite (resizeAction_nonzero h _ _ _ Ha Hz).
  do 2 eexists. split; [reflexivity|].
  repeat (split; [reflexivity|]).
  cbn [hasToolbar topLayer screens set_resizePending].
  split; rewrite !filter_app;
    rewrite !filter_flat_map_none;
    try (now destruct (hasToolbar s); destruct (mobileSafari h));
    intros p; unfold popupLayoutEvent; now destruct (hasLayout p).
Qed.

Lemma currentScreen_run {B} (k : Screen -> M B) s scr :
  nth_error (screens s) (screenProperty s) = Some scr ->
  bind currentScreen k s = k scr s.
Proof.
  intros H. unfold currentScreen. run. rewrite H. now run.
Qed.

(** One call of [stepSimulationAction] with a valid selection, in a window
    of positive area.  The log is the frame-started notification, then the
    log [t] of the pending resize, if any, then the events of the step. *)
Lemma stepSimulationAction_run h s scr dt :
  nth_error (screens s) (screenProperty s) = Some scr ->
  0 < innerWidth h -> 0 < innerHeight h ->
  let eff := effectiveDT h scr dt in
  let t := if resizePending s
           then trace_of (resizeToWindow h (set_frameCounter (frameCounter s + 1) s))
           else [] in
  exists s',
    stepSimulationAction h dt s
    = (Ret tt, s',
       FrameStartedEmit :: t
       ++ stepEvents h (hasVibrationManager s) (screenProperty s) scr eff
            (elapsedTime s + eff * 1000))
    /\ resizePending s' = false
    /\ dimensionProperty s'
       = (if resizePending s
          then mkDimension2 (innerWidth h) (innerHeight h)
          else dimensionProperty s)
    /\ frameCounter s' = (frameCounter s + 1)%Z
    /\ elapsedTime s' = elapsedTime s + eff * 1000
    /\ screens s' = screens s
    /\ screenProperty s' = screenProperty s
    /\ hasVibrationManager s' = hasVibrationManager s
    /\ filter isModelStep t = []
    /\ filter isViewStep t = [].
Proof.
  intros Hscr Hw Hh eff t.
  unfold stepSimulationAction. run.
  change (resizePending (set_frameCounter _ s)) with (resizePending s).
  set (s0 := set_frameCounter (frameCounter s + 1) s) in *.
  assert (Htail : forall s1 t1,
             frameCounter s1 = frameCounter s0 ->
             elapsedTime s1 = elapsedTime s ->
             screens s1 = screens s ->
             screenProperty s1 = screenProperty s ->
             hasVibrationManager s1 = hasVibrationManager s ->
             resizePending s1 = false ->
             exists s',
               prepend [FrameStartedEmit]
                 (prepend t1
                    ((screen <- currentScreen ;;
                      s2 <- get ;;
                      modify (fun s3 => set_elapsedTime
                                (elapsedTime s3 + capDT screen (dt * speed h) * 1000) s3) ;;
                      emit (StepTimerEmit (capDT screen (dt * speed h))) ;;
                      when (modelHasStep screen && truthy (capDT screen (dt * speed h)))
                           (emit (ModelStep (screenProperty s2) (capDT screen (dt * speed h)))) ;;
                      s' <- get ;;
                      when (hasTWEEN h) (emit (TweenUpdate (elapsedTime s'))) ;;
                      when (supportsPanAndZoom h) (emit (PanZoomStep (capDT screen (dt * speed h)))) ;;
                      when (hasVibrationManager s')
                           (emit (VibrationManagerStep (capDT screen (dt * speed h)))) ;;
                      when (viewHasStep screen)
                           (emit (ViewStep (screenProperty s2) (capDT screen (dt * speed h)))) ;;
                      when (negb (PHET_IO_ENABLED h && negb (isReadyForDisplay h)))
                           (emit UpdateDisplay) ;;
                      when (memoryLimit h) (emit MemoryMonitorMeasure) ;;
                      emit FrameEndedEmit) s1))
               = (Ret tt, s',
                  FrameStartedEmit :: t1
                  ++ stepEvents h (hasVibrationManager s) (screenProperty s) scr eff
                       (elapsedTime s + eff * 1000))
               /\ resizePending s' = false
               /\ dimensionProperty s' = dimensionProperty s1
               /\ frameCounter s' = (frameCounter s + 1)%Z
               /\ elapsedTime s' = elapsedTime s + eff * 1000
               /\ screens s' = screens s
               /\ screenProperty s' = screenProperty s
               /\ hasVibrationManager s' = hasVibrationManager s).
  { intros s1 t1 Hf He Hs Hp Hv Hr.
    rewrite (currentScreen_run _ s1 scr) by (now rewrite Hs, Hp).
    run.
    cbn [elapsedTime hasVibrationManager set_elapsedTime].
    rewrite He, Hp, Hv. fold (effectiveDT h scr dt). fold eff.
    exists (set_elapsedTime (elapsedTime s + eff * 1000) s1).
    split.
    { unfold prepend, outcome, state_of, trace_of, stepEvents. cbn [fst snd].
      rewrite <- !app_assoc. reflexivity. }
    cbn. rewrite Hf, Hs, Hp, Hv, Hr. now repeat split. }
  subst t. destruct (resizePending s) eqn:Hpend.
  - destruct (resizeToWindow_run h s0 Hw Hh)
      as [s1 [t1 [Hrun [Hr [Hd [Hf [He [Hs [Hp [Hv [Hm1 Hv1]]]]]]]]]]].
    rewrite bind_when_true, (bind_run_Ret _ _ _ _ _ _ Hrun).
    rewrite Hrun. unfold trace_of at 1 2 3. cbn [snd].
    destruct (Htail s1 t1 Hf He Hs Hp Hv Hr) as [s' H].
    exists s'. rewrite <- Hd. intuition.
  - rewrite bind_when_false, <- (prepend_nil (bind currentScreen _ s0)).
    destruct (Htail s0 [] eq_refl eq_refl eq_refl eq_refl eq_refl Hpend) as [s' H].
    exists s'. intuition.
Qed.





(** ** Results on [stepSimulation] *)

(** The code itself steps a view with a step of zero. *)
Example updateViews_steps_view_by_zero :
  filter isViewStep (trace_of (updateViews productionHost runningSim))
  = [ViewStep 0 0].
Proof. reflexivity. Qed.





(** ** Components of the sim that a computation leaves alone *)

Section Keeps.
Context {X : Type} (f : Sim -> X).

Lemma keeps_ret {A} (a : A) : keeps f (ret a).
Proof. intros s. reflexivity. Qed.

Lemma keeps_get : keeps f get.
Proof. intros s. reflexivity. Qed.

Lemma keeps_emit (e : Event) : keeps f (emit e).
Proof. intros s. reflexivity. Qed.

Lemma keeps_throw {A} (msg : string) : keeps f (@throw A msg).
Proof. intros s. reflexivity. Qed.

Lemma keeps_modify (g : Sim -> Sim) :
  (forall s, f (g s) = f s) -> keeps f (modify g).
Proof. intros H s. apply H. Qed.

Lemma keeps_bind {A B} (m : M A) (k : A -> M B) :
  keeps f m -> (forall a, keeps f (k a)) -> keeps f (bind m k).
Proof.
  intros Hm Hk s. unfold bind. specialize (Hm s).
  destruct (m s) as [[[a|msg] s1] t1]; [|exact Hm].
  specialize (Hk a s1). destruct (k a s1) as [[o s2] t2].
  unfold state_of in *. cbn [fst snd] in *. congruence.
Qed.

Lemma keeps_when (c : bool) (m : M unit) : keeps f m -> keeps f (when c m).
Proof. intros H. destruct c; [exact H|apply keeps_ret]. Qed.

Lemma keeps_forEach {A} (xs : list A) (k : A -> M unit) :
  (forall x, keeps f (k x)) -> keeps f (forEach xs k).
Proof.
  intros H. induction xs as [|x xs IH]; [apply keeps_ret|].
  cbn [forEach]. apply keeps_bind; [apply H|intros _; exact IH].
Qed.
End Keeps.

(** Breaks a computation down to its primitives. *)
Ltac keeps_tac :=
  repeat first
    [ apply keeps_ret | apply keeps_get | apply keeps_emit | apply keeps_throw
    | apply keeps_modify; intros; reflexivity
    | apply keeps_when
    | apply keeps_forEach; intros
    | apply keeps_bind; [|intros]
    | match goal with
      | |- keeps _ (if ?c then _ else _) => destruct c
      | |- keeps _ (match ?x with Some _ => _ | None => _ end) => destruct x
      end ].

(** ** Events that a computation does not log *)

Section LogsOnly.
Context (P : Event -> bool).

Lemma logsOnly_ret {A} (a : A) : logsOnly P (ret a).
Proof. intros s. reflexivity. Qed.

Lemma logsOnly_get : logsOnly P get.
Proof. intros s. reflexivity. Qed.

Lemma logsOnly_modify (g : Sim -> Sim) : logsOnly P (modify g).
Proof. intros s. reflexivity. Qed.

Lemma logsOnly_throw {A} (msg : string) : logsOnly P (@throw A msg).
Proof. intros s. reflexivity. Qed.

Lemma logsOnly_emit (e : Event) : P e = true -> logsOnly P (emit e).
Proof. intros H s. cbn. now rewrite H. Qed.

Lemma logsOnly_bind {A B} (m : M A) (k : A -> M B) :
  logsOnly P m -> (forall a, logsOnly P (k a)) -> logsOnly P (bind m k).
Proof.
  intros Hm Hk s. unfold bind. specialize (Hm s).
  destruct (m s) as [[[a|msg] s1] t1]; [|exact Hm].
  specialize (Hk a s1). destruct (k a s1) as [[o s2] t2].
  unfold trace_of in *. cbn [fst snd] in *. now rewrite forallb_app, Hm, Hk.
Qed.

Lemma logsOnly_when (c : bool) (m : M unit) :
  logsOnly P m -> logsOnly P (when c m).
Proof. intros H. destruct c; [exact H|apply logsOnly_ret]. Qed.

Lemma logsOnly_forEach {A} (xs : list A) (k : A -> M unit) :
  (forall x, logsOnly P (k x)) -> logsOnly P (forEach xs k).
Proof.
  intros H. induction xs as [|x xs IH]; [apply logsOnly_ret|].
  cbn [forEach]. apply logsOnly_bind; [apply H|intros _; exact IH].
Qed.
End LogsOnly.

Ltac logs_tac :=
  repeat first
    [ apply logsOnly_ret | apply logsOnly_get | apply logsOnly_modify
    | apply logsOnly_throw
    | apply logsOnly_emit; reflexivity
    | apply logsOnly_when
    | apply logsOnly_forEach; intros
    | apply logsOnly_bind; [|intros]
    | match goal with
      | |- logsOnly _ (if ?c then _ else _) => destruct c
      | |- logsOnly _ (match ?x with Some _ => _ | None => _ end) => destruct x
      end ].

(** A step of the simulation, a pending resize included, leaves the
    recorded step time alone. *)
Lemma stepSimulation_keeps_lastStepTime h dt :
  keeps lastStepTime (stepSimulation h dt).
Proof.
  unfold stepSimulation, stepSimulationAction, resizeToWindow, resize,
    resizeAction, currentScreen, assert_.
  keeps_tac.
Qed.

(** ** Results on the animation loop *)

Lemma getDT_first (currentTime : Z) : getDT (-1) currentTime = 1 # 60.
Proof. reflexivity. Qed.

Lemma getDT_later (lastTime currentTime : Z) :
  lastTime <> (-1)%Z ->
  getDT lastTime currentTime = inject_Z (currentTime - lastTime) / 1000.
Proof.
  intros H. unfold getDT. destruct (Z.eqb_spec lastTime (-1)); [contradiction|reflexivity].
Qed.

(** The shape of a tick of a sim that is neither destroyed nor paused,
    outside playback mode. *)
Lemma runAnimationLoop_run h s stepTime currentTime :
  destroyed s = false ->
  activeProperty s = true ->
  playbackModeEnabled h = false ->
  let dt := getDT (lastStepTime s) stepTime in
  runAnimationLoop h stepTime currentTime s
  = prepend
      (RequestAnimationFrame
       :: (if (0 <? frameCounter s)%Z then [FuzzInputEvents] else []))
      ((when (Qpositive dt) (stepSimulation h dt) ;;
        s' <- get ;;
        emit (AnimationFrameTimerEmit
                (getDT (lastAnimationFrameTime s') currentTime)) ;;
        modify (set_lastAnimationFrameTime currentTime) ;;
        when (PHET_IO_ENABLED h) (emit PhetioOnAnimationLoop))
         (set_lastStepTime stepTime s)).
Proof.
  intros Hd Ha Hp dt. unfold runAnimationLoop. run. rewrite Hd, Ha, Hp.
  cbn [negb andb]. rewrite bind_when_true. unfold stepOneFrame. run.
  reflexivity.
Qed.

(** Whether a tick requests the next animation frame depends on the sim
    being destroyed or not, and on nothing else: the tick of a destroyed
    sim requests none. *)
Lemma destroyed_sim_requests_no_frame h s stepTime currentTime :
  destroyed s = true ->
  forallb isNotFrameRequest (trace_of (runAnimationLoop h stepTime currentTime s))
  = true.
Proof.
  intros Hd. unfold runAnimationLoop. rewrite bind_get, Hd. cbn [negb].
  rewrite bind_when_false.
  revert s Hd. intros s _.
  generalize (activeProperty s && negb (playbackModeEnabled h)).
  generalize (0 <? frameCounter s)%Z. intros c1 c2. revert s.
  change (logsOnly isNotFrameRequest
            (when c2 (when c1 (emit FuzzInputEvents) ;; stepOneFrame h stepTime) ;;
             s0 <- get ;;
             emit (AnimationFrameTimerEmit
                     (getDT (lastAnimationFrameTime s0) currentTime)) ;;
             modify (set_lastAnimationFrameTime currentTime) ;;
             when (PHET_IO_ENABLED h) (emit PhetioOnAnimationLoop))).
  unfold stepOneFrame, stepSimulation, stepSimulationAction, resizeToWindow,
    resize, resizeAction, currentScreen, assert_.
  logs_tac.
Qed.

(** A tick that runs [stepOneFrame] records the clock as the step time,
    whatever the step does. *)
Lemma runAnimationLoop_records_step_time h s stepTime currentTime :
  destroyed s = false ->
  activeProperty s = true ->
  playbackModeEnabled h = false ->
  lastStepTime (state_of (runAnimationLoop h stepTime currentTime s)) = stepTime.
Proof.
  intros Hd Ha Hp.
  rewrite (runAnimationLoop_run h s stepTime currentTime Hd Ha Hp).
  rewrite state_of_prepend.
  match goal with
  | |- lastStepTime (state_of (?m ?s0)) = _ =>
      assert (Hk : keeps lastStepTime m)
  end.
  { pose proof (stepSimulation_keeps_lastStepTime h
                  (getDT (lastStepTime s) stepTime)).
    keeps_tac; assumption. }
  now rewrite Hk.
Qed.

(** Hence the fallback 1/60 is used on the first tick only, as long as the
    clock does not read -1: the tick that follows a tick at the clock
    reading [t1] measures its elapsed time from [t1]. *)
Lemma next_tick_elapsed_time h s t1 c1 t2 :
  destroyed s = false ->
  activeProperty s = true ->
  playbackModeEnabled h = false ->
  t1 <> (-1)%Z ->
  getDT (lastStepTime (state_of (runAnimationLoop h t1 c1 s))) t2
  = inject_Z (t2 - t1) / 1000.
Proof.
  intros Hd Ha Hp Ht.
  rewrite (runAnimationLoop_records_step_time h s t1 c1 Hd Ha Hp).
  now apply getDT_later.
Qed.

Example destroyed_sim_tick :
  existsb (fun e => negb (isNotFrameRequest e))
          (trace_of (runAnimationLoop productionHost 1000 1000 destroyedSim))
  = false.
Proof. reflexivity. Qed.

(** C3.  Take a tick of the animation loop of a sim that is neither
    destroyed nor paused, outside playback mode.  The elapsed time [dt] of
    the tick is 1/60 when no step time has been recorded (the first tick)
    and otherwise the difference between the clock and the recorded step
    time, divided by 1000; the tick records the clock as the new step time.
    When [dt > 0] the tick requests the next animation frame and then runs
    [stepSimulation( dt )].  When [dt <= 0] the tick returns having
    requested the next animation frame, and steps neither a model nor a
    view; the frame counter and the elapsed time stay as they were. *)
Theorem animation_tick_elapsed_time h s stepTime currentTime :
  destroyed s = false ->
  activeProperty s = true ->
  playbackModeEnabled h = false ->
  let dt := getDT (lastStepTime s) stepTime in
  let r := runAnimationLoop h stepTime currentTime s in
  (lastStepTime s = (-1)%Z -> dt = 1 # 60)
  /\ (lastStepTime s <> (-1)%Z ->
      dt = inject_Z (stepTime - lastStepTime s) / 1000)
  /\ lastStepTime (state_of r) = stepTime
  /\ (0 < dt ->
      exists rest,
        trace_of r
        = RequestAnimationFrame
          :: (if (0 <? frameCounter s)%Z then [FuzzInputEvents] else [])
          ++ trace_of (stepSimulation h dt (set_lastStepTime stepTime s))
          ++ rest)
  /\ (dt <= 0 ->
      outcome r = Ret tt
      /\ In RequestAnimationFrame (trace_of r)
      /\ filter isModelStep (trace_of r) = []
      /\ filter isViewStep (trace_of r) = []
      /\ frameCounter (state_of r) = frameCounter s
      /\ elapsedTime (state_of r) = elapsedTime s).
Proof.
  intros Hd Ha Hp dt r.
  split; [intros E; subst dt; rewrite E; apply getDT_first|].
  split; [intros E; subst dt; now apply getDT_later|].
  pose proof (runAnimationLoop_run h s stepTime currentTime Hd Ha Hp) as Hrun.
  cbv zeta in Hrun. fold dt in Hrun. fold r in Hrun.
  split.
  { now apply runAnimationLoop_records_step_time. }
  split.
  - intros Hpos. rewrite Hrun, (Qpositive_true _ Hpos), bind_when_true.
    destruct (stepSimulation h dt (set_lastStepTime stepTime s))
      as [[[[]|msg] s2] t2] eqn:Hstep.
    + rewrite (bind_run_Ret _ _ _ _ _ _ Hstep). run.
      eexists. unfold prepend, trace_of. cbn [snd fst trace_of].
      rewrite <- !app_assoc. reflexivity.
    + rewrite (bind_run_Throw _ _ _ _ _ _ Hstep).
      exists []. unfold prepend, trace_of. cbn [snd fst].
      now rewrite app_nil_r.
  - intros Hle. rewrite Hrun, (Qpositive_false _ Hle), bind_when_false. run.
    unfold prepend, outcome, state_of, trace_of. cbn [fst snd].
    split; [reflexivity|]. split; [now left|].
    destruct (0 <? frameCounter s)%Z, (PHET_IO_ENABLED h); now repeat split.
Qed.

(** The theorem above on the first tick, on a later tick and on a tick
    whose clock has not advanced. *)
Lemma animation_tick_elapsed_time_witness :
  getDT (lastStepTime runningSim) 5000 = 1 # 60
  /\ getDT (lastStepTime tickingSim) 1016 = inject_Z (1016 - 1000) / 1000
  /\ filter isViewStep (trace_of (runAnimationLoop productionHost 1000 1000 tickingSim))
     = [].
Proof.
  split; [|split].
  - apply (animation_tick_elapsed_time productionHost runningSim 5000 5000
             eq_refl eq_refl eq_refl). reflexivity.
  - apply (animation_tick_elapsed_time productionHost tickingSim 1016 1016
             eq_refl eq_refl eq_refl). discriminate.
  - apply (animation_tick_elapsed_time productionHost tickingSim 1000 1000
             eq_refl eq_refl eq_refl). vm_compute. discriminate.
Defined.

(** ** Results on resize requests from the window *)

(** C4, as stated, fails.  In playback mode the window is resized to
    800 x 600 and the listener runs: the pending flag stays false, and the
    next externally driven step performs no resize, so that the sim keeps
    the dimension 1024 x 768. *)
Lemma playback_resize_request_is_dropped :
  let s1 := state_of (resizeListener playbackHost runningSim) in
  let r := stepSimulation playbackHost (1 # 60) s1 in
  resizePending s1 = false
  /\ outcome r = Ret tt
  /\ existsb isDimensionWrite (trace_of r) = false
  /\ existsb isLayoutCall (trace_of r) = false
  /\ dimensionProperty (state_of r) = mkDimension2 1024 768.
Proof.
  vm_compute. repeat split.
Qed.

(** C4, amended.  In playback mode a resize request from the window is
    ignored: the listener changes nothing, the pending flag included.
    Outside playback mode the listener sets the pending flag and does
    nothing else.  A pending resize is applied by the next call of
    [stepSimulation], after the frame-started notification and the
    increment of the frame counter and before the timer, the model and the
    view are stepped; the call clears the flag and stores the size of the
    window. *)
Theorem resize_request_is_applied_by_next_step h s :
  (playbackModeEnabled h = true -> resizeListener h s = (Ret tt, s, []))
  /\ (playbackModeEnabled h = false ->
      resizeListener h s = (Ret tt, set_resizePending true s, []))
  /\ (forall dt scr,
        resizePending s = true ->
        nth_error (screens s) (screenProperty s) = Some scr ->
        0 < innerWidth h -> 0 < innerHeight h ->
        let r := stepSimulation h dt s in
        let eff := effectiveDT h scr dt in
        outcome r = Ret tt
        /\ trace_of r
           = FrameStartedEmit
             :: trace_of (resizeToWindow h (set_frameCounter (frameCounter s + 1) s))
             ++ stepEvents h (hasVibrationManager s) (screenProperty s) scr eff
                  (elapsedTime s + eff * 1000)
        /\ resizePending (state_of r) = false
        /\ dimensionProperty (state_of r)
           = mkDimension2 (innerWidth h) (innerHeight h)).
Proof.
  split; [|split].
  - intros Hp. unfold resizeListener. now rewrite Hp.
  - intros Hp. unfold resizeListener. now rewrite Hp.
  - intros dt scr Hpend Hscr Hw Hh r eff.
    destruct (stepSimulationAction_run h s scr dt Hscr Hw Hh)
      as [s' [Hrun [Hr [Hd _]]]].
    subst r. unfold stepSimulation. rewrite Hrun.
    rewrite Hpend in *. now repeat split.
Qed.

Lemma resize_request_is_applied_by_next_step_witness :
  let s1 := state_of (resizeListener resizedHost runningSim) in
  resizePending s1 = true
  /\ dimensionProperty (state_of (stepSimulation resizedHost (1 # 60) s1))
     = mkDimension2 800 600.
Proof.
  destruct (resize_request_is_applied_by_next_step resizedHost runningSim)
    as [_ [Hset Happly]].
  rewrite (Hset eq_refl). split; [reflexivity|].
  apply (resize_request_is_applied_by_next_step resizedHost
           (set_resizePending true runningSim))
    with (scr := mkScreen None true true true true); reflexivity.
Defined.

(** ** Screen switching, executed *)

Lemma update_nth_app {A} (f : A -> A) (pre : list A) (x : A) (l : list A) :
  update_nth (List.length pre) f (pre ++ x :: l) = pre ++ f x :: l.
Proof.
  induction pre as [|y pre IH]; [reflexivity|]. cbn. now rewrite IH.
Qed.

Lemma nth_error_middle {A} (pre : list A) (x : A) (l : list A) :
  nth_error (pre ++ x :: l) (List.length pre) = Some x.
Proof.
  induction pre as [|y pre IH]; [reflexivity|exact IH].
Qed.

Lemma set_screens_twice (a b : list Screen) (s : Sim) :
  set_screens a (set_screens b s) = set_screens a s.
Proof. reflexivity. Qed.

(** The body of the loop of the listener, on the screen that follows [pre]. *)
Lemma screenListener_body selected pre scr l s :
  screens s = pre ++ scr :: l ->
  let i := List.length pre in
  let visible := Nat.eqb i selected in
  showOrHideScreen selected i s
  = (Ret tt,
     set_screens (pre ++ mkScreen (maxDT scr) (modelHasStep scr) (viewHasStep scr)
                           visible visible :: l) s,
     screenEvents selected i).
Proof.
  intros Hs i visible. unfold screenEvents, showOrHideScreen. fold visible.
  unfold screen_activeProperty_set, screen_view_setVisible.
  subst i.
  destruct visible; cbn [negb when]; run; cbn [screens set_screens];
    rewrite Hs, !update_nth_app; reflexivity.
Qed.

Lemma screenListener_loop selected : forall l pre s (k : unit -> M unit),
  screens s = pre ++ l ->
  bind (forEach (seq (List.length pre) (List.length l))
          (showOrHideScreen selected)) k s
  = prepend (flat_map (screenEvents selected) (seq (List.length pre) (List.length l)))
      (k tt (set_screens (pre ++ showScreens selected (List.length pre) l) s)).
Proof.
  induction l as [|scr l IH]; intros pre s k Hs.
  - cbn [List.length seq forEach flat_map showScreens]. run.
    rewrite prepend_nil, <- Hs. now destruct s.
  - cbn [List.length seq forEach flat_map showScreens].
    rewrite bind_assoc.
    rewrite (bind_run_Ret _ _ _ _ _ _ (screenListener_body selected pre scr l s Hs)).
    set (scr' := mkScreen _ _ _ _ _).
    assert (Hlen : S (List.length pre) = List.length (pre ++ [scr']))
      by (rewrite length_app; cbn; lia).
    rewrite Hlen.
    rewrite (IH (pre ++ [scr']) (set_screens (pre ++ scr' :: l) s) k)
      by (cbn [screens set_screens]; now rewrite <- app_assoc).
    rewrite prepend_prepend, set_screens_twice, <- Hlen, <- app_assoc.
    reflexivity.
Qed.

(** The listener of [finishInit], on a change to the screen [selected]. *)
Lemma screenListener_run selected s :
  screenListener selected s
  = (Ret tt,
     set_screens (showScreens selected 0 (screens s)) s,
     flat_map (screenEvents selected) (seq 0 (List.length (screens s)))
     ++ UpdateBackground
     :: (if isSettingPhetioStateProperty s then [] else [PanZoomResetTransform])).
Proof.
  unfold screenListener, updateBackground. rewrite bind_get.
  rewrite (screenListener_loop selected (screens s) [] s) by reflexivity.
  run. cbn [isSettingPhetioStateProperty set_screens app].
  now destruct (isSettingPhetioStateProperty s).
Qed.

(** A change of the selected screen. *)
Lemma screenProperty_set_run newScreen s :
  newScreen <> screenProperty s ->
  screenProperty_set newScreen s
  = (Ret tt,
     set_screens (showScreens newScreen 0 (screens s))
       (set_screenProperty newScreen s),
     [UpdateBackground; ScreenViewInterruptSubtreeInput (screenProperty s)]
     ++ flat_map (screenEvents newScreen) (seq 0 (List.length (screens s)))
     ++ UpdateBackground
     :: (if isSettingPhetioStateProperty s then [] else [PanZoomResetTransform])).
Proof.
  intros Hne. unfold screenProperty_set, updateBackground. run.
  destruct (Nat.eqb_spec newScreen (screenProperty s)); [contradiction|].
  run. rewrite screenListener_run. reflexivity.
Qed.

(** An assignment of the screen that is already selected. *)
Lemma screenProperty_set_same s :
  screenProperty_set (screenProperty s) s = (Ret tt, s, []).
Proof.
  unfold screenProperty_set. run. now rewrite Nat.eqb_refl.
Qed.

Lemma showScreens_length selected : forall l i,
  List.length (showScreens selected i l) = List.length l.
Proof.
  induction l as [|scr l IH]; intros i; [reflexivity|]. cbn. now rewrite IH.
Qed.

Lemma showScreens_nth selected : forall l i j scr,
  nth_error (showScreens selected i l) j = Some scr ->
  active scr = Nat.eqb (i + j) selected
  /\ viewVisible scr = Nat.eqb (i + j) selected.
Proof.
  induction l as [|x l IH]; intros i j scr H.
  - destruct j; discriminate.
  - destruct j as [|j]; cbn in H.
    + inversion H; subst. cbn. now rewrite Nat.add_0_r.
    + apply IH in H. now rewrite Nat.add_succ_r.
Qed.

Lemma showScreens_defined selected : forall l i j,
  (j < List.length l)%nat ->
  exists scr, nth_error (showScreens selected i l) j = Some scr.
Proof.
  intros l i j Hj. rewrite <- (showScreens_length selected l i) in Hj.
  apply nth_error_Some in Hj.
  destruct (nth_error (showScreens selected i l) j) as [scr|]; [now exists scr|].
  contradiction.
Qed.

(** The log of the loop of the listener changes active flags only while
    the view concerned is invisible, provided the selected screen is not
    visible while inactive beforehand. *)
Lemma loop_changes_active_while_invisible selected tail :
  (forall l, activeChangesWhileInvisible l tail = true) ->
  forall l pre,
    (forall j scr, nth_error l j = Some scr ->
                   (List.length pre + j)%nat = selected ->
                   viewVisible scr = true -> active scr = true) ->
    activeChangesWhileInvisible (pre ++ l)
      (flat_map (screenEvents selected) (seq (List.length pre) (List.length l))
       ++ tail) = true.
Proof.
  intros Htail. induction l as [|scr l IH]; intros pre Hsel.
  - cbn. apply Htail.
  - cbn [List.length seq flat_map]. rewrite <- app_assoc.
    assert (Hlen : forall x, S (List.length pre) = List.length (pre ++ [x]))
      by (intros x; rewrite length_app; cbn; lia).
    assert (Hnext : forall x j scr',
               nth_error l j = Some scr' ->
               (List.length (pre ++ [x]) + j)%nat = selected ->
               viewVisible scr' = true -> active scr' = true).
    { intros x j scr' Hj Hpos. apply (Hsel (S j) scr' Hj).
      rewrite <- Hlen in Hpos. lia. }
    unfold screenEvents at 1.
    destruct (Nat.eqb_spec (List.length pre) selected) as [E|E].
    + cbn [app activeChangesWhileInvisible].
      rewrite nth_error_middle, !update_nth_app.
      assert (Hok : Bool.eqb (active scr) true || negb (viewVisible scr) = true).
      { destruct (viewVisible scr) eqn:Hv; [|apply orb_true_r].
        rewrite (Hsel 0%nat scr eq_refl); [reflexivity|lia|exact Hv]. }
      rewrite Hok. cbn [andb].
      set (scr' := with_viewVisible true (with_active true scr)).
      replace (pre ++ scr' :: l) with ((pre ++ [scr']) ++ l)
        by (now rewrite <- app_assoc).
      rewrite (Hlen scr'). apply IH. apply Hnext.
    + cbn [app activeChangesWhileInvisible].
      rewrite !update_nth_app, nth_error_middle.
      cbn [viewVisible with_viewVisible negb]. rewrite orb_true_r. cbn [andb].
      set (scr' := with_active false (with_viewVisible false scr)).
      replace (pre ++ scr' :: l) with ((pre ++ [scr']) ++ l)
        by (now rewrite <- app_assoc).
      rewrite (Hlen scr'). apply IH. apply Hnext.
Qed.

(** The listener, run from any state in which the screen to select is not
    visible while inactive (as when [finishInit] links it), changes active
    flags only while the view concerned is invisible. *)
Lemma screenListener_changes_active_while_invisible selected s :
  (forall scr, nth_error (screens s) selected = Some scr ->
               viewVisible scr = true -> active scr = true) ->
  activeChangesWhileInvisible (screens s) (trace_of (screenListener selected s))
  = true.
Proof.
  intros H. rewrite screenListener_run. unfold trace_of. cbn [snd].
  apply (loop_changes_active_while_invisible selected _) with (pre := []).
  - intros l. now destruct (isSettingPhetioStateProperty s).
  - intros j scr Hn Hj. cbn in Hj. subst j. now apply H.
Qed.

(** ** Results on screen switching *)

(** C7, as stated, fails on the reset of the transform.  While PhET-iO is
    setting the state, a switch from the first screen to the second one
    happens and the pan/zoom transform is not reset. *)
Lemma screen_switch_without_transform_reset :
  let r := screenProperty_set 1 settingStateSim in
  screenProperty settingStateSim = 0%nat
  /\ screenProperty (state_of r) = 1%nat
  /\ existsb isInterrupt (trace_of r) = true
  /\ existsb isResetTransform (trace_of r) = false.
Proof.
  vm_compute. repeat split.
Qed.

(** C7, amended.  An assignment of the screen that is already selected
    does nothing: no listener runs, no input is interrupted.  On a change
    from the screen [x] to a different screen [y], the input of the view of
    [x] is interrupted, once, before any view is made visible; the view of
    [y] is made visible afterwards; and the pan/zoom transform is reset
    after that, unless PhET-iO is setting the state, in which case it is not
    reset. *)
Theorem screen_switch_interrupts_before_showing s y :
  let x := screenProperty s in
  let r := screenProperty_set y s in
  (y = x -> r = (Ret tt, s, []))
  /\ (y <> x ->
      outcome r = Ret tt
      /\ screenProperty (state_of r) = y
      /\ exists before after,
          trace_of r = before ++ ScreenViewInterruptSubtreeInput x :: after
          /\ existsb isShow before = false
          /\ existsb isInterrupt before = false
          /\ existsb isInterrupt after = false
          /\ ((y < List.length (screens s))%nat -> In (ViewSetVisible y true) after)
          /\ (isSettingPhetioStateProperty s = false ->
              exists middle, after = middle ++ [PanZoomResetTransform])
          /\ (isSettingPhetioStateProperty s = true ->
              existsb isResetTransform (trace_of r) = false)).
Proof.
  intros x r. split.
  - intros E. subst r. rewrite E. apply screenProperty_set_same.
  - intros Hne. subst r. rewrite (screenProperty_set_run y s Hne).
    unfold outcome, state_of, trace_of. cbn [fst snd].
    split; [reflexivity|]. split; [reflexivity|].
    exists [UpdateBackground].
    exists (flat_map (screenEvents y) (seq 0 (List.length (screens s)))
            ++ UpdateBackground
            :: (if isSettingPhetioStateProperty s then [] else [PanZoomResetTransform])).
    assert (Hflat : forall p : Event -> bool,
               (forall i, existsb p (screenEvents y i) = false) ->
               existsb p (flat_map (screenEvents y)
                            (seq 0 (List.length (screens s)))) = false).
    { intros p Hp. induction (seq 0 (List.length (screens s))) as [|i l IH];
        [reflexivity|]. cbn [flat_map]. now rewrite existsb_app, Hp, IH. }
    split; [reflexivity|]. split; [reflexivity|]. split; [reflexivity|].
    split.
    { rewrite existsb_app, Hflat.
      - now destruct (isSettingPhetioStateProperty s).
      - intros i. unfold screenEvents. now destruct (i =? y)%nat. }
    split.
    { intros Hy. in_left. apply in_flat_map. exists y.
      split; [apply in_seq; lia|].
      unfold screenEvents. rewrite Nat.eqb_refl. right. now left. }
    split.
    { intros Hset. rewrite Hset.
      exists (flat_map (screenEvents y) (seq 0 (List.length (screens s)))
              ++ [UpdateBackground]).
      now rewrite <- app_assoc. }
    { intros Hset. rewrite Hset. cbn [app existsb isResetTransform orb].
      rewrite existsb_app, Hflat; [reflexivity|].
      intros i. unfold screenEvents. now destruct (i =? y)%nat. }
Qed.

Lemma screen_switch_interrupts_before_showing_witness :
  screenProperty_set 0 runningSim = (Ret tt, runningSim, [])
  /\ screenProperty (state_of (screenProperty_set 2 runningSim)) = 2%nat.
Proof.
  split.
  - apply (screen_switch_interrupts_before_showing runningSim 0). reflexivity.
  - apply (screen_switch_interrupts_before_showing runningSim 2). discriminate.
Defined.

(** C8.  Start from a sim in which every screen is active and visible
    exactly when it is the selected one, and select the screen [y] of the
    list.  Afterwards [y] is the selected screen, it is active and visible,
    and every other screen (every content screen, when [y] is the home
    screen) is inactive and invisible.  Replaying the log on the screens
    shows that each change of an active flag happens while the view of
    that screen is invisible: the selected screen is activated and then
    shown, the others are hidden and then deactivated. *)
Theorem screen_switch_activates_only_selected s y :
  onlySelectedShown (screens s) (screenProperty s) ->
  (y < List.length (screens s))%nat ->
  let r := screenProperty_set y s in
  outcome r = Ret tt
  /\ screenProperty (state_of r) = y
  /\ List.length (screens (state_of r)) = List.length (screens s)
  /\ onlySelectedShown (screens (state_of r)) y
  /\ (exists scr, nth_error (screens (state_of r)) y = Some scr
                  /\ active scr = true /\ viewVisible scr = true)
  /\ activeChangesWhileInvisible (screens s) (trace_of r) = true
  /\ (y <> screenProperty s ->
      exists before after,
        trace_of r = before ++ flat_map (screenEvents y)
                                (seq 0 (List.length (screens s))) ++ after
        /\ screenEvents y y = [ActivePropertySet y true; ViewSetVisible y true]
        /\ forall i, i <> y ->
             screenEvents y i = [ViewSetVisible i false; ActivePropertySet i false]).
Proof.
  intros Hinv Hy r.
  destruct (Nat.eq_dec y (screenProperty s)) as [E|Hne].
  - subst r y. rewrite screenProperty_set_same.
    unfold outcome, state_of, trace_of. cbn [fst snd].
    split; [reflexivity|]. split; [reflexivity|]. split; [reflexivity|].
    split; [exact Hinv|]. split.
    { destruct (nth_error (screens s) (screenProperty s)) as [scr|] eqn:Hn.
      - exists scr. destruct (Hinv _ scr Hn) as [Ha Hv].
        rewrite Nat.eqb_refl in Ha, Hv. now repeat split.
      - apply nth_error_None in Hn. lia. }
    split; [reflexivity|]. intros H. contradiction.
  - subst r. rewrite (screenProperty_set_run y s Hne).
    unfold outcome, state_of, trace_of. cbn [fst snd screens set_screens screenProperty].
    split; [reflexivity|]. split; [reflexivity|].
    split; [apply showScreens_length|].
    split.
    { intros i scr Hn. apply (showScreens_nth y (screens s) 0 i scr Hn). }
    split.
    { destruct (showScreens_defined y (screens s) 0 y Hy) as [scr Hn].
      exists scr. destruct (showScreens_nth y _ _ _ _ Hn) as [Ha Hv].
      cbn in Ha, Hv. rewrite Nat.eqb_refl in Ha, Hv. now repeat split. }
    split.
    { cbn [app activeChangesWhileInvisible].
      apply (loop_changes_active_while_invisible y _) with (pre := []).
      - intros l. now destruct (isSettingPhetioStateProperty s).
      - intros j scr Hn Hj Hv. cbn in Hj. subst j.
        destruct (Hinv y scr Hn) as [Ha Hv']. congruence. }
    intros _.
    exists [UpdateBackground; ScreenViewInterruptSubtreeInput (screenProperty s)].
    exists (UpdateBackground
            :: (if isSettingPhetioStateProperty s then [] else [PanZoomResetTransform])).
    split; [reflexivity|]. split.
    { unfold screenEvents. now rewrite Nat.eqb_refl. }
    { intros i Hi. unfold screenEvents.
      now destruct (Nat.eqb_spec i y). }
Qed.

Lemma screen_switch_activates_only_selected_witness :
  onlySelectedShown (screens (state_of (screenProperty_set 2 runningSim))) 2
  /\ activeChangesWhileInvisible (screens runningSim)
       (trace_of (screenProperty_set 2 runningSim)) = true.
Proof.
  assert (Hinv : onlySelectedShown (screens runningSim) (screenProperty runningSim)).
  { intros i scr H. destruct i as [|[|[|i]]]; cbn in H.
    - inversion H; subst; split; reflexivity.
    - inversion H; subst; split; reflexivity.
    - inversion H; subst; split; reflexivity.
    - destruct i; discriminate. }
  assert (Hy : (2 < List.length (screens runningSim))%nat) by (cbn; lia).
  split; apply (screen_switch_activates_only_selected runningSim 2 Hinv Hy).
Defined.

(** The listener establishes the invariant used above from any state, as
    it does when [finishInit] links it. *)
Lemma screenListener_establishes selected s :
  onlySelectedShown (screens (state_of (screenListener selected s))) selected.
Proof.
  rewrite screenListener_run. unfold state_of. cbn [fst snd screens set_screens].
  intros i scr Hn. apply (showScreens_nth selected (screens s) 0 i scr Hn).
Qed.

(** ** Popups, executed *)

Lemma Popup_eqb_refl (p : Popup) : Popup_eqb p p = true.
Proof.
  unfold Popup_eqb. rewrite Nat.eqb_refl, !Bool.eqb_reflx. reflexivity.
Qed.

Lemma Popup_eqb_eq (p q : Popup) : Popup_eqb p q = true <-> p = q.
Proof.
  split; [|intros ->; apply Popup_eqb_refl].
  unfold Popup_eqb. intros H.
  apply andb_true_iff in H. destruct H as [H H3].
  apply andb_true_iff in H. destruct H as [H1 H2].
  apply Nat.eqb_eq in H1. apply Bool.eqb_prop in H2. apply Bool.eqb_prop in H3.
  destruct p, q. cbn in *. congruence.
Qed.

Lemma Popup_eqb_sym (p q : Popup) : Popup_eqb p q = Popup_eqb q p.
Proof.
  unfold Popup_eqb. rewrite Nat.eqb_sym.
  now destruct (hasHide p), (hasHide q), (hasLayout p), (hasLayout q).
Qed.

Lemma includes_app (l l' : list Popup) (p : Popup) :
  includes (l ++ l') p = includes l p || includes l' p.
Proof. apply existsb_app. Qed.

Lemma stack_after_push_nonempty (l : list Popup) (p : Popup) :
  negb (Nat.eqb (List.length (l ++ [p])) 0) = true.
Proof. rewrite length_app. cbn. now rewrite Nat.add_1_r. Qed.

Lemma showPopup_throws_without_hide h s popup isModal :
  assertions h = true -> hasHide popup = false ->
  showPopup h popup isModal s
  = (Throw "Missing popup.hide() for showPopup", s, []).
Proof.
  intros Ha Hh. unfold showPopup, assert_. rewrite Ha, Hh. reflexivity.
Qed.

Lemma showPopup_throws_when_shown h s popup isModal :
  assertions h = true -> hasHide popup = true ->
  includes (topLayer s) popup = true ->
  showPopup h popup isModal s = (Throw "popup already shown", s, []).
Proof.
  intros Ha Hh Hin. unfold showPopup, assert_. rewrite Ha, Hh. cbn [negb andb].
  run. rewrite Hin. reflexivity.
Qed.

(** [showPopup] when its assertions pass or are disabled. *)
Lemma showPopup_run h s popup isModal :
  assertions h && negb (hasHide popup) = false ->
  assertions h && includes (topLayer s) popup = false ->
  showPopup h popup isModal s
  = (Ret tt, shown popup isModal s,
     (if isModal
      then [RootNodeInterruptSubtreeInput; ModalNodeStackPush popup;
            BarrierSetVisible true]
      else [])
     ++ (if hasLayout popup
         then [PopupLayout popup (screenBoundsProperty s)] else [])
     ++ [TopLayerAddChild popup]).
Proof.
  intros H1 H2. unfold showPopup, assert_. rewrite H1. run.
  rewrite negb_involutive, H2. run.
  unfold modalNodeStack_push, barrierLengthListener, topLayer_addChild, shown.
  destruct isModal; cbn [when]; run;
    cbn [modalNodeStack set_modalNodeStack screenBoundsProperty set_barrierVisible
         topLayer];
    rewrite ?stack_after_push_nonempty;
    destruct (hasLayout popup); reflexivity.
Qed.

Lemma hidePopup_throws_not_modal h s popup isModal :
  assertions h = true -> includes (modalNodeStack s) popup = false ->
  hidePopup h popup isModal s = (Throw "Assertion failed", s, []).
Proof.
  intros Ha Hin. unfold hidePopup, assert_. run. rewrite Ha, Hin. reflexivity.
Qed.

Lemma hidePopup_throws_not_shown h s popup isModal :
  assertions h = true -> includes (modalNodeStack s) popup = true ->
  includes (topLayer s) popup = false ->
  hidePopup h popup isModal s = (Throw "popup was not shown", s, []).
Proof.
  intros Ha Hin Hin'. unfold hidePopup, assert_. run. rewrite Ha, Hin, Hin'.
  reflexivity.
Qed.

(** [hidePopup] when its assertions pass or are disabled. *)
Lemma hidePopup_run h s popup isModal :
  assertions h && negb (includes (modalNodeStack s) popup) = false ->
  assertions h && negb (includes (topLayer s) popup) = false ->
  hidePopup h popup isModal s
  = (Ret tt,
     set_topLayer (remove_first popup (topLayer s))
       (if isModal && includes (modalNodeStack s) popup
        then set_barrierVisible
               (negb (Nat.eqb (List.length (remove_first popup (modalNodeStack s))) 0))
               (set_modalNodeStack (remove_first popup (modalNodeStack s)) s)
        else s),
     (if isModal && includes (modalNodeStack s) popup
      then [ModalNodeStackRemove popup;
            BarrierSetVisible
              (negb (Nat.eqb (List.length (remove_first popup (modalNodeStack s))) 0))]
      else [])
     ++ [TopLayerRemoveChild popup]).
Proof.
  intros H1 H2. unfold hidePopup, assert_. run. rewrite H1. run. rewrite H2. run.
  unfold modalNodeStack_remove, barrierLengthListener, topLayer_removeChild.
  destruct isModal; cbn [when andb]; run;
    [destruct (includes (modalNodeStack s) popup); cbn [when]; run|];
    reflexivity.
Qed.

(** ** Results on popups *)

(** C9.  For a popup that has a [hide] method: with assertions enabled,
    [showPopup] fails with "popup already shown", changing nothing, when the
    popup is already a child of the top layer.  When it is not, the modal
    call interrupts the input of the root node, pushes the popup on the
    modal stack (which makes the barrier visible), lays the popup out
    against the current content bounds if it has a layout routine, and adds
    it to the top layer, in this order. *)
Theorem showPopup_modal_order h s popup :
  hasHide popup = true ->
  (assertions h = true -> includes (topLayer s) popup = true ->
   forall isModal,
     showPopup h popup isModal s = (Throw "popup already shown", s, []))
  /\ (includes (topLayer s) popup = false ->
      let r := showPopup h popup true s in
      outcome r = Ret tt
      /\ trace_of r
         = [RootNodeInterruptSubtreeInput; ModalNodeStackPush popup;
            BarrierSetVisible true]
           ++ (if hasLayout popup
               then [PopupLayout popup (screenBoundsProperty s)] else [])
           ++ [TopLayerAddChild popup]
      /\ modalNodeStack (state_of r) = modalNodeStack s ++ [popup]
      /\ topLayer (state_of r) = topLayer s ++ [popup]).
Proof.
  intros Hh. split.
  - intros Ha Hin isModal. now apply showPopup_throws_when_shown.
  - intros Hin r. subst r. rewrite showPopup_run.
    + repeat split.
    + rewrite Hh. apply andb_false_r.
    + rewrite Hin. apply andb_false_r.
Qed.

Lemma showPopup_modal_order_witness :
  showPopup developmentHost dialogPopup true
    (state_of (showPopup developmentHost dialogPopup true runningSim))
  = (Throw "popup already shown",
     state_of (showPopup developmentHost dialogPopup true runningSim), [])
  /\ trace_of (showPopup developmentHost dialogPopup true runningSim)
     = [RootNodeInterruptSubtreeInput; ModalNodeStackPush dialogPopup;
        BarrierSetVisible true;
        PopupLayout dialogPopup (screenBoundsProperty runningSim);
        TopLayerAddChild dialogPopup].
Proof.
  split.
  - apply (showPopup_modal_order developmentHost _ dialogPopup eq_refl);
      reflexivity.
  - apply (showPopup_modal_order developmentHost runningSim dialogPopup eq_refl).
    reflexivity.
Defined.

Lemma remove_first_empty_or_not (p : Popup) (l : list Popup) :
  negb (Nat.eqb (List.length l) 0) = true <-> l <> [].
Proof.
  destruct l; cbn; split; intros H; congruence.
Qed.

Lemma includes_remove_first_other (A B : Popup) (l : list Popup) :
  Popup_eqb B A = false -> includes (remove_first B l) A = includes l A.
Proof.
  intros HBA. induction l as [|x l IH]; [reflexivity|].
  cbn [remove_first]. destruct (Popup_eqb B x) eqn:E.
  - apply Popup_eqb_eq in E. subst x. unfold includes. cbn [existsb].
    now rewrite (Popup_eqb_sym A B), HBA.
  - unfold includes in *. cbn [existsb]. now rewrite IH.
Qed.

(** One call keeps the barrier in step with the modal stack. *)
Lemma callPopup_keeps_barrier h c s :
  barrierFollowsStack s -> barrierFollowsStack (state_of (callPopup h c s)).
Proof.
  intros Hinv. destruct c as [popup isModal|popup isModal]; cbn [callPopup].
  - destruct (assertions h && negb (hasHide popup)) eqn:H1.
    { apply andb_true_iff in H1. destruct H1 as [Ha Hh].
      apply negb_true_iff in Hh.
      now rewrite (showPopup_throws_without_hide h s popup isModal Ha Hh). }
    destruct (assertions h && includes (topLayer s) popup) eqn:H2.
    { apply andb_true_iff in H2. destruct H2 as [Ha Hin].
      rewrite Ha in H1. cbn in H1. apply negb_false_iff in H1.
      now rewrite (showPopup_throws_when_shown h s popup isModal Ha H1 Hin). }
    rewrite (showPopup_run h s popup isModal H1 H2).
    unfold state_of, shown, barrierFollowsStack. cbn [fst snd].
    destruct isModal; cbn; [|exact Hinv].
    split; [intros _|reflexivity]. now destruct (modalNodeStack s).
  - destruct (assertions h && negb (includes (modalNodeStack s) popup)) eqn:H1.
    { apply andb_true_iff in H1. destruct H1 as [Ha Hin].
      apply negb_true_iff in Hin.
      now rewrite (hidePopup_throws_not_modal h s popup isModal Ha Hin). }
    destruct (assertions h && negb (includes (topLayer s) popup)) eqn:H2.
    { apply andb_true_iff in H2. destruct H2 as [Ha Hin].
      rewrite Ha in H1. cbn in H1. apply negb_false_iff in H1.
      apply negb_true_iff in Hin.
      now rewrite (hidePopup_throws_not_shown h s popup isModal Ha H1 Hin). }
    rewrite (hidePopup_run h s popup isModal H1 H2).
    unfold state_of, barrierFollowsStack. cbn [fst snd].
    destruct (isModal && includes (modalNodeStack s) popup); cbn; [|exact Hinv].
    apply (remove_first_empty_or_not popup).
Qed.

Lemma callPopups_keep_barrier h cs : forall s,
  barrierFollowsStack s -> barrierFollowsStack (callPopups h cs s).
Proof.
  induction cs as [|c cs IH]; intros s Hinv; [exact Hinv|].
  cbn [callPopups]. apply IH. now apply callPopup_keeps_barrier.
Qed.

(** C10.  Start from a sim whose modal stack is empty and whose barrier
    is invisible, as [finishInit] leaves them.  After any sequence of calls
    of [showPopup] and [hidePopup], failed calls included, the barrier is
    visible if and only if the modal stack is not empty.  In particular, for
    two different popups A and B that have a [hide] method and are not in
    the top layer: after show(A, true), show(B, true), hide(B, true) the
    modal stack is [A] and the barrier is visible, and hide(A, true) then
    empties the stack and makes the barrier invisible; the four calls
    return. *)
Theorem barrier_visible_iff_modal_stack_nonempty h s :
  modalNodeStack s = [] -> barrierVisible s = false ->
  (forall cs, barrierFollowsStack (callPopups h cs s))
  /\ (forall A B,
        A <> B -> hasHide A = true -> hasHide B = true ->
        includes (topLayer s) A = false -> includes (topLayer s) B = false ->
        let s1 := state_of (showPopup h A true s) in
        let s2 := state_of (showPopup h B true s1) in
        let s3 := state_of (hidePopup h B true s2) in
        let s4 := state_of (hidePopup h A true s3) in
        outcome (showPopup h A true s) = Ret tt
        /\ outcome (showPopup h B true s1) = Ret tt
        /\ outcome (hidePopup h B true s2) = Ret tt
        /\ outcome (hidePopup h A true s3) = Ret tt
        /\ modalNodeStack s3 = [A] /\ barrierVisible s3 = true
        /\ modalNodeStack s4 = [] /\ barrierVisible s4 = false).
Proof.
  intros Hstack Hbar. split.
  - intros cs. apply callPopups_keep_barrier.
    unfold barrierFollowsStack. rewrite Hstack, Hbar. split; congruence.
  - intros A B Hne HhA HhB HinA HinB s1 s2 s3 s4.
    assert (HAB : Popup_eqb A B = false).
    { destruct (Popup_eqb A B) eqn:E; [|reflexivity].
      apply Popup_eqb_eq in E. contradiction. }
    assert (HBA : Popup_eqb B A = false) by (now rewrite Popup_eqb_sym).
    assert (E1 : showPopup h A true s
                 = (Ret tt, shown A true s,
                    [RootNodeInterruptSubtreeInput; ModalNodeStackPush A;
                     BarrierSetVisible true]
                    ++ (if hasLayout A
                        then [PopupLayout A (screenBoundsProperty s)] else [])
                    ++ [TopLayerAddChild A])).
    { apply showPopup_run; [rewrite HhA|rewrite HinA]; apply andb_false_r. }
    assert (Hs1 : s1 = shown A true s) by (subst s1; now rewrite E1).
    assert (E2 : showPopup h B true s1
                 = (Ret tt, shown B true s1,
                    [RootNodeInterruptSubtreeInput; ModalNodeStackPush B;
                     BarrierSetVisible true]
                    ++ (if hasLayout B
                        then [PopupLayout B (screenBoundsProperty s1)] else [])
                    ++ [TopLayerAddChild B])).
    { apply showPopup_run; [rewrite HhB; apply andb_false_r|].
      rewrite Hs1. unfold shown. cbn [topLayer set_topLayer].
      rewrite includes_app, HinB. cbn. rewrite HBA. apply andb_false_r. }
    assert (Hs2 : s2 = shown B true s1) by (subst s2; now rewrite E2).
    assert (Hst2 : modalNodeStack s2 = [A; B]).
    { rewrite Hs2, Hs1. unfold shown. cbn. now rewrite Hstack. }
    assert (Htop2 : topLayer s2 = (topLayer s ++ [A]) ++ [B]).
    { rewrite Hs2, Hs1. reflexivity. }
    assert (E3 : outcome (hidePopup h B true s2) = Ret tt
                 /\ modalNodeStack s3 = [A] /\ barrierVisible s3 = true
                 /\ topLayer s3 = remove_first B (topLayer s2)).
    { subst s3. rewrite hidePopup_run.
      - unfold outcome, state_of. cbn [fst snd]. rewrite Hst2.
        cbn. rewrite HBA, Popup_eqb_refl. cbn. now repeat split.
      - rewrite Hst2. cbn. rewrite HBA, Popup_eqb_refl. apply andb_false_r.
      - rewrite Htop2, !includes_app. cbn. rewrite Popup_eqb_refl.
        rewrite !orb_true_r. apply andb_false_r. }
    destruct E3 as [Ho3 [Hst3 [Hb3 Htop3]]].
    assert (HinA3 : includes (topLayer s3) A = true).
    { rewrite Htop3, (includes_remove_first_other A B _ HBA), Htop2.
      rewrite !includes_app. cbn. rewrite Popup_eqb_refl. cbn.
      now rewrite orb_true_r. }
    assert (E4 : outcome (hidePopup h A true s3) = Ret tt
                 /\ modalNodeStack s4 = [] /\ barrierVisible s4 = false).
    { subst s4. rewrite hidePopup_run.
      - unfold outcome, state_of. cbn [fst snd]. rewrite Hst3.
        cbn. rewrite Popup_eqb_refl. cbn. now repeat split.
      - rewrite Hst3. cbn. rewrite Popup_eqb_refl. apply andb_false_r.
      - rewrite HinA3. apply andb_false_r. }
    destruct E4 as [Ho4 [Hst4 Hb4]].
    rewrite E1. fold s1. rewrite E2.
    unfold outcome at 1 2. cbn [fst].
    now repeat split.
Qed.

Lemma barrier_visible_iff_modal_stack_nonempty_witness :
  barrierFollowsStack
    (callPopups developmentHost
       [Show menuPopup true; Show dialogPopup true; Hide dialogPopup true]
       runningSim)
  /\ barrierVisible
       (callPopups developmentHost
          [Show menuPopup true; Show dialogPopup true; Hide dialogPopup true;
           Hide menuPopup true]
          runningSim) = false.
Proof.
  destruct (barrier_visible_iff_modal_stack_nonempty developmentHost runningSim
              eq_refl eq_refl) as [Hall Hscenario].
  split; [apply Hall|].
  assert (Hne : menuPopup <> dialogPopup) by discriminate.
  apply (Hscenario menuPopup dialogPopup Hne eq_refl eq_refl eq_refl eq_refl).
Defined.

(** * Further results *)

(** ** The frame counter and the pending flag *)

(** One call of [stepSimulation] with no resize pending and a screen
    selected. *)
Lemma stepSimulation_no_resize_pending h s scr dt :
  resizePending s = false ->
  nth_error (screens s) (screenProperty s) = Some scr ->
  let eff := effectiveDT h scr dt in
  stepSimulation h dt s
  = (Ret tt,
     set_elapsedTime (elapsedTime s + eff * 1000)
       (set_frameCounter (frameCounter s + 1) s),
     FrameStartedEmit
     :: stepEvents h (hasVibrationManager s) (screenProperty s) scr eff
          (elapsedTime s + eff * 1000)).
Proof.
  intros Hp Hscr eff.
  unfold stepSimulation, stepSimulationAction. run.
  change (resizePending (set_frameCounter _ s)) with (resizePending s).
  rewrite Hp. run. unfold currentScreen. run.
  change (screens (set_frameCounter _ s)) with (screens s).
  change (screenProperty (set_frameCounter _ s)) with (screenProperty s).
  rewrite Hscr. run. unfold stepEvents. fold (effectiveDT h scr dt). fold eff.
  change (hasVibrationManager (set_elapsedTime _ (set_frameCounter _ s)))
    with (hasVibrationManager s).
  destruct (modelHasStep scr && truthy eff); run;
    destruct (hasTWEEN h); run;
    destruct (supportsPanAndZoom h); run;
    destruct (hasVibrationManager s); run;
    destruct (viewHasStep scr); run;
    destruct (negb (PHET_IO_ENABLED h && negb (isReadyForDisplay h))); run;
    destruct (memoryLimit h); run; reflexivity.
Qed.

(** One call of [stepSimulation] with a resize pending, in a window without
    area, assertions enabled. *)
Lemma stepSimulation_resize_fails h s dt :
  assertions h = true ->
  resizePending s = true ->
  Qpositive (innerWidth h) && Qpositive (innerHeight h) = false ->
  stepSimulation h dt s
  = (Throw "sim should have a nonzero area",
     set_resizePending false (set_frameCounter (frameCounter s + 1) s),
     [FrameStartedEmit]).
Proof.
  intros Ha Hp Hwin.
  unfold stepSimulation, stepSimulationAction. run.
  change (resizePending (set_frameCounter _ s)) with (resizePending s).
  rewrite Hp. run. unfold resizeToWindow, resize. run.
  rewrite (bind_run_Throw _ _ _ _ _ _
             (resizeAction_assertion h
                (set_resizePending false (set_frameCounter (frameCounter s + 1) s))
                _ _ Ha Hwin)).
  reflexivity.
Qed.

(** X1.  A frame whose pending resize fails is still counted.  Take a sim
    with a resize pending, in a window without area (a width or a height
    that is not positive), assertions enabled, and let the listeners of
    [frameStartedEmitter] return without touching the sim.  Then
    [stepSimulation( dt )] throws the assertion of [resizeAction], whatever
    [dt] is; the frame counter has advanced by one all the same, the
    pending flag is cleared, and nothing else of the sim has changed: the
    dimension and the elapsed time are the old ones, and no timer, model or
    view has been stepped. *)
Theorem stepSimulation_counts_failed_frame h dt s :
  assertions h = true ->
  resizePending s = true ->
  Qpositive (innerWidth h) && Qpositive (innerHeight h) = false ->
  let r := stepSimulation h dt s in
  outcome r = Throw "sim should have a nonzero area"
  /\ trace_of r = [FrameStartedEmit]
  /\ frameCounter (state_of r) = (frameCounter s + 1)%Z
  /\ resizePending (state_of r) = false
  /\ set_resizePending (resizePending s)
       (set_frameCounter (frameCounter s) (state_of r)) = s.
Proof.
  intros Ha Hp Hwin r. subst r.
  rewrite (stepSimulation_resize_fails h s dt Ha Hp Hwin).
  repeat split. now destruct s.
Qed.

(** The theorem above for a window of width zero. *)
Lemma stepSimulation_counts_failed_frame_witness :
  let h := collapsedHost in
  let s := pendingSim in
  outcome (stepSimulation h 1 s) = Throw "sim should have a nonzero area"
  /\ frameCounter (state_of (stepSimulation h 1 s)) = (frameCounter s + 1)%Z.
Proof.
  pose proof (stepSimulation_counts_failed_frame collapsedHost 1
                pendingSim eq_refl eq_refl eq_refl) as H.
  cbv zeta in H. destruct H as [Ho [_ [Hf _]]].
  split; [exact Ho|exact Hf].
Defined.

(** X2.  A resize that failed is not tried again by the next frame.  Take
    a sim with a resize pending and a screen selected, in a window without
    area, assertions enabled, and let the callbacks made by the calls (the
    listeners of the emitters, the steps of the timers, of the model and of
    the view, the update of the display) return without touching the sim.
    After the call of [stepSimulation] that threw, a second call returns:
    [resizeToWindow] had cleared the pending flag before [resize] threw, so
    the second call steps the selected screen without resizing, and the
    dimension of the sim stays the one from before the two calls.  The
    frame counter has advanced by two, and the elapsed time by the
    effective step of the second call alone. *)
Theorem failed_resize_is_not_retried h dt dt' s scr :
  assertions h = true ->
  resizePending s = true ->
  Qpositive (innerWidth h) && Qpositive (innerHeight h) = false ->
  nth_error (screens s) (screenProperty s) = Some scr ->
  let eff := effectiveDT h scr dt' in
  let r := stepSimulation h dt' (state_of (stepSimulation h dt s)) in
  outcome r = Ret tt
  /\ trace_of r
     = FrameStartedEmit
       :: stepEvents h (hasVibrationManager s) (screenProperty s) scr eff
            (elapsedTime s + eff * 1000)
  /\ dimensionProperty (state_of r) = dimensionProperty s
  /\ resizePending (state_of r) = false
  /\ frameCounter (state_of r) = (frameCounter s + 1 + 1)%Z
  /\ elapsedTime (state_of r) = elapsedTime s + eff * 1000.
Proof.
  intros Ha Hp Hwin Hscr eff r. subst r.
  rewrite (stepSimulation_resize_fails h s dt Ha Hp Hwin).
  cbn [state_of fst snd].
  rewrite (stepSimulation_no_resize_pending h
             (set_resizePending false (set_frameCounter (frameCounter s + 1) s))
             scr dt' eq_refl Hscr).
  repeat split.
Qed.

(** The theorem above for a window of width zero. *)
Lemma failed_resize_is_not_retried_witness :
  let h := collapsedHost in
  let s := pendingSim in
  let r := stepSimulation h 1 (state_of (stepSimulation h 1 s)) in
  outcome r = Ret tt
  /\ dimensionProperty (state_of r) = dimensionProperty s
  /\ frameCounter (state_of r) = (frameCounter s + 1 + 1)%Z.
Proof.
  pose proof (failed_resize_is_not_retried collapsedHost 1 1
                pendingSim
                (mkScreen None true true true true)
                eq_refl eq_refl eq_refl eq_refl) as H.
  cbv zeta in H. destruct H as [Ho [_ [Hd [_ [Hf _]]]]].
  split; [exact Ho|]. split; [exact Hd|exact Hf].
Defined.

(** ** Ticks that do not step *)

(** A tick in playback mode. *)
Lemma runAnimationLoop_playback h s stepTime currentTime :
  playbackModeEnabled h = true ->
  runAnimationLoop h stepTime currentTime s
  = (Ret tt, set_lastAnimationFrameTime currentTime s,
     (if destroyed s then [] else [RequestAnimationFrame])
     ++ AnimationFrameTimerEmit (getDT (lastAnimationFrameTime s) currentTime)
     :: (if PHET_IO_ENABLED h then [PhetioOnAnimationLoop] else [])).
Proof.
  intros Hp. unfold runAnimationLoop. run. rewrite Hp, andb_false_r. run.
  now destruct (destroyed s), (PHET_IO_ENABLED h).
Qed.

(** X3.  The tick of a paused sim, or of any sim in playback mode, steps
    nothing: it requests the next frame unless the sim is destroyed, emits
    the animation-frame timer with the time since the last tick and records
    the clock reading of the loop; the frame counter, the elapsed time, the
    recorded step time and everything else stay as they were. *)
Theorem paused_tick_steps_nothing h s stepTime currentTime :
  activeProperty s = false \/ playbackModeEnabled h = true ->
  runAnimationLoop h stepTime currentTime s
  = (Ret tt, set_lastAnimationFrameTime currentTime s,
     (if destroyed s then [] else [RequestAnimationFrame])
     ++ AnimationFrameTimerEmit (getDT (lastAnimationFrameTime s) currentTime)
     :: (if PHET_IO_ENABLED h then [PhetioOnAnimationLoop] else [])).
Proof.
  intros Hp.
  assert (Hc : activeProperty s && negb (playbackModeEnabled h) = false).
  { destruct Hp as [Hp|Hp]; rewrite Hp; [reflexivity|apply andb_false_r]. }
  unfold runAnimationLoop. run. rewrite Hc. run.
  now destruct (destroyed s), (PHET_IO_ENABLED h).
Qed.

(** The theorem above in playback mode. *)
Lemma paused_tick_steps_nothing_witness :
  frameCounter (state_of (runAnimationLoop playbackHost 5000 5000 runningSim))
  = 0%Z
  /\ existsb isFrameStarted
       (trace_of (runAnimationLoop playbackHost 5000 5000 runningSim)) = false.
Proof.
  rewrite (paused_tick_steps_nothing playbackHost runningSim 5000 5000
             (or_intror eq_refl)).
  split; reflexivity.
Defined.

(** ** Resizing twice *)

(** X4.  [resize] is idempotent: a second call with the same width and
    height, whatever they are, has the outcome and the log of the first and
    leaves the sim as the first left it. *)
Theorem resize_twice_is_resize_once h s width height :
  resize h width height (state_of (resize h width height s))
  = resize h width height s.
Proof.
  unfold resize.
  destruct (assertions h && negb (Qpositive width && Qpositive height)) eqn:Ha.
  - apply andb_true_iff in Ha. destruct Ha as [Ha Hp].
    apply negb_true_iff in Hp.
    now rewrite !(resizeAction_assertion h _ width height Ha Hp).
  - destruct (Qis_zero width || Qis_zero height) eqn:Hz.
    + assert (Hoff : assertions h = false).
      { destruct (assertions h); [|reflexivity]. cbn in Ha.
        apply negb_false_iff in Ha. apply andb_true_iff in Ha.
        destruct Ha as [Hw Hh]. apply Qpositive_spec in Hw, Hh.
        apply orb_true_iff in Hz. destruct Hz as [Hz|Hz];
          apply Qeq_bool_iff in Hz; [rewrite Hz in Hw|rewrite Hz in Hh];
          discriminate. }
      now rewrite !(resizeAction_zero h _ width height Hoff Hz).
    + rewrite (resizeAction_nonzero h s width height Ha Hz).
      unfold state_of. cbn [fst snd].
      rewrite (resizeAction_nonzero h _ width height Ha Hz).
      reflexivity.
Qed.

(** ** Showing and hiding a popup *)

Lemma remove_first_last (p : Popup) (l : list Popup) :
  includes l p = false -> remove_first p (l ++ [p]) = l.
Proof.
  unfold includes. induction l as [|x l IH]; cbn; intros H.
  - now rewrite Popup_eqb_refl.
  - apply orb_false_iff in H. destruct H as [Hx Hl].
    rewrite Hx. now rewrite IH.
Qed.

Lemma includes_last (p : Popup) (l : list Popup) : includes (l ++ [p]) p = true.
Proof.
  rewrite includes_app. cbn. rewrite Popup_eqb_refl. cbn. apply orb_true_r.
Qed.

(** X5.  Showing a popup and hiding it again restores the sim.  Take a
    popup with a [hide] method that is neither in the top layer nor on the
    modal stack, in a sim whose barrier is visible exactly when the stack is
    not empty.  [showPopup( popup, isModal )] followed by
    [hidePopup( popup, isModal )] both return and leave the sim exactly as
    it was, for a modal popup, and for a non-modal one when assertions are
    disabled. *)
Theorem show_then_hide_restores_sim h s popup isModal :
  isModal = true \/ assertions h = false ->
  hasHide popup = true ->
  includes (topLayer s) popup = false ->
  includes (modalNodeStack s) popup = false ->
  barrierVisible s = negb (Nat.eqb (List.length (modalNodeStack s)) 0) ->
  let r1 := showPopup h popup isModal s in
  let r2 := hidePopup h popup isModal (state_of r1) in
  outcome r1 = Ret tt /\ outcome r2 = Ret tt /\ state_of r2 = s.
Proof.
  intros Hmode Hh Htop Hstack Hbar r1 r2.
  assert (E1 : r1 = (Ret tt, shown popup isModal s,
                     (if isModal
                      then [RootNodeInterruptSubtreeInput; ModalNodeStackPush popup;
                            BarrierSetVisible true]
                      else [])
                     ++ (if hasLayout popup
                         then [PopupLayout popup (screenBoundsProperty s)] else [])
                     ++ [TopLayerAddChild popup])).
  { subst r1. apply showPopup_run; [rewrite Hh|rewrite Htop]; apply andb_false_r. }
  subst r2. rewrite E1.
  change (state_of (Ret tt, shown popup isModal s, _)) with (shown popup isModal s).
  split; [reflexivity|].
  rewrite hidePopup_run.
  - unfold outcome, state_of. cbn [fst snd]. split; [reflexivity|].
    unfold shown. destruct isModal.
    + pose proof (remove_first_last popup _ Htop) as Et.
      pose proof (remove_first_last popup _ Hstack) as Es.
      pose proof (includes_last popup (modalNodeStack s)) as Ei.
      destruct s; cbn in *. rewrite Ei. cbn. rewrite Et, Es, <- Hbar.
      reflexivity.
    + pose proof (remove_first_last popup _ Htop) as Et.
      destruct s; cbn in *. rewrite Et. reflexivity.
  - unfold shown. destruct isModal.
    + cbn [modalNodeStack set_topLayer set_barrierVisible set_modalNodeStack].
      rewrite includes_last. apply andb_false_r.
    + destruct Hmode as [Hm|Ha]; [discriminate|]. now rewrite Ha.
  - unfold shown. cbn [topLayer set_topLayer]. rewrite includes_last.
    apply andb_false_r.
Qed.

(** The theorem above for the modal dialog, with assertions enabled. *)
Lemma show_then_hide_restores_sim_witness :
  state_of (hidePopup developmentHost dialogPopup true
              (state_of (showPopup developmentHost dialogPopup true runningSim)))
  = runningSim.
Proof.
  apply (show_then_hide_restores_sim developmentHost runningSim dialogPopup true
           (or_introl eq_refl) eq_refl eq_refl eq_refl eq_refl).
Defined.

(** X6.  With assertions enabled a non-modal popup cannot be hidden:
    [showPopup( popup, false )] adds it to the top layer without touching
    the modal stack, the barrier or the input of the root node, and
    [hidePopup( popup, false )] then fails its first assertion, which wants
    the popup on the modal stack whatever [isModal] is; the popup stays in
    the top layer. *)
Theorem nonmodal_popup_cannot_be_hidden_with_assertions h s popup :
  assertions h = true ->
  hasHide popup = true ->
  includes (topLayer s) popup = false ->
  includes (modalNodeStack s) popup = false ->
  let r1 := showPopup h popup false s in
  outcome r1 = Ret tt
  /\ modalNodeStack (state_of r1) = modalNodeStack s
  /\ barrierVisible (state_of r1) = barrierVisible s
  /\ existsb isRootInterrupt (trace_of r1) = false
  /\ includes (topLayer (state_of r1)) popup = true
  /\ hidePopup h popup false (state_of r1)
     = (Throw "Assertion failed", state_of r1, []).
Proof.
  intros Ha Hh Htop Hstack r1.
  assert (E1 : r1 = (Ret tt, shown popup false s,
                     [] ++ (if hasLayout popup
                            then [PopupLayout popup (screenBoundsProperty s)] else [])
                     ++ [TopLayerAddChild popup])).
  { subst r1. apply showPopup_run; [rewrite Hh|rewrite Htop]; apply andb_false_r. }
  rewrite E1. unfold outcome, state_of, trace_of, shown. cbn [fst snd].
  split; [reflexivity|]. split; [reflexivity|]. split; [reflexivity|].
  split; [now destruct (hasLayout popup)|].
  split; [apply includes_last|].
  apply hidePopup_throws_not_modal; [exact Ha|exact Hstack].
Qed.

(** The theorem above for a menu shown without the barrier. *)
Lemma nonmodal_popup_cannot_be_hidden_with_assertions_witness :
  hidePopup developmentHost menuPopup false
    (state_of (showPopup developmentHost menuPopup false runningSim))
  = (Throw "Assertion failed",
     state_of (showPopup developmentHost menuPopup false runningSim), []).
Proof.
  apply (nonmodal_popup_cannot_be_hidden_with_assertions developmentHost
           runningSim menuPopup eq_refl eq_refl eq_refl eq_refl).
Defined.

(** ** Sequences of screen switches *)

Lemma showScreens_twice x y : forall l i,
  showScreens x i (showScreens y i l) = showScreens x i l.
Proof.
  induction l as [|scr l IH]; intros i; [reflexivity|].
  cbn. now rewrite IH.
Qed.

Lemma showScreens_fixed x : forall l i,
  (forall j scr, nth_error l j = Some scr ->
                 active scr = Nat.eqb (i + j) x
                 /\ viewVisible scr = Nat.eqb (i + j) x) ->
  showScreens x i l = l.
Proof.
  induction l as [|scr l IH]; intros i H; [reflexivity|].
  cbn. destruct (H 0%nat scr eq_refl) as [Ha Hv].
  rewrite Nat.add_0_r in Ha, Hv.
  rewrite IH.
  - destruct scr; cbn in *. congruence.
  - intros j scr' Hj. specialize (H (S j) scr' Hj).
    now rewrite Nat.add_succ_r in H.
Qed.

(** X7.  Switching to another screen and back restores the sim: from a
    sim in which each screen is active and visible exactly when selected,
    selecting a different screen [y] and then the first screen again leaves
    every field of the sim, the flags of the screens included, as it was. *)
Theorem switch_and_back_restores_sim s y :
  onlySelectedShown (screens s) (screenProperty s) ->
  y <> screenProperty s ->
  state_of (screenProperty_set (screenProperty s)
              (state_of (screenProperty_set y s))) = s.
Proof.
  intros Hinv Hne.
  rewrite (screenProperty_set_run y s Hne).
  unfold state_of at 2. cbn [fst snd].
  rewrite screenProperty_set_run by (cbn; congruence).
  unfold state_of. cbn [fst snd screens set_screens set_screenProperty].
  rewrite showScreens_twice, (showScreens_fixed _ _ 0 Hinv).
  now destruct s.
Qed.

(** The theorem above for the home screen and the second content screen. *)
Lemma switch_and_back_restores_sim_witness :
  state_of (screenProperty_set 0 (state_of (screenProperty_set 2 runningSim)))
  = runningSim.
Proof.
  assert (Hinv : onlySelectedShown (screens runningSim) (screenProperty runningSim)).
  { intros i scr H. destruct i as [|[|[|i]]]; cbn in H.
    - inversion H; subst; split; reflexivity.
    - inversion H; subst; split; reflexivity.
    - inversion H; subst; split; reflexivity.
    - destruct i; discriminate. }
  assert (Hne : 2%nat <> screenProperty runningSim) by discriminate.
  exact (switch_and_back_restores_sim runningSim 2 Hinv Hne).
Defined.

Lemma update_nth_beyond {A} (f : A -> A) : forall (l : list A) i,
  nth_error l i = None -> update_nth i f l = l.
Proof.
  induction l as [|x l IH]; intros i H; [now destruct i|].
  destruct i as [|i]; [discriminate|]. cbn. now rewrite IH.
Qed.

Lemma activeChangesWhileInvisible_app : forall t1 l t2,
  activeChangesWhileInvisible l (t1 ++ t2)
  = activeChangesWhileInvisible l t1
    && activeChangesWhileInvisible (replayScreens l t1) t2.
Proof.
  induction t1 as [|e t1 IH]; intros l t2; [reflexivity|].
  destruct e; cbn [app activeChangesWhileInvisible replayScreens]; try apply IH.
  destruct (nth_error l screen) as [scr|] eqn:Hn.
  - now rewrite IH, andb_assoc.
  - rewrite (update_nth_beyond _ _ _ Hn). apply IH.
Qed.

Lemma replayScreens_app : forall t1 l t2,
  replayScreens l (t1 ++ t2) = replayScreens (replayScreens l t1) t2.
Proof.
  induction t1 as [|e t1 IH]; intros l t2; [reflexivity|].
  destruct e; cbn [app replayScreens]; apply IH.
Qed.

Lemma replayScreens_loop selected : forall l pre,
  replayScreens (pre ++ l)
    (flat_map (screenEvents selected) (seq (List.length pre) (List.length l)))
  = pre ++ showScreens selected (List.length pre) l.
Proof.
  induction l as [|scr l IH]; intros pre; [reflexivity|].
  cbn [List.length seq flat_map showScreens]. rewrite replayScreens_app.
  assert (Hlen : forall x, S (List.length pre) = List.length (pre ++ [x]))
    by (intros x; rewrite length_app; cbn; lia).
  set (scr' := mkScreen (maxDT scr) (modelHasStep scr) (viewHasStep scr)
                 (Nat.eqb (List.length pre) selected)
                 (Nat.eqb (List.length pre) selected)).
  assert (E : replayScreens (pre ++ scr :: l) (screenEvents selected (List.length pre))
              = (pre ++ [scr']) ++ l).
  { unfold screenEvents, scr'.
    destruct (Nat.eqb (List.length pre) selected);
      cbn [replayScreens]; rewrite !update_nth_app, <- app_assoc; reflexivity. }
  rewrite E, (Hlen scr'), IH, <- app_assoc. reflexivity.
Qed.

(** The log of a switch, replayed on the screens, gives the screens that the
    switch leaves. *)
Lemma replayScreens_screenProperty_set y s :
  replayScreens (screens s) (trace_of (screenProperty_set y s))
  = screens (state_of (screenProperty_set y s)).
Proof.
  destruct (Nat.eq_dec y (screenProperty s)) as [E|Hne].
  - subst y. now rewrite screenProperty_set_same.
  - rewrite (screenProperty_set_run y s Hne).
    unfold trace_of, state_of. cbn [fst snd screens set_screens app replayScreens].
    rewrite replayScreens_app.
    pose proof (replayScreens_loop y (screens s) []) as E.
    cbn [app List.length] in E. rewrite E.
    now destruct (isSettingPhetioStateProperty s).
Qed.

Lemma last_cons {A} : forall (l : list A) y d, last (y :: l) d = last l y.
Proof.
  induction l as [|x l IH]; intros y d; [reflexivity|].
  change (last (y :: x :: l) d) with (last (x :: l) d).
  now rewrite !IH.
Qed.

(** One switch, from a sim in which only the selected screen is shown. *)
Lemma screenProperty_set_step s y :
  onlySelectedShown (screens s) (screenProperty s) ->
  let r := screenProperty_set y s in
  outcome r = Ret tt
  /\ screenProperty (state_of r) = y
  /\ List.length (screens (state_of r)) = List.length (screens s)
  /\ onlySelectedShown (screens (state_of r)) y
  /\ activeChangesWhileInvisible (screens s) (trace_of r) = true.
Proof.
  intros Hinv r. subst r.
  destruct (Nat.eq_dec y (screenProperty s)) as [E|Hne].
  - subst y. rewrite screenProperty_set_same.
    unfold outcome, state_of, trace_of. cbn [fst snd].
    split; [reflexivity|]. split; [reflexivity|]. split; [reflexivity|].
    split; [exact Hinv|reflexivity].
  - rewrite (screenProperty_set_run y s Hne).
    unfold outcome, state_of, trace_of.
    cbn [fst snd screens set_screens screenProperty].
    split; [reflexivity|]. split; [reflexivity|].
    split; [apply showScreens_length|]. split.
    { intros i scr Hn. apply (showScreens_nth y (screens s) 0 i scr Hn). }
    cbn [app activeChangesWhileInvisible].
    apply (loop_changes_active_while_invisible y _) with (pre := []).
    + intros l. now destruct (isSettingPhetioStateProperty s).
    + intros j scr Hn Hj Hv. cbn in Hj. subst j.
      destruct (Hinv y scr Hn) as [Ha Hv']. congruence.
Qed.

(** X8.  The invariant of screen switching holds along every sequence of
    switches.  From a sim in which each screen is active and visible
    exactly when selected, any sequence of assignments to the screen
    property returns and leaves the last screen assigned selected, with
    each screen active and visible exactly when it is that one; and over
    the whole log every change of an active flag happens while the view of
    that screen is invisible. *)
Theorem switches_keep_only_selected_shown ys : forall s,
  onlySelectedShown (screens s) (screenProperty s) ->
  let r := selectScreens ys s in
  outcome r = Ret tt
  /\ screenProperty (state_of r) = last ys (screenProperty s)
  /\ List.length (screens (state_of r)) = List.length (screens s)
  /\ onlySelectedShown (screens (state_of r)) (screenProperty (state_of r))
  /\ activeChangesWhileInvisible (screens s) (trace_of r) = true.
Proof.
  induction ys as [|y ys IH]; intros s Hinv r.
  - subst r. cbn.
    split; [reflexivity|]. split; [reflexivity|]. split; [reflexivity|].
    split; [exact Hinv|reflexivity].
  - subst r. unfold selectScreens. cbn [forEach].
    destruct (screenProperty_set_step s y Hinv) as [Ho [Hy [Hlen [Hinv' Hsafe]]]].
    pose proof (replayScreens_screenProperty_set y s) as Hreplay.
    destruct (screenProperty_set y s) as [[o s1] t1] eqn:E1.
    unfold outcome, state_of, trace_of in Ho, Hy, Hlen, Hinv', Hsafe, Hreplay.
    cbn [fst snd] in Ho, Hy, Hlen, Hinv', Hsafe, Hreplay. subst o.
    rewrite (bind_run_Ret _ _ _ _ _ _ E1).
    fold (selectScreens ys).
    rewrite <- Hy in Hinv'.
    destruct (IH s1 Hinv') as [Ho2 [Hlast [Hlen2 [Hinv2 Hsafe2]]]].
    rewrite outcome_prepend, state_of_prepend, trace_of_prepend.
    split; [exact Ho2|]. split.
    { rewrite Hlast, Hy. symmetry. apply last_cons. }
    split; [congruence|]. split; [exact Hinv2|].
    rewrite activeChangesWhileInvisible_app, Hsafe, Hreplay. exact Hsafe2.
Qed.

(** The theorem above for three switches. *)
Lemma switches_keep_only_selected_shown_witness :
  screenProperty (state_of (selectScreens [1; 2; 0; 2]%nat runningSim)) = 2%nat
  /\ activeChangesWhileInvisible (screens runningSim)
       (trace_of (selectScreens [1; 2; 0; 2]%nat runningSim)) = true.
Proof.
  assert (Hinv : onlySelectedShown (screens runningSim) (screenProperty runningSim)).
  { intros i scr H. destruct i as [|[|[|i]]]; cbn in H.
    - inversion H; subst; split; reflexivity.
    - inversion H; subst; split; reflexivity.
    - inversion H; subst; split; reflexivity.
    - destruct i; discriminate. }
  split; apply (switches_keep_only_selected_shown [1; 2; 0; 2]%nat runningSim Hinv).
Defined.

(** ** What the operations leave alone *)

Lemma runAnimationLoop_keeps h stepTime currentTime :
  keeps (fun s => (selectionOf s, popupsOf s, activeProperty s, destroyed s))
    (runAnimationLoop h stepTime currentTime).
Proof.
  unfold runAnimationLoop, stepOneFrame, stepSimulation, stepSimulationAction,
    resizeToWindow, resize, resizeAction, currentScreen, assert_.
  keeps_tac.
Qed.

(** X10.  A resize, whatever the size and whether it returns or throws,
    never changes the frame counter, the elapsed time, the recorded clock
    readings, the selected screen, the flags of the screens, the children of
    the top layer, the modal stack or the barrier. *)
Theorem resize_keeps_clock_selection_and_popups h width height s :
  let s' := state_of (resize h width height s) in
  clockOf s' = clockOf s
  /\ selectionOf s' = selectionOf s
  /\ popupsOf s' = popupsOf s.
Proof.
  assert (H : keeps (fun s => (clockOf s, selectionOf s, popupsOf s))
                (resize h width height)).
  { unfold resize, resizeAction, assert_. keeps_tac. }
  specialize (H s). cbv zeta.
  unfold clockOf, selectionOf, popupsOf in *.
  injection H as <-; intros. repeat split; congruence.
Qed.

(** X11.  Showing a popup, hiding a popup and switching screens never
    change the frame counter, the elapsed time, the recorded clock readings,
    the size, the scale or the bounds of the sim, or the pending flag;
    showing and hiding never change the selection or the flags of the
    screens, and switching never changes the popups. *)
Theorem popups_and_switches_keep_clock_and_geometry h popup isModal y s :
  let shown := state_of (showPopup h popup isModal s) in
  let hidden := state_of (hidePopup h popup isModal s) in
  let switched := state_of (screenProperty_set y s) in
  (clockOf shown = clockOf s /\ geometryOf shown = geometryOf s
   /\ selectionOf shown = selectionOf s)
  /\ (clockOf hidden = clockOf s /\ geometryOf hidden = geometryOf s
      /\ selectionOf hidden = selectionOf s)
  /\ (clockOf switched = clockOf s /\ geometryOf switched = geometryOf s
      /\ popupsOf switched = popupsOf s).
Proof.
  assert (H1 : keeps (fun s => (clockOf s, geometryOf s, selectionOf s))
                 (showPopup h popup isModal)).
  { unfold showPopup, modalNodeStack_push, topLayer_addChild,
      barrierLengthListener, assert_. keeps_tac. }
  assert (H2 : keeps (fun s => (clockOf s, geometryOf s, selectionOf s))
                 (hidePopup h popup isModal)).
  { unfold hidePopup, modalNodeStack_remove, topLayer_removeChild,
      barrierLengthListener, assert_. keeps_tac. }
  assert (H3 : keeps (fun s => (clockOf s, geometryOf s, popupsOf s))
                 (screenProperty_set y)).
  { unfold screenProperty_set, screenListener, showOrHideScreen,
      screen_activeProperty_set, screen_view_setVisible, updateBackground.
    keeps_tac. }
  specialize (H1 s). specialize (H2 s). specialize (H3 s). cbv zeta.
  unfold clockOf, geometryOf, selectionOf, popupsOf in *.
  injection H1; intros. injection H2; intros. injection H3; intros.
  repeat split; congruence.
Qed.

(** ** Sequences of ticks *)

(** One tick that steps the simulation. *)
Lemma tick_run h scr s stepTime currentTime :
  activeProperty s = true ->
  playbackModeEnabled h = false ->
  nth_error (screens s) (screenProperty s) = Some scr ->
  0 < innerWidth h -> 0 < innerHeight h ->
  0 < getDT (lastStepTime s) stepTime ->
  let r := runAnimationLoop h stepTime currentTime s in
  outcome r = Ret tt
  /\ frameCounter (state_of r) = (frameCounter s + 1)%Z
  /\ lastStepTime (state_of r) = stepTime
  /\ elapsedTime (state_of r)
     = elapsedTime s + effectiveDT h scr (getDT (lastStepTime s) stepTime) * 1000.
Proof.
  intros Ha Hp Hscr Hw Hh Hdt r. subst r.
  unfold runAnimationLoop. run. rewrite Ha, Hp. cbn [negb andb].
  rewrite bind_when_true. unfold stepOneFrame. run.
  rewrite (Qpositive_true _ Hdt), bind_when_true.
  unfold stepSimulation.
  destruct (stepSimulationAction_run h (set_lastStepTime stepTime s) scr
              (getDT (lastStepTime s) stepTime) Hscr Hw Hh)
    as [s' [Hrun [_ [_ [Hfc [Hel _]]]]]].
  pose proof (stepSimulation_keeps_lastStepTime h (getDT (lastStepTime s) stepTime)
                (set_lastStepTime stepTime s)) as Hls.
  unfold stepSimulation in Hls. rewrite Hrun in Hls.
  unfold state_of in Hls. cbn [fst snd] in Hls.
  rewrite (bind_run_Ret _ _ _ _ _ _ Hrun). run.
  unfold outcome, state_of. cbn [fst snd].
  cbn [frameCounter lastStepTime elapsedTime set_lastAnimationFrameTime].
  cbn in Hfc, Hel, Hls. auto.
Qed.

(** Ticks of a sim that has recorded a step time. *)
Lemma ticks_from_recorded_time h scr : forall ticks s,
  activeProperty s = true ->
  playbackModeEnabled h = false ->
  nth_error (screens s) (screenProperty s) = Some scr ->
  0 < innerWidth h -> 0 < innerHeight h ->
  (0 <= lastStepTime s)%Z ->
  increasingFrom (lastStepTime s) (map fst ticks) ->
  let r := runAnimationLoops h ticks s in
  outcome r = Ret tt
  /\ frameCounter (state_of r) = (frameCounter s + Z.of_nat (List.length ticks))%Z
  /\ lastStepTime (state_of r) = last (map fst ticks) (lastStepTime s)
  /\ elapsedTime (state_of r)
     = accumulate (effectiveDT h scr) (stepsOf (lastStepTime s) (map fst ticks))
         (elapsedTime s).
Proof.
  induction ticks as [|[t1 c1] ticks IH]; intros s Ha Hp Hscr Hw Hh H0 Hinc r.
  - subst r. cbn. repeat split; lia.
  - subst r. cbn [map fst] in *. destruct Hinc as [Hlt Hinc].
    assert (Hne : lastStepTime s <> (-1)%Z) by lia.
    assert (Hdt : 0 < getDT (lastStepTime s) t1).
    { rewrite (getDT_later _ _ Hne). apply Qlt_shift_div_l; [reflexivity|].
      rewrite Qmult_0_l. change 0 with (inject_Z 0). rewrite <- Zlt_Qlt. lia. }
    destruct (tick_run h scr s t1 c1 Ha Hp Hscr Hw Hh Hdt) as [Ho [Hfc [Hls Hel]]].
    pose proof (runAnimationLoop_keeps h t1 c1 s) as Hk.
    unfold selectionOf, popupsOf in Hk. injection Hk as Hsc Hsp _ _ _ Hact _.
    destruct (runAnimationLoop h t1 c1 s) as [[o s1] tr] eqn:E1.
    unfold outcome, state_of in Ho, Hfc, Hls, Hel, Hsc, Hsp, Hact.
    cbn [fst snd] in Ho, Hfc, Hls, Hel, Hsc, Hsp, Hact. subst o.
    unfold runAnimationLoops. cbn [forEach fst snd].
    rewrite (bind_run_Ret _ _ _ _ _ _ E1). fold (runAnimationLoops h ticks).
    rewrite outcome_prepend, state_of_prepend.
    rewrite <- Hls in Hinc.
    destruct (IH s1) as [Ho2 [Hfc2 [Hls2 Hel2]]]; try assumption;
      try congruence; try lia.
    rewrite last_cons, <- Hls.
    split; [exact Ho2|]. split.
    { rewrite Hfc2, Hfc. cbn [List.length]. lia. }
    split; [exact Hls2|].
    rewrite Hel2, Hel, Hls. reflexivity.
Qed.

(** X12.  The elapsed time follows the clock.  Take a sim that has not
    stepped yet (no step time recorded), is active and outside playback
    mode, with a screen selected, in a window of positive area, and a
    sequence of ticks of the animation loop whose clock readings are not
    negative and increase strictly; let the callbacks made during the ticks
    (input fuzzing, the listeners of the emitters, the steps of the timers,
    of the model and of the view) return and leave the fields of the sim as
    they are, the selected screen in particular.  Then every tick returns
    and steps the simulation once: the frame counter grows by the number of
    ticks, and the step time recorded is the last clock reading.  The step
    of the first tick is 1/60 s, and the step of every other tick is the
    time on the clock since the tick before it, in seconds.  The elapsed
    time is what the additions [elapsedTime += e * 1000] give when they are
    made tick by tick, [e] being the effective step of the tick (the step
    times the speed, capped by maxDT). *)
Theorem ticks_accumulate_elapsed_time h scr s t1 c1 ticks :
  activeProperty s = true ->
  playbackModeEnabled h = false ->
  nth_error (screens s) (screenProperty s) = Some scr ->
  0 < innerWidth h -> 0 < innerHeight h ->
  lastStepTime s = (-1)%Z ->
  (0 <= t1)%Z ->
  increasingFrom t1 (map fst ticks) ->
  let r := runAnimationLoops h ((t1, c1) :: ticks) s in
  let dts := stepsOf (-1) (t1 :: map fst ticks) in
  outcome r = Ret tt
  /\ frameCounter (state_of r)
     = (frameCounter s + 1 + Z.of_nat (List.length ticks))%Z
  /\ lastStepTime (state_of r) = last (map fst ticks) t1
  /\ dts = (1 / 60) :: stepsOf t1 (map fst ticks)
  /\ elapsedTime (state_of r) = accumulate (effectiveDT h scr) dts (elapsedTime s).
Proof.
  intros Ha Hp Hscr Hw Hh Hfirst H0 Hinc r dts. subst r dts.
  assert (Hdt : 0 < getDT (lastStepTime s) t1) by (now rewrite Hfirst).
  destruct (tick_run h scr s t1 c1 Ha Hp Hscr Hw Hh Hdt) as [Ho [Hfc [Hls Hel]]].
  pose proof (runAnimationLoop_keeps h t1 c1 s) as Hk.
  unfold selectionOf, popupsOf in Hk. injection Hk as Hsc Hsp _ _ _ Hact _.
  destruct (runAnimationLoop h t1 c1 s) as [[o s1] tr] eqn:E1.
  unfold outcome, state_of in Ho, Hfc, Hls, Hel, Hsc, Hsp, Hact.
  cbn [fst snd] in Ho, Hfc, Hls, Hel, Hsc, Hsp, Hact. subst o.
  unfold runAnimationLoops. cbn [forEach fst snd].
  rewrite (bind_run_Ret _ _ _ _ _ _ E1). fold (runAnimationLoops h ticks).
  rewrite outcome_prepend, state_of_prepend.
  rewrite <- Hls in Hinc.
  destruct (ticks_from_recorded_time h scr ticks s1) as [Ho2 [Hfc2 [Hls2 Hel2]]];
    try assumption; try congruence; try lia.
  rewrite <- Hls.
  split; [exact Ho2|]. split; [rewrite Hfc2, Hfc; lia|].
  split; [exact Hls2|]. split; [reflexivity|].
  rewrite Hel2, Hel, Hfirst, Hls. reflexivity.
Qed.

(** The theorem above for a launch at the clock reading 1000, followed by
    three more ticks. *)
Lemma ticks_accumulate_elapsed_time_witness :
  let r := runAnimationLoops productionHost
             [(1000, 1000); (1016, 1017); (1033, 1033); (1050, 1051)]%Z runningSim in
  frameCounter (state_of r) = 4%Z
  /\ lastStepTime (state_of r) = 1050%Z
  /\ elapsedTime (state_of r)
     = accumulate (effectiveDT productionHost (mkScreen None true true true true))
         (stepsOf (-1) [1000; 1016; 1033; 1050]%Z) (elapsedTime runningSim).
Proof.
  assert (Hinc : increasingFrom 1000
                   (map fst [(1016, 1017); (1033, 1033); (1050, 1051)]%Z)).
  { cbn. repeat split; lia. }
  pose proof (ticks_accumulate_elapsed_time productionHost
                (mkScreen None true true true true) runningSim 1000 1000
                [(1016, 1017); (1033, 1033); (1050, 1051)]%Z
                eq_refl eq_refl eq_refl eq_refl eq_refl eq_refl
                ltac:(discriminate) Hinc) as H.
  cbv zeta in H. destruct H as [_ [Hf [Hl [_ He]]]].
  split; [exact Hf|]. split; [exact Hl|exact He].
Defined.

(** ** The cap on the step *)

Lemma capDT_le screen m dt :
  maxDT screen = Some m -> truthy m = true -> capDT screen dt <= m.
Proof.
  intros Hm Ht. unfold capDT. rewrite Hm, Ht. apply Q.le_min_r.
Qed.

Lemma in_stepEvents_model h v i scr d e j x :
  In (ModelStep j x) (stepEvents h v i scr d e) -> j = i /\ x = d.
Proof.
  unfold stepEvents. intros H.
  repeat (apply in_app_or in H; destruct H as [H|H]);
    repeat match type of H with
           | In _ (if ?c then _ else _) => destruct c
           | In _ (_ :: _) => destruct H as [H|H]; [try discriminate|]
           | In _ [] => destruct H
           end; try (split; congruence).
Qed.

Lemma in_stepEvents_view h v i scr d e j x :
  In (ViewStep j x) (stepEvents h v i scr d e) -> j = i /\ x = d.
Proof.
  unfold stepEvents. intros H.
  repeat (apply in_app_or in H; destruct H as [H|H]);
    repeat match type of H with
           | In _ (if ?c then _ else _) => destruct c
           | In _ (_ :: _) => destruct H as [H|H]; [try discriminate|]
           | In _ [] => destruct H
           end; try (split; congruence).
Qed.

(** X13.  No step is above the cap of the selected screen.  When the
    selected screen declares a cap [maxDT] other than zero, a call of
    [stepSimulation], whatever [dt] and the speed are, advances the elapsed
    time by at most [maxDT * 1000] milliseconds, and the steps it passes to
    the model and to the view are at most [maxDT]. *)
Theorem stepSimulation_never_exceeds_cap h s scr m dt :
  nth_error (screens s) (screenProperty s) = Some scr ->
  maxDT scr = Some m -> truthy m = true ->
  0 < innerWidth h -> 0 < innerHeight h ->
  let r := stepSimulation h dt s in
  outcome r = Ret tt
  /\ elapsedTime (state_of r) <= elapsedTime s + m * 1000
  /\ (forall i d, In (ModelStep i d) (trace_of r) -> d <= m)
  /\ (forall i d, In (ViewStep i d) (trace_of r) -> d <= m).
Proof.
  intros Hscr Hm Ht Hw Hh r. subst r. unfold stepSimulation.
  destruct (stepSimulationAction_run h s scr dt Hscr Hw Hh)
    as [s' [Hrun [_ [_ [_ [Hel [_ [_ [_ [Hnm Hnv]]]]]]]]]].
  pose proof (capDT_le scr m (dt * speed h) Hm Ht) as Hcap.
  fold (effectiveDT h scr dt) in Hcap.
  rewrite Hrun. unfold outcome, state_of, trace_of. cbn [fst snd].
  split; [reflexivity|]. split.
  { rewrite Hel. apply Qplus_le_r. apply Qmult_le_compat_r; [exact Hcap|discriminate]. }
  split; intros i d [Hin|Hin]; try discriminate;
    apply in_app_or in Hin; destruct Hin as [Hin|Hin].
  - exfalso. assert (Hf : In (ModelStep i d) (filter isModelStep
        (if resizePending s
         then trace_of (resizeToWindow h (set_frameCounter (frameCounter s + 1) s))
         else []))) by (apply filter_In; split; [exact Hin|reflexivity]).
    rewrite Hnm in Hf. destruct Hf.
  - apply in_stepEvents_model in Hin. destruct Hin as [_ Hin]. now subst d.
  - exfalso. assert (Hf : In (ViewStep i d) (filter isViewStep
        (if resizePending s
         then trace_of (resizeToWindow h (set_frameCounter (frameCounter s + 1) s))
         else []))) by (apply filter_In; split; [exact Hin|reflexivity]).
    rewrite Hnv in Hf. destruct Hf.
  - apply in_stepEvents_view in Hin. destruct Hin as [_ Hin]. now subst d.
Qed.

(** The theorem above for a step of five seconds, as after a long pause of
    the browser tab. *)
Lemma stepSimulation_never_exceeds_cap_witness :
  elapsedTime (state_of (stepSimulation productionHost 5 cappedSim))
  <= elapsedTime cappedSim + (1 # 2) * 1000.
Proof.
  apply (stepSimulation_never_exceeds_cap productionHost cappedSim
           (mkScreen (Some (1 # 2)) true true true true) (1 # 2) 5);
    reflexivity.
Defined.

(** ** The PhET menu *)

Lemma occurrences_app p l l' :
  occurrences p (l ++ l') = (occurrences p l + occurrences p l')%nat.
Proof. unfold occurrences. now rewrite filter_app, length_app. Qed.

Lemma occurrences_zero p l : occurrences p l = 0%nat -> includes l p = false.
Proof.
  unfold occurrences, includes. induction l as [|x l IH]; [reflexivity|].
  cbn. destruct (Popup_eqb p x); [discriminate|]. exact IH.
Qed.

Lemma occurrences_positive p l : (0 < occurrences p l)%nat -> includes l p = true.
Proof.
  unfold occurrences, includes. induction l as [|x l IH]; cbn; [lia|].
  destruct (Popup_eqb p x); [reflexivity|]. exact IH.
Qed.

Lemma occurrences_remove_first p l :
  occurrences p (remove_first p l) = Nat.pred (occurrences p l).
Proof.
  unfold occurrences. induction l as [|x l IH]; [reflexivity|].
  cbn. destruct (Popup_eqb p x) eqn:E; [reflexivity|].
  cbn. now rewrite E.
Qed.

Lemma otherPopups_remove_first p l :
  otherPopups p (remove_first p l) = otherPopups p l.
Proof.
  unfold otherPopups. induction l as [|x l IH]; [reflexivity|].
  cbn. destruct (Popup_eqb p x) eqn:E; [reflexivity|].
  cbn. now rewrite E, IH.
Qed.

Lemma otherPopups_last p l : otherPopups p (l ++ [p]) = otherPopups p l.
Proof.
  unfold otherPopups. rewrite filter_app. cbn. rewrite Popup_eqb_refl. cbn.
  apply app_nil_r.
Qed.

(** One call on a menu whose flag agrees with the sim. *)
Lemma callMenu_consistent h self c w :
  hasHide self = true ->
  menuConsistent self w ->
  let r := callMenu h self c w in
  menuOutcome r = Ret tt
  /\ menuConsistent self (menuWorld r)
  /\ isShowing (menuWorld r) = showsAfter [c] (isShowing w)
  /\ otherPopups self (topLayer (joist_sim (menuWorld r)))
     = otherPopups self (topLayer (joist_sim w))
  /\ otherPopups self (modalNodeStack (joist_sim (menuWorld r)))
     = otherPopups self (modalNodeStack (joist_sim w)).
Proof.
  intros Hhide [Htop Hstack] r. subst r.
  destruct c; cbn [callMenu]; unfold PhetMenu_show, PhetMenu_hide;
    destruct (isShowing w) eqn:Hs; cbn [negb].
  - unfold menuOutcome, menuWorld. cbn [fst snd]. rewrite Hs.
    repeat split; assumption || (now rewrite Hs).
  - rewrite showPopup_run.
    + unfold menuOutcome, menuWorld, outcome, state_of, trace_of, shown.
      cbn [fst snd]. unfold menuConsistent.
      cbn [isShowing joist_sim topLayer modalNodeStack set_topLayer
           set_barrierVisible set_modalNodeStack].
      rewrite !occurrences_app, Htop, Hstack, !otherPopups_last.
      unfold occurrences. cbn. rewrite Popup_eqb_refl. now repeat split.
    + rewrite Hhide. apply andb_false_r.
    + rewrite (occurrences_zero _ _ Htop). apply andb_false_r.
  - rewrite hidePopup_run.
    + unfold menuOutcome, menuWorld, outcome, state_of, trace_of. cbn [fst snd].
      rewrite (occurrences_positive self (modalNodeStack (joist_sim w)))
        by (rewrite Hstack; lia).
      unfold menuConsistent.
      cbn [andb isShowing joist_sim topLayer modalNodeStack set_topLayer
           set_barrierVisible set_modalNodeStack].
      rewrite !occurrences_remove_first, Htop, Hstack, !otherPopups_remove_first.
      now repeat split.
    + rewrite (occurrences_positive self (modalNodeStack (joist_sim w)))
        by (rewrite Hstack; lia).
      apply andb_false_r.
    + rewrite (occurrences_positive self (topLayer (joist_sim w)))
        by (rewrite Htop; lia).
      apply andb_false_r.
  - unfold menuOutcome, menuWorld. cbn [fst snd]. rewrite Hs.
    repeat split; assumption || (now rewrite Hs).
Qed.

Lemma showsAfter_cons c cs b : showsAfter (c :: cs) b = showsAfter cs (showsAfter [c] b).
Proof. now destruct c. Qed.

(** X14.  The flag of the PhET menu keeps the assertions of the sim out of
    reach.  Take a menu with a [hide] method whose flag [isShowing] agrees
    with the sim: the menu is in the top layer and in the modal stack, once
    each, when the flag is set, and in neither when it is not.  Then in any
    sequence of calls of [show] and [hide], with assertions enabled or not,
    no call throws; the flag and the sim still agree after every sequence;
    the menu shows exactly when the last call was [show]; and the other
    children of the top layer and entries of the modal stack stay as they
    were, in the same order. *)
Theorem phetMenu_calls_never_throw h self cs : forall w,
  hasHide self = true ->
  menuConsistent self w ->
  let r := callMenus h self cs w in
  Forall (fun o => o = Ret tt) (menuOutcome r)
  /\ menuConsistent self (menuWorld r)
  /\ isShowing (menuWorld r) = showsAfter cs (isShowing w)
  /\ otherPopups self (topLayer (joist_sim (menuWorld r)))
     = otherPopups self (topLayer (joist_sim w))
  /\ otherPopups self (modalNodeStack (joist_sim (menuWorld r)))
     = otherPopups self (modalNodeStack (joist_sim w)).
Proof.
  induction cs as [|c cs IH]; intros w Hhide Hinv r; subst r.
  - cbn. repeat split; try apply Hinv. constructor.
  - cbn [callMenus].
    destruct (callMenu_consistent h self c w Hhide Hinv) as [Ho [Hinv1 [Hs1 [Ht1 Hm1]]]].
    destruct (callMenu h self c w) as [[o w1] t1].
    unfold menuOutcome, menuWorld in Ho, Hinv1, Hs1, Ht1, Hm1.
    cbn [fst snd] in Ho, Hinv1, Hs1, Ht1, Hm1.
    destruct (IH w1 Hhide Hinv1) as [Ho2 [Hinv2 [Hs2 [Ht2 Hm2]]]].
    destruct (callMenus h self cs w1) as [[os w2] t2].
    unfold menuOutcome, menuWorld in *. cbn [fst snd] in *.
    split; [constructor; assumption|]. split; [exact Hinv2|].
    split; [now rewrite showsAfter_cons, Hs2, Hs1|].
    split; congruence.
Qed.

(** The theorem above with assertions enabled, for a menu shown twice,
    hidden twice and shown again, over a sim that shows a dialog. *)
Lemma phetMenu_calls_never_throw_witness :
  let w := mkPhetMenuWorld false (Some 7%nat)
             (state_of (showPopup developmentHost dialogPopup true runningSim)) in
  let r := callMenus developmentHost menuPopup
             [MenuShow; MenuShow; MenuHide; MenuHide; MenuShow] w in
  Forall (fun o => o = Ret tt) (menuOutcome r)
  /\ isShowing (menuWorld r) = true
  /\ otherPopups menuPopup (modalNodeStack (joist_sim (menuWorld r))) = [dialogPopup].
Proof.
  cbv zeta.
  pose proof (phetMenu_calls_never_throw developmentHost menuPopup
                [MenuShow; MenuShow; MenuHide; MenuHide; MenuShow]
                (mkPhetMenuWorld false (Some 7%nat)
                   (state_of (showPopup developmentHost dialogPopup true runningSim)))
                eq_refl (conj eq_refl eq_refl)) as H.
  cbv zeta in H. destruct H as [H1 [_ [H3 [_ H5]]]].
  split; [exact H1|]. split; [exact H3|exact H5].
Defined.

(** X15.  What a failed call leaves behind.  With assertions enabled, take
    a menu with a [hide] method whose flag disagrees with the sim.  When
    the flag is clear but the menu is a child of the top layer, [show]
    throws, the sim and the flag stay as they were, and the focus is lost
    all the same.  When the flag is set but the menu is not in the modal
    stack, [hide] throws and leaves the sim as it was, with the flag
    cleared: the next [hide] does nothing. *)
Theorem phetMenu_failed_calls h self w :
  assertions h = true ->
  hasHide self = true ->
  (isShowing w = false ->
   includes (topLayer (joist_sim w)) self = true ->
   PhetMenu_show h self w
   = (Throw "popup already shown", mkPhetMenuWorld false None (joist_sim w), []))
  /\ (isShowing w = true ->
      includes (modalNodeStack (joist_sim w)) self = false ->
      let r := PhetMenu_hide h self w in
      r = (Throw "Assertion failed",
           mkPhetMenuWorld false (Display_focus w) (joist_sim w), [])
      /\ PhetMenu_hide h self (menuWorld r) = (Ret tt, menuWorld r, [])).
Proof.
  intros Ha Hhide. split.
  - intros Hs Hin. unfold PhetMenu_show. rewrite Hs. cbn [negb].
    now rewrite (showPopup_throws_when_shown h _ self true Ha Hhide Hin).
  - intros Hs Hin. cbv zeta.
    assert (E : PhetMenu_hide h self w
                = (Throw "Assertion failed",
                   mkPhetMenuWorld false (Display_focus w) (joist_sim w), [])).
    { unfold PhetMenu_hide. rewrite Hs.
      now rewrite (hidePopup_throws_not_modal h _ self true Ha Hin). }
    rewrite E. split; reflexivity.
Qed.

(** The theorem above for a menu that the sim shows although the flag of
    the menu is clear. *)
Lemma phetMenu_failed_calls_witness :
  PhetMenu_show developmentHost menuPopup
    (mkPhetMenuWorld false (Some 7%nat)
       (state_of (showPopup developmentHost menuPopup true runningSim)))
  = (Throw "popup already shown",
     mkPhetMenuWorld false None
       (state_of (showPopup developmentHost menuPopup true runningSim)), []).
Proof.
  apply (phetMenu_failed_calls developmentHost menuPopup
           (mkPhetMenuWorld false (Some 7%nat)
              (state_of (showPopup developmentHost menuPopup true runningSim)))
           eq_refl eq_refl); reflexivity.
Defined.

(** ** After PhET-iO has set the state *)

(** X16.  [updateViews] brings the views up to date without letting time
    pass.  With a screen selected, in a window of positive area, it
    returns; it applies the size of the window and clears the pending flag;
    it steps the view of the selected screen, if that has a step, exactly
    once and with a step of zero, whatever the speed and the cap are; it
    steps no model; it leaves the frame counter, the elapsed time and the
    recorded clock readings as they were; and the display is updated on the
    next tick only. *)
Theorem updateViews_steps_view_only h s scr :
  nth_error (screens s) (screenProperty s) = Some scr ->
  0 < innerWidth h -> 0 < innerHeight h ->
  let r := updateViews h s in
  outcome r = Ret tt
  /\ filter isModelStep (trace_of r) = []
  /\ filter isViewStep (trace_of r)
     = (if viewHasStep scr then [ViewStep (screenProperty s) 0] else [])
  /\ filter isDisplayUpdate (trace_of r) = [RunOnNextTickUpdateDisplay]
  /\ clockOf (state_of r) = clockOf s
  /\ resizePending (state_of r) = false
  /\ dimensionProperty (state_of r) = mkDimension2 (innerWidth h) (innerHeight h).
Proof.
  intros Hscr Hw Hh r. subst r.
  assert (Hk : keeps clockOf (updateViews h)).
  { unfold updateViews, resizeToWindow, resize, resizeAction, currentScreen, assert_.
    keeps_tac. }
  assert (Hd : logsOnly (fun e => negb (isDisplayUpdate e)) (resizeToWindow h)).
  { unfold resizeToWindow, resize, resizeAction, assert_. logs_tac. }
  specialize (Hk s). specialize (Hd s). revert Hk.
  destruct (resizeToWindow_run h s Hw Hh)
    as [s' [t [Hrun [Hp [Hdim [_ [_ [Hsc [Hsp [_ [Hnm Hnv]]]]]]]]]]].
  rewrite Hrun in Hd. unfold trace_of in Hd. cbn [snd] in Hd.
  unfold updateViews. rewrite (bind_run_Ret _ _ _ _ _ _ Hrun).
  rewrite <- Hsc, <- Hsp in Hscr. rewrite (currentScreen_run _ _ _ Hscr). run.
  unfold prepend, outcome, state_of, trace_of. cbn [fst snd]. intros Hk.
  rewrite !filter_app, Hnm, Hnv, Hsp.
  assert (Hnd : filter isDisplayUpdate t = []).
  { clear -Hd. induction t as [|e t IH]; [reflexivity|].
    cbn in Hd. apply andb_true_iff in Hd. destruct Hd as [He Ht].
    cbn. apply negb_true_iff in He. rewrite He. now apply IH. }
  rewrite Hnd.
  destruct (viewHasStep scr); cbn; now repeat split.
Qed.

(** The theorem above for the sample sim. *)
Lemma updateViews_steps_view_only_witness :
  filter isModelStep (trace_of (updateViews productionHost runningSim)) = []
  /\ clockOf (state_of (updateViews productionHost runningSim)) = clockOf runningSim.
Proof.
  split;
    apply (updateViews_steps_view_only productionHost runningSim
             (mkScreen None true true true true) eq_refl eq_refl eq_refl).
Defined.

(** ** After [destroy] *)

Lemma destroyed_sim_ticks h : forall ticks s,
  destroyed s = true ->
  forallb isNotFrameRequest (trace_of (runAnimationLoops h ticks s)) = true
  /\ destroyed (state_of (runAnimationLoops h ticks s)) = true.
Proof.
  induction ticks as [|[t1 c1] ticks IH]; intros s Hd; [now split|].
  unfold runAnimationLoops. cbn [forEach fst snd]. fold (runAnimationLoops h ticks).
  pose proof (destroyed_sim_requests_no_frame h s t1 c1 Hd) as Hlog.
  pose proof (runAnimationLoop_keeps h t1 c1 s) as Hk.
  injection Hk as _ _ _ _ _ _ Hd1. rewrite Hd in Hd1.
  destruct (runAnimationLoop h t1 c1 s) as [[[[]|msg] s1] tr] eqn:E1;
    unfold state_of, trace_of in Hlog, Hd1; cbn [fst snd] in Hlog, Hd1.
  - rewrite (bind_run_Ret _ _ _ _ _ _ E1).
    rewrite state_of_prepend, trace_of_prepend, forallb_app, Hlog.
    apply (IH s1 Hd1).
  - rewrite (bind_run_Throw _ _ _ _ _ _ E1). now split.
Qed.

(** X17.  [destroy] stops the animation loop for good: in any sequence of
    ticks that follows a call of [destroy], whatever the clock reads, no
    tick requests another animation frame, and the sim stays destroyed. *)
Theorem destroy_stops_frame_requests h ticks s :
  let r := runAnimationLoops h ticks (state_of (destroy s)) in
  outcome (destroy s) = Ret tt
  /\ forallb isNotFrameRequest (trace_of r) = true
  /\ destroyed (state_of r) = true.
Proof.
  cbv zeta. split; [reflexivity|].
  apply destroyed_sim_ticks. reflexivity.
Qed.

(** ** Start-up *)

Lemma prependS_triple {A} (t t' : list StartEvent) (o : Outcome A) (w : StartState) :
  prependS t (o, w, t') = (o, w, t ++ t').
Proof. reflexivity. Qed.

Lemma prependS_nil {A} (r : Outcome A * StartState * list StartEvent) :
  prependS [] r = r.
Proof. destruct r as [[o w] t]. reflexivity. Qed.

Lemma prependS_prependS {A} (t t' : list StartEvent)
      (r : Outcome A * StartState * list StartEvent) :
  prependS t (prependS t' r) = prependS (t ++ t') r.
Proof. destruct r as [[o w] u]. unfold prependS. simpl. now rewrite app_assoc. Qed.

Lemma outcomeS_prependS {A} t (r : Outcome A * StartState * list StartEvent) :
  outcomeS (prependS t r) = outcomeS r.
Proof. reflexivity. Qed.

Lemma stateS_prependS {A} t (r : Outcome A * StartState * list StartEvent) :
  stateS (prependS t r) = stateS r.
Proof. reflexivity. Qed.

Lemma traceS_prependS {A} t (r : Outcome A * StartState * list StartEvent) :
  traceS (prependS t r) = t ++ traceS r.
Proof. reflexivity. Qed.

Lemma bindS_retS {A B} (a : A) (f : A -> MS B) w : bindS (retS a) f w = f a w.
Proof. unfold bindS, retS. destruct (f a w) as [[o w2] t2]. reflexivity. Qed.

Lemma bindS_getS {B} (f : StartState -> MS B) w : bindS getS f w = f w w.
Proof. unfold bindS, getS. destruct (f w w) as [[o w2] t2]. reflexivity. Qed.

Lemma bindS_modifyS {B} (g : StartState -> StartState) (f : unit -> MS B) w :
  bindS (modifyS g) f w = f tt (g w).
Proof. unfold bindS, modifyS. destruct (f tt (g w)) as [[o w2] t2]. reflexivity. Qed.

Lemma bindS_emitS {B} (e : StartEvent) (f : unit -> MS B) w :
  bindS (emitS e) f w = prependS [e] (f tt w).
Proof. unfold bindS, emitS. destruct (f tt w) as [[o w2] t2]. reflexivity. Qed.

Lemma bindS_throwS {A B} (msg : string) (f : A -> MS B) w :
  bindS (throwS msg) f w = (Throw msg, w, []).
Proof. reflexivity. Qed.

Lemma bindS_assoc {A B C} (m : MS A) (f : A -> MS B) (g : B -> MS C) w :
  bindS (bindS m f) g w = bindS m (fun x => bindS (f x) g) w.
Proof.
  unfold bindS. destruct (m w) as [[[a|msg] w1] t1]; [|reflexivity].
  destruct (f a w1) as [[[b|msg] w2] t2]; [|reflexivity].
  destruct (g b w2) as [[o w3] t3]. now rewrite app_assoc.
Qed.

Lemma bindS_run_Ret {A B} (m : MS A) (f : A -> MS B) w a w1 t1 :
  m w = (Ret a, w1, t1) -> bindS m f w = prependS t1 (f a w1).
Proof.
  intros H. unfold bindS. rewrite H. destruct (f a w1) as [[o w2] t2]. reflexivity.
Qed.

Lemma run_emitS (e : StartEvent) w : emitS e w = (Ret tt, w, [e]).
Proof. reflexivity. Qed.

Lemma run_retS {A} (a : A) w : retS a w = (Ret a, w, []).
Proof. reflexivity. Qed.

Lemma bindS_whenS_true {B} (m : MS unit) (f : unit -> MS B) w :
  bindS (whenS true m) f w = bindS m f w.
Proof. reflexivity. Qed.

Lemma bindS_whenS_false {B} (m : MS unit) (f : unit -> MS B) w :
  bindS (whenS false m) f w = f tt w.
Proof. unfold whenS. apply bindS_retS. Qed.

(** A computation of the sim that returns, as a step of start-up. *)
Lemma bindS_liftSim {A B} (m : M A) (f : A -> MS B) s linked a s1 t1 :
  m s = (Ret a, s1, t1) ->
  bindS (liftSim m) f (mkStartState s linked)
  = prependS (map SimEvent t1) (f a (mkStartState s1 linked)).
Proof.
  intros H. apply bindS_run_Ret. unfold liftSim. cbn [sim_of linkedBackgrounds].
  now rewrite H.
Qed.

Create Rewrite HintDb runS.
#[local] Hint Rewrite @run_emitS @run_retS @bindS_assoc @bindS_retS @bindS_getS
  @bindS_modifyS @bindS_emitS @bindS_throwS @bindS_whenS_true @bindS_whenS_false
  @prependS_prependS @prependS_triple : runS.

Ltac runS := repeat (autorewrite with runS; cbv beta).

Lemma linksOf_app t t' : linksOf (t ++ t') = linksOf t ++ linksOf t'.
Proof.
  induction t as [|e t IH]; [reflexivity|]. destruct e; cbn; now rewrite IH.
Qed.

(** *** The work items *)

Lemma workItems_length_from n : forall k,
  List.length (flat_map (fun screen => [ModelItem screen; ViewItem screen]) (seq k n))
  = (2 * n)%nat.
Proof.
  induction n as [|n IH]; intros k; [reflexivity|].
  cbn [seq flat_map app List.length]. rewrite IH. lia.
Qed.

Lemma workItems_length n : List.length (workItems n) = (2 * n)%nat.
Proof. apply workItems_length_from. Qed.

Lemma workItems_nth n : forall k i,
  (i < n)%nat ->
  nth_error (flat_map (fun screen => [ModelItem screen; ViewItem screen]) (seq k n))
            (2 * i) = Some (ModelItem (k + i))
  /\ nth_error (flat_map (fun screen => [ModelItem screen; ViewItem screen]) (seq k n))
               (2 * i + 1) = Some (ViewItem (k + i)).
Proof.
  induction n as [|n IH]; intros k i Hi; [lia|].
  cbn [seq flat_map app]. destruct i as [|i].
  - cbn. now rewrite Nat.add_0_r.
  - replace (2 * S i)%nat with (S (S (2 * i))) by lia.
    replace (S (S (2 * i)) + 1)%nat with (S (S (2 * i + 1))) by lia.
    cbn [nth_error]. replace (k + S i)%nat with (S k + i)%nat by lia.
    apply IH. lia.
Qed.

Lemma runWorkItem_model sh screen s linked :
  let property := backgroundColorProperty sh screen in
  runWorkItem sh (ModelItem screen) (mkStartState s linked)
  = (Ret tt,
     mkStartState s (if existsb (Nat.eqb property) linked then linked
                     else linked ++ [property]),
     (if existsb (Nat.eqb property) linked then []
      else [BackgroundColorPropertyLink property; SimEvent UpdateBackground])
     ++ [InitializeModel screen]).
Proof.
  intros property. unfold runWorkItem. fold property. runS.
  cbn [linkedBackgrounds sim_of].
  destruct (existsb (Nat.eqb property) linked); cbn [negb]; runS; [reflexivity|].
  cbn [sim_of linkedBackgrounds].
  rewrite (bindS_liftSim updateBackground _ s _ tt s [UpdateBackground]) by reflexivity.
  runS. reflexivity.
Qed.

Lemma runWorkItem_view sh screen s linked :
  runWorkItem sh (ViewItem screen) (mkStartState s linked)
  = (Ret tt, mkStartState s linked,
     [InitializeView screen (List.length (screens s))
        (match homeScreen sh with
         | Some home => Nat.eqb home screen
         | None => false
         end)]).
Proof. unfold runWorkItem. runS. reflexivity. Qed.

Lemma bindS_whenS_emitS {B} (c : bool) (e : StartEvent) (f : unit -> MS B) w :
  bindS (whenS c (emitS e)) f w = prependS (if c then [e] else []) (f tt w).
Proof. destruct c; runS; [reflexivity|]. now rewrite prependS_nil. Qed.

(** The two timers that work on the screen [k]. *)
Lemma runItem_screen h sh s stepTime currentTime k linked timers :
  (k < List.length (screens s))%nat ->
  let n := List.length (screens s) in
  let property := backgroundColorProperty sh k in
  let linked' := if existsb (Nat.eqb property) linked then linked
                 else linked ++ [property] in
  runItem h sh (workItems n) stepTime currentTime (S (S timers)) (2 * k)
          (mkStartState s linked)
  = prependS (screenWork sh n linked k)
      ((if (k + 1 <? n)%nat
        then runItem h sh (workItems n) stepTime currentTime timers (2 * (k + 1))
        else finishStart h sh stepTime currentTime)
         (mkStartState s linked')).
Proof.
  intros Hk n property linked'.
  destruct (workItems_nth n 0 k Hk) as [Hm Hv]. fold (workItems n) in Hm, Hv.
  cbn [Nat.add] in Hm, Hv.
  cbn [runItem]. rewrite Hm.
  rewrite (bindS_run_Ret _ _ _ _ _ _ (runWorkItem_model sh k s linked)).
  fold property. fold linked'.
  rewrite bindS_whenS_emitS, prependS_prependS.
  assert (H1 : (2 * k + 1 <? List.length (workItems n))%nat = true)
    by (apply Nat.ltb_lt; rewrite workItems_length; lia).
  rewrite H1, Hv.
  rewrite (bindS_run_Ret _ _ _ _ _ _ (runWorkItem_view sh k s linked')).
  rewrite bindS_whenS_emitS, !prependS_prependS.
  replace (2 * k + 1 + 1)%nat with (2 * (k + 1))%nat by lia.
  assert (H2 : (2 * (k + 1) <? List.length (workItems n))%nat = (k + 1 <? n)%nat).
  { rewrite workItems_length.
    destruct (Nat.ltb_spec (k + 1) n); [apply Nat.ltb_lt|apply Nat.ltb_ge]; lia. }
  rewrite H2. unfold screenWork. fold property. fold n.
  rewrite <- !app_assoc. reflexivity.
Qed.

(** The timers of [start] from the first work item of the screen [k] on:
    they run the work items of the remaining screens and then the last
    timer. *)
Lemma runItem_run h sh s stepTime currentTime : forall m k linked timers,
  (k + S m = List.length (screens s))%nat ->
  (2 * S m <= timers)%nat ->
  runItem h sh (workItems (List.length (screens s))) stepTime currentTime timers (2 * k)
          (mkStartState s linked)
  = prependS (workLog sh (List.length (screens s)) linked (seq k (S m)))
      (finishStart h sh stepTime currentTime
         (mkStartState s (linkedAfter sh linked (seq k (S m))))).
Proof.
  induction m as [|m IH]; intros k linked timers Hk Ht.
  - destruct timers as [|[|timers]]; try lia.
    rewrite runItem_screen by lia.
    assert (H : (k + 1 <? List.length (screens s))%nat = false)
      by (apply Nat.ltb_ge; lia).
    rewrite H. cbn [seq workLog linkedAfter]. now rewrite app_nil_r.
  - destruct timers as [|[|timers]]; try lia.
    rewrite runItem_screen by lia.
    assert (H : (k + 1 <? List.length (screens s))%nat = true)
      by (apply Nat.ltb_lt; lia).
    rewrite H, IH by lia.
    rewrite prependS_prependS.
    replace (k + 1)%nat with (S k) by lia.
    reflexivity.
Qed.

(** [start] on a sim with at least one screen: the work items, then the
    last timer. *)
Lemma start_run h sh s linked stepTime currentTime :
  (0 < List.length (screens s))%nat ->
  let n := List.length (screens s) in
  start h sh stepTime currentTime (mkStartState s linked)
  = prependS (workLog sh n linked (seq 0 n))
      (finishStart h sh stepTime currentTime
         (mkStartState s (linkedAfter sh linked (seq 0 n)))).
Proof.
  intros Hn n. unfold start. rewrite bindS_getS. cbn [sim_of]. fold n.
  destruct n as [|m] eqn:En; [lia|].
  rewrite <- En.
  change (runItem h sh (workItems n) stepTime currentTime
            (S (List.length (workItems n))) 0)
    with (runItem h sh (workItems n) stepTime currentTime
            (S (List.length (workItems n))) (2 * 0)).
  subst n. rewrite (runItem_run h sh s stepTime currentTime m 0 linked).
  - now rewrite En.
  - lia.
  - rewrite workItems_length. lia.
Qed.

(** *** What the last timer does not log *)

Section LogsOnlyS.
Variable P : StartEvent -> bool.

Lemma logsOnlyS_retS {A} (a : A) : logsOnlyS P (retS a).
Proof. intros w. reflexivity. Qed.

Lemma logsOnlyS_getS : logsOnlyS P getS.
Proof. intros w. reflexivity. Qed.

Lemma logsOnlyS_modifyS g : logsOnlyS P (modifyS g).
Proof. intros w. reflexivity. Qed.

Lemma logsOnlyS_throwS {A} msg : logsOnlyS P (@throwS A msg).
Proof. intros w. reflexivity. Qed.

Lemma logsOnlyS_emitS e : P e = true -> logsOnlyS P (emitS e).
Proof. intros H w. cbn. now rewrite H. Qed.

Lemma logsOnlyS_bindS {A B} (m : MS A) (f : A -> MS B) :
  logsOnlyS P m -> (forall a, logsOnlyS P (f a)) -> logsOnlyS P (bindS m f).
Proof.
  intros Hm Hf w. unfold bindS. specialize (Hm w).
  destruct (m w) as [[[a|msg] w1] t1]; [|exact Hm].
  specialize (Hf a w1). destruct (f a w1) as [[o w2] t2].
  unfold traceS in *. cbn [snd] in *. now rewrite forallb_app, Hm, Hf.
Qed.

Lemma logsOnlyS_whenS b m : logsOnlyS P m -> logsOnlyS P (whenS b m).
Proof. intros H. destruct b; [exact H|apply logsOnlyS_retS]. Qed.

Lemma logsOnlyS_assertS h c msg : logsOnlyS P (assertS h c msg).
Proof.
  unfold assertS. destruct (assertions h && negb c);
    [apply logsOnlyS_throwS|apply logsOnlyS_retS].
Qed.

Lemma logsOnlyS_forEachS {A} (xs : list A) (f : A -> MS unit) :
  (forall x, logsOnlyS P (f x)) -> logsOnlyS P (forEachS xs f).
Proof.
  intros H. induction xs as [|x xs IH]; [apply logsOnlyS_retS|].
  cbn [forEachS]. apply logsOnlyS_bindS; [apply H|intros _; exact IH].
Qed.

Lemma logsOnlyS_liftSim {A} (m : M A) :
  (forall e, P (SimEvent e) = true) -> logsOnlyS P (liftSim m).
Proof.
  intros H w. unfold liftSim, traceS. cbn [snd].
  induction (trace_of (m (sim_of w))) as [|e t IH]; [reflexivity|].
  cbn. now rewrite H, IH.
Qed.

End LogsOnlyS.

Ltac logsS_tac :=
  repeat first
    [ apply logsOnlyS_retS | apply logsOnlyS_getS | apply logsOnlyS_modifyS
    | apply logsOnlyS_throwS | apply logsOnlyS_assertS
    | apply logsOnlyS_emitS; reflexivity
    | apply logsOnlyS_liftSim; intros; reflexivity
    | apply logsOnlyS_whenS
    | apply logsOnlyS_forEachS; intros
    | apply logsOnlyS_bindS; [|intros] ].

(** The last timer makes no call on the screens or on their background
    properties, whether it returns or throws. *)
Lemma finishStart_no_screen_setup h sh stepTime currentTime :
  logsOnlyS (fun e => negb (isScreenSetup e)) (finishStart h sh stepTime currentTime).
Proof. unfold finishStart, finishInit. logsS_tac. Qed.

Lemma no_screen_setup_filter t :
  forallb (fun e => negb (isScreenSetup e)) t = true ->
  filter isInitialize t = [] /\ linksOf t = [].
Proof.
  induction t as [|e t IH]; [now split|].
  cbn [forallb]. intros H. apply andb_true_iff in H. destruct H as [He Ht].
  destruct (IH Ht) as [H1 H2]. destruct e; cbn in *; try discriminate; now split.
Qed.

(** *** The log of the work items *)

Lemma workLog_initializations sh n : forall l linked,
  filter isInitialize (workLog sh n linked l)
  = flat_map (fun screen =>
                [InitializeModel screen;
                 InitializeView screen n
                   (match homeScreen sh with
                    | Some home => Nat.eqb home screen
                    | None => false
                    end)]) l.
Proof.
  induction l as [|k l IH]; intros linked; [reflexivity|].
  cbn [workLog flat_map]. rewrite filter_app, IH. unfold screenWork.
  destruct (existsb _ linked), (hasProgressBarForeground sh); reflexivity.
Qed.

Lemma workLog_links sh n : forall l linked,
  linked ++ linksOf (workLog sh n linked l) = linkedAfter sh linked l.
Proof.
  induction l as [|k l IH]; intros linked; [apply app_nil_r|].
  cbn [workLog linkedAfter]. rewrite linksOf_app, <- IH. unfold screenWork.
  destruct (existsb _ linked), (hasProgressBarForeground sh); cbn;
    rewrite <- ?app_assoc; reflexivity.
Qed.

Lemma existsb_eqb_In p l : existsb (Nat.eqb p) l = true <-> In p l.
Proof.
  rewrite existsb_exists. split.
  - intros [x [Hin Hx]]. apply Nat.eqb_eq in Hx. now subst x.
  - intros H. exists p. split; [exact H|apply Nat.eqb_refl].
Qed.

Lemma linkedAfter_NoDup sh : forall l linked,
  NoDup linked -> NoDup (linkedAfter sh linked l).
Proof.
  induction l as [|k l IH]; intros linked Hnd; [exact Hnd|].
  cbn [linkedAfter]. apply IH.
  destruct (existsb (Nat.eqb (backgroundColorProperty sh k)) linked) eqn:E;
    [exact Hnd|].
  apply NoDup_app; [exact Hnd|repeat constructor; intros []|].
  intros x Hx [Hx'|[]]. subst x.
  apply existsb_eqb_In in Hx. congruence.
Qed.

Lemma linkedAfter_incl sh : forall l linked p,
  In p linked -> In p (linkedAfter sh linked l).
Proof.
  induction l as [|k l IH]; intros linked p Hp; [exact Hp|].
  cbn [linkedAfter]. apply IH.
  destruct (existsb _ linked); [exact Hp|]. apply in_or_app. now left.
Qed.

Lemma linkedAfter_covers sh : forall l linked k,
  In k l -> In (backgroundColorProperty sh k) (linkedAfter sh linked l).
Proof.
  induction l as [|k' l IH]; intros linked k Hin; [destruct Hin|].
  destruct Hin as [Hk|Hk].
  - subst k'. cbn [linkedAfter]. apply linkedAfter_incl.
    destruct (existsb _ linked) eqn:E; [now apply existsb_eqb_In|].
    apply in_or_app. right. now left.
  - cbn [linkedAfter]. now apply IH.
Qed.

Lemma linkedAfter_only sh : forall l linked p,
  In p (linkedAfter sh linked l) ->
  In p linked \/ exists k, In k l /\ backgroundColorProperty sh k = p.
Proof.
  induction l as [|k l IH]; intros linked p Hp; [now left|].
  cbn [linkedAfter] in Hp. apply IH in Hp. destruct Hp as [Hp|[k' [Hk' E]]].
  - destruct (existsb _ linked); [now left|].
    apply in_app_or in Hp. destruct Hp as [Hp|[Hp|[]]]; [now left|].
    right. exists k. split; [now left|exact Hp].
  - right. exists k'. split; [now right|exact E].
Qed.

Lemma workLog_work_calls sh n : forall l linked,
  forallb isWorkCall (workLog sh n linked l) = true.
Proof.
  induction l as [|k l IH]; intros linked; [reflexivity|].
  cbn [workLog]. rewrite forallb_app, IH. unfold screenWork.
  destruct (existsb _ linked), (hasProgressBarForeground sh); reflexivity.
Qed.

(** X18.  [start] initializes the screens in order, and finishes only then.
    For a sim with at least one screen, the initializations that [start]
    logs are, screen by screen in the order of [this.screens], the model of
    the screen and then its view; they all come in the first part of the
    log, which holds nothing but the calls of the work items, and what
    follows it, [finishInit] and the first tick included, makes no call on
    a screen or on a background property.  This holds whether or not the
    last timer throws. *)
Theorem start_initializes_screens_in_order h sh s linked stepTime currentTime :
  (0 < List.length (screens s))%nat ->
  let r := start h sh stepTime currentTime (mkStartState s linked) in
  filter isInitialize (traceS r) = initializations sh (List.length (screens s))
  /\ exists work rest,
       traceS r = work ++ rest
       /\ forallb isWorkCall work = true
       /\ forallb (fun e => negb (isScreenSetup e)) rest = true.
Proof.
  intros Hn r. subst r. rewrite (start_run h sh s linked stepTime currentTime Hn).
  cbv zeta. unfold prependS, traceS at 1 3. cbn [snd].
  pose proof (finishStart_no_screen_setup h sh stepTime currentTime
                (mkStartState s
                   (linkedAfter sh linked (seq 0 (List.length (screens s)))))) as Hrest.
  split.
  - rewrite filter_app, workLog_initializations.
    destruct (no_screen_setup_filter _ Hrest) as [H _]. rewrite H.
    apply app_nil_r.
  - eexists. eexists. split; [reflexivity|]. split; [apply workLog_work_calls|exact Hrest].
Qed.

(** The theorem above for the sample sim before start-up. *)
Lemma start_initializes_screens_in_order_witness :
  filter isInitialize
    (traceS (start productionHost plainStart 1000 1000 (mkStartState constructedSim [])))
  = [InitializeModel 0; InitializeView 0 3 true;
     InitializeModel 1; InitializeView 1 3 false;
     InitializeModel 2; InitializeView 2 3 false].
Proof.
  assert (Hn : (0 < List.length (screens constructedSim))%nat) by (cbn; lia).
  pose proof (start_initializes_screens_in_order productionHost plainStart
                constructedSim [] 1000 1000 Hn) as H.
  cbv zeta in H. destruct H as [H _]. exact H.
Defined.

Lemma NoDup_app_disjoint (l l' : list nat) p :
  NoDup (l ++ l') -> In p l -> In p l' -> False.
Proof.
  induction l as [|x l IH]; intros Hnd Hin Hp; [destruct Hin|].
  inversion Hnd as [|y m Hx Hl]; subst.
  destruct Hin as [E|Hin]; [|now apply IH].
  subst x. apply Hx. apply in_or_app. now right.
Qed.

(** X19.  [start] links [updateBackground] to every background property
    once.  For a sim with at least one screen, when no background property
    has the listener twice beforehand, none has it twice afterwards, however
    the screens share their properties; the property of every screen has
    it; and [start] links only properties of screens. *)
Theorem start_links_each_background_once h sh s linked stepTime currentTime :
  (0 < List.length (screens s))%nat ->
  NoDup linked ->
  let r := start h sh stepTime currentTime (mkStartState s linked) in
  let links := linksOf (traceS r) in
  NoDup (linked ++ links)
  /\ (forall k, (k < List.length (screens s))%nat ->
                In (backgroundColorProperty sh k) (linked ++ links))
  /\ (forall p, In p links ->
                exists k, (k < List.length (screens s))%nat
                          /\ backgroundColorProperty sh k = p).
Proof.
  intros Hn Hnd r links. subst links r.
  rewrite (start_run h sh s linked stepTime currentTime Hn).
  cbv zeta. unfold prependS, traceS at 1 3 5. cbn [snd].
  pose proof (finishStart_no_screen_setup h sh stepTime currentTime
                (mkStartState s
                   (linkedAfter sh linked (seq 0 (List.length (screens s)))))) as Hrest.
  destruct (no_screen_setup_filter _ Hrest) as [_ H].
  rewrite linksOf_app, H, app_nil_r, workLog_links.
  split; [now apply linkedAfter_NoDup|]. split.
  - intros k Hk. apply linkedAfter_covers. apply in_seq. lia.
  - intros p Hp.
    assert (Hin : In p (linkedAfter sh linked (seq 0 (List.length (screens s))))).
    { rewrite <- (workLog_links sh (List.length (screens s))).
      apply in_or_app. now right. }
    pose proof (linkedAfter_NoDup sh (seq 0 (List.length (screens s))) linked Hnd) as Hnd'.
    rewrite <- (workLog_links sh (List.length (screens s))) in Hnd'.
    apply linkedAfter_only in Hin. destruct Hin as [Hin|[k [Hk E]]].
    + exfalso. exact (NoDup_app_disjoint _ _ _ Hnd' Hin Hp).
    + exists k. split; [apply in_seq in Hk; lia|exact E].
Qed.

(** The theorem above for three screens that share one background
    property: it is linked once. *)
Lemma start_links_each_background_once_witness :
  NoDup ([] ++ linksOf (traceS (start productionHost sharedBackgroundStart 1000 1000
                                  (mkStartState constructedSim [])))).
Proof.
  assert (Hn : (0 < List.length (screens constructedSim))%nat) by (cbn; lia).
  pose proof (start_links_each_background_once productionHost sharedBackgroundStart
                constructedSim [] 1000 1000 Hn (NoDup_nil nat)) as H.
  cbv zeta in H. destruct H as [H _]. exact H.
Defined.

(** *** The last timer *)

Lemma bindS_forEachS_emits {A B} (xs : list A) (f : A -> MS unit)
      (g : A -> list StartEvent) (k : unit -> MS B) w :
  (forall x w, f x w = (Ret tt, w, g x)) ->
  bindS (forEachS xs f) k w = prependS (flat_map g xs) (k tt w).
Proof.
  intros Hf. apply bindS_run_Ret.
  induction xs as [|x xs IH]; [reflexivity|].
  cbn [forEachS flat_map]. rewrite (bindS_run_Ret _ _ _ _ _ _ (Hf x w)), IH.
  reflexivity.
Qed.

(** [resizeToWindow] in a window of positive area. *)
Lemma resizeToWindow_result h s :
  0 < innerWidth h -> 0 < innerHeight h ->
  exists t,
    resizeToWindow h s
    = (Ret tt,
       set_screenBoundsProperty
         (Some (contentBounds h (set_resizePending false s) (innerWidth h) (innerHeight h)))
         (set_boundsProperty (Some (mkBounds2 0 0 (innerWidth h) (innerHeight h)))
            (set_scaleProperty
               (Qmin (innerWidth h / Bounds2_width LAYOUT_BOUNDS)
                     (innerHeight h / Bounds2_height LAYOUT_BOUNDS))
               (set_dimensionProperty (mkDimension2 (innerWidth h) (innerHeight h))
                  (set_resizePending false s)))),
       t)
    /\ filter isModelStep t = [] /\ filter isViewStep t = []
    /\ forallb isNotFrameRequest t = true.
Proof.
  intros Hw Hh.
  destruct (resizeToWindow_run h s Hw Hh) as [s' [t [Hrun [_ [_ [_ [_ [_ [_ [_ [Hm Hv]]]]]]]]]]].
  assert (Hl : logsOnly isNotFrameRequest (resizeToWindow h)).
  { unfold resizeToWindow, resize, resizeAction, assert_. logs_tac. }
  specialize (Hl s). rewrite Hrun in Hl. unfold trace_of in Hl. cbn [snd] in Hl.
  destruct (positive_area_guards h _ _ Hw Hh) as [Ha Hz].
  revert Hrun. unfold resizeToWindow, resize. rewrite bind_modify.
  rewrite (resizeAction_nonzero h _ _ _ Ha Hz). intros Hrun.
  apply (f_equal snd) in Hrun. cbn [snd] in Hrun.
  eexists. split; [reflexivity|]. rewrite Hrun. now repeat split.
Qed.

Lemma finishInit_run h sh s linked :
  0 < innerWidth h -> 0 < innerHeight h ->
  warnings sh = 0%nat ->
  exists t,
    finishInit h sh (mkStartState s linked)
    = (Ret tt, mkStartState (initialized h s) linked, t).
Proof.
  intros Hw Hh Hwarn. unfold finishInit. rewrite bindS_getS. cbn [sim_of].
  rewrite (bindS_forEachS_emits _ _
             (fun screen => [ViewSetLayerSplit screen;
                             SimulationRootAddChild (ScreenViewChild screen)]))
    by (intros x w; runS; reflexivity).
  runS.
  assert (Htool : forall (k : unit -> MS unit) w,
             bindS (whenS (hasToolbar s)
                      (emitS (SimulationRootAddChild ToolbarChild);;
                       emitS SimulationRootSetPdomOrderToolbar)%start) k w
             = prependS (if hasToolbar s
                         then [SimulationRootAddChild ToolbarChild;
                               SimulationRootSetPdomOrderToolbar]
                         else []) (k tt w)).
  { intros k w. destruct (hasToolbar s); runS; [reflexivity|].
    now rewrite prependS_nil. }
  rewrite Htool. runS.
  rewrite (bindS_liftSim _ _ _ _ _ _ _ (screenListener_run _ _)). runS.
  rewrite (bindS_liftSim (modify (set_topLayer [])) _ _ _ tt _ [] eq_refl). runS.
  rewrite (bindS_liftSim (modify (set_modalNodeStack [])) _ _ _ tt _ [] eq_refl). runS.
  rewrite bindS_whenS_emitS. runS.
  match goal with
  | |- context [liftSim (resizeToWindow h)] =>
      destruct (resizeToWindow_result h
                  (set_modalNodeStack []
                     (set_topLayer []
                        (set_screens (showScreens (screenProperty s) 0 (screens s)) s)))
                  Hw Hh) as [t [Hrun [Hm [Hv Hf]]]]
  end.
  rewrite (bindS_liftSim _ _ _ _ _ _ _ Hrun). runS.
  rewrite (bindS_liftSim (modify (set_lastStepTime (-1))) _ _ _ tt _ [] eq_refl). runS.
  rewrite (bindS_liftSim (modify (set_lastAnimationFrameTime (-1))) _ _ _ tt _ [] eq_refl).
  runS. rewrite Hwarn. cbn [Nat.eqb negb whenS]. runS.
  eexists. reflexivity.
Qed.

Lemma showScreens_nth_error selected : forall l i j scr,
  nth_error l j = Some scr ->
  nth_error (showScreens selected i l) j
  = Some (mkScreen (maxDT scr) (modelHasStep scr) (viewHasStep scr)
            (Nat.eqb (i + j) selected) (Nat.eqb (i + j) selected)).
Proof.
  induction l as [|x l IH]; intros i j scr H; [destruct j; discriminate|].
  destruct j as [|j]; cbn in H |- *.
  - inversion H; subst. now rewrite Nat.add_0_r.
  - rewrite (IH (S i) j scr H). now rewrite Nat.add_succ_r.
Qed.

(** The size of the sim after a tick that steps the simulation. *)
Lemma tick_geometry h scr s stepTime currentTime :
  activeProperty s = true ->
  playbackModeEnabled h = false ->
  nth_error (screens s) (screenProperty s) = Some scr ->
  0 < innerWidth h -> 0 < innerHeight h ->
  0 < getDT (lastStepTime s) stepTime ->
  let r := runAnimationLoop h stepTime currentTime s in
  resizePending (state_of r) = false
  /\ dimensionProperty (state_of r)
     = (if resizePending s then mkDimension2 (innerWidth h) (innerHeight h)
        else dimensionProperty s)
  /\ lastAnimationFrameTime (state_of r) = currentTime.
Proof.
  intros Ha Hp Hscr Hw Hh Hdt r. subst r.
  unfold runAnimationLoop. run. rewrite Ha, Hp. cbn [negb andb].
  rewrite bind_when_true. unfold stepOneFrame. run.
  rewrite (Qpositive_true _ Hdt), bind_when_true.
  unfold stepSimulation.
  destruct (stepSimulationAction_run h (set_lastStepTime stepTime s) scr
              (getDT (lastStepTime s) stepTime) Hscr Hw Hh)
    as [s' [Hrun [Hrp [Hdim _]]]].
  rewrite (bind_run_Ret _ _ _ _ _ _ Hrun). run.
  unfold state_of. cbn [fst snd].
  cbn [resizePending dimensionProperty lastAnimationFrameTime set_lastAnimationFrameTime].
  cbn in Hrp, Hdim. auto.
Qed.

(** The last timer outside playback mode, when nothing is asserted in vain. *)
Lemma finishStart_run h sh s linked scr stepTime currentTime :
  nth_error (screens s) (screenProperty s) = Some scr ->
  0 < innerWidth h -> 0 < innerHeight h ->
  warnings sh = 0%nat ->
  activeProperty s = true ->
  playbackModeEnabled h = false ->
  assertions h && (brandIsPhet sh && PHET_IO_ENABLED h) = false ->
  let r := finishStart h sh stepTime currentTime (mkStartState s linked) in
  outcomeS r = Ret tt
  /\ sim_of (stateS r)
     = state_of (runAnimationLoop h stepTime currentTime (initialized h s)).
Proof.
  intros Hscr Hw Hh Hwarn Ha Hp Hbrand r. subst r.
  destruct (finishInit_run h sh s linked Hw Hh Hwarn) as [t Hfi].
  unfold finishStart. rewrite (bindS_run_Ret _ _ _ _ _ _ Hfi). runS.
  rewrite bindS_whenS_emitS. runS.
  assert (Hscr' : nth_error (screens (initialized h s)) (screenProperty (initialized h s))
                  = Some (mkScreen (maxDT scr) (modelHasStep scr) (viewHasStep scr)
                            (Nat.eqb (0 + screenProperty s) (screenProperty s))
                            (Nat.eqb (0 + screenProperty s) (screenProperty s)))).
  { cbn. now apply showScreens_nth_error. }
  assert (Hdt : 0 < getDT (lastStepTime (initialized h s)) stepTime) by reflexivity.
  destruct (tick_run h _ (initialized h s) stepTime currentTime Ha Hp Hscr' Hw Hh Hdt)
    as [Ho _].
  destruct (runAnimationLoop h stepTime currentTime (initialized h s))
    as [[o s1] t1] eqn:E1.
  unfold outcome in Ho. cbn [fst] in Ho. subst o.
  rewrite (bindS_liftSim _ _ _ _ _ _ _ E1). runS.
  rewrite Hp. cbn [whenS]. runS.
  rewrite bindS_whenS_emitS. runS.
  unfold outcomeS, stateS, state_of.
  destruct (brandIsPhet sh); cbn [whenS]; runS.
  - unfold assertS. cbn [andb] in Hbrand. rewrite negb_involutive, Hbrand. runS.
    destruct (continuousTest sh), (postMessageOnLoad sh), (windowParent sh);
      cbn [whenS]; runS; split; reflexivity.
  - destruct (continuousTest sh), (postMessageOnLoad sh), (windowParent sh);
      cbn [whenS]; runS; split; reflexivity.
Qed.

(** X20.  The first frame of a launch.  Take a sim with a screen selected,
    active, outside playback mode, in a window of positive area, without
    query-parameter warnings, the brand check passing.  Then [start]
    returns, and whatever the clock reads, the sim it leaves has stepped
    exactly once, by 1/60 s times the speed, capped by the selected screen:
    the frame counter is one higher and the elapsed time has advanced by
    that step; the clock readings of the first tick are recorded; no resize
    is pending and the sim has the size of the window; each screen is
    active and visible exactly when it is the selected one; and no popup is
    shown. *)
Theorem start_first_frame h sh s linked scr stepTime currentTime :
  nth_error (screens s) (screenProperty s) = Some scr ->
  0 < innerWidth h -> 0 < innerHeight h ->
  warnings sh = 0%nat ->
  activeProperty s = true ->
  playbackModeEnabled h = false ->
  assertions h && (brandIsPhet sh && PHET_IO_ENABLED h) = false ->
  let r := start h sh stepTime currentTime (mkStartState s linked) in
  let f := sim_of (stateS r) in
  outcomeS r = Ret tt
  /\ frameCounter f = (frameCounter s + 1)%Z
  /\ elapsedTime f = elapsedTime s + effectiveDT h scr (1 # 60) * 1000
  /\ lastStepTime f = stepTime
  /\ lastAnimationFrameTime f = currentTime
  /\ resizePending f = false
  /\ dimensionProperty f = mkDimension2 (innerWidth h) (innerHeight h)
  /\ onlySelectedShown (screens f) (screenProperty f)
  /\ topLayer f = [] /\ modalNodeStack f = [].
Proof.
  intros Hscr Hw Hh Hwarn Ha Hp Hbrand r f. subst f r.
  assert (Hn : (0 < List.length (screens s))%nat).
  { apply Nat.lt_le_trans with (S (screenProperty s)); [lia|].
    apply Nat.le_succ_l. apply nth_error_Some. congruence. }
  rewrite (start_run h sh s linked stepTime currentTime Hn). cbv zeta.
  destruct (finishStart_run h sh s
              (linkedAfter sh linked (seq 0 (List.length (screens s))))
              scr stepTime currentTime Hscr Hw Hh Hwarn Ha Hp Hbrand) as [Ho Hs].
  rewrite outcomeS_prependS, !stateS_prependS, Hs. split; [exact Ho|].
  assert (Hscr' : nth_error (screens (initialized h s)) (screenProperty (initialized h s))
                  = Some (mkScreen (maxDT scr) (modelHasStep scr) (viewHasStep scr)
                            (Nat.eqb (0 + screenProperty s) (screenProperty s))
                            (Nat.eqb (0 + screenProperty s) (screenProperty s)))).
  { cbn. now apply showScreens_nth_error. }
  assert (Hdt : 0 < getDT (lastStepTime (initialized h s)) stepTime) by reflexivity.
  destruct (tick_run h _ (initialized h s) stepTime currentTime Ha Hp Hscr' Hw Hh Hdt)
    as [_ [Hfc [Hls Hel]]].
  destruct (tick_geometry h _ (initialized h s) stepTime currentTime Ha Hp Hscr' Hw Hh Hdt)
    as [Hrp [Hdim Hlaf]].
  pose proof (runAnimationLoop_keeps h stepTime currentTime (initialized h s)) as Hk.
  unfold selectionOf, popupsOf in Hk. injection Hk as Hsc Hsp Htop Hstack _ _ _.
  split; [exact Hfc|]. split; [exact Hel|]. split; [exact Hls|].
  split; [exact Hlaf|]. split; [exact Hrp|]. split; [exact Hdim|].
  split; [|split; [exact Htop|exact Hstack]].
  rewrite Hsc, Hsp. cbn [initialized screens screenProperty set_lastAnimationFrameTime
    set_lastStepTime set_screenBoundsProperty set_boundsProperty set_scaleProperty
    set_dimensionProperty set_resizePending set_modalNodeStack set_topLayer set_screens].
  intros i scr0 Hi. apply (showScreens_nth _ _ 0 i scr0 Hi).
Qed.

(** The theorem above for the sample sim before start-up, launched at the
    clock reading 1000. *)
Lemma start_first_frame_witness :
  frameCounter
    (sim_of (stateS (start productionHost plainStart 1000 1001
                       (mkStartState constructedSim []))))
  = 1%Z.
Proof.
  pose proof (start_first_frame productionHost plainStart constructedSim []
                (mkScreen None true true false false) 1000 1001
                eq_refl eq_refl eq_refl eq_refl eq_refl eq_refl eq_refl) as H.
  cbv zeta in H. destruct H as [_ [H _]]. exact H.
Defined.

(** *** Start-up in playback mode *)

Lemma logsOnlyS_liftSim_of {A} (P : StartEvent -> bool) (m : M A) :
  logsOnly (fun e => P (SimEvent e)) m -> logsOnlyS P (liftSim m).
Proof.
  intros H w. specialize (H (sim_of w)). unfold liftSim, traceS. cbn [snd].
  induction (trace_of (m (sim_of w))) as [|e t IH]; [reflexivity|].
  cbn in H |- *. apply andb_true_iff in H. destruct H as [He Ht].
  now rewrite He, IH.
Qed.

Lemma runAnimationLoop_playback_logs h stepTime currentTime :
  playbackModeEnabled h = true ->
  logsOnly (fun e => stepsNoScreen (SimEvent e))
    (runAnimationLoop h stepTime currentTime).
Proof.
  intros Hp s.
  rewrite (runAnimationLoop_playback h s stepTime currentTime Hp).
  unfold trace_of. cbn [snd].
  now destruct (destroyed s), (PHET_IO_ENABLED h).
Qed.

Lemma finishStart_playback_logs h sh stepTime currentTime :
  playbackModeEnabled h = true ->
  logsOnlyS stepsNoScreen (finishStart h sh stepTime currentTime).
Proof.
  intros Hp. unfold finishStart, finishInit.
  repeat first
    [ apply logsOnlyS_retS | apply logsOnlyS_getS | apply logsOnlyS_modifyS
    | apply logsOnlyS_throwS | apply logsOnlyS_assertS
    | apply logsOnlyS_emitS; reflexivity
    | apply logsOnlyS_whenS
    | apply logsOnlyS_forEachS; intros
    | apply logsOnlyS_bindS; [|intros]
    | apply logsOnlyS_liftSim_of ];
    try (apply runAnimationLoop_playback_logs; exact Hp);
    unfold screenListener, showOrHideScreen, screen_activeProperty_set,
      screen_view_setVisible, updateBackground, resizeToWindow, resize, resizeAction,
      showPopup, modalNodeStack_push, topLayer_addChild, barrierLengthListener, assert_;
    logs_tac.
Qed.

Lemma workLog_steps_nothing sh n : forall l linked,
  forallb stepsNoScreen (workLog sh n linked l) = true.
Proof.
  induction l as [|k l IH]; intros linked; [reflexivity|].
  cbn [workLog]. rewrite forallb_app, IH. unfold screenWork.
  destruct (existsb _ linked), (hasProgressBarForeground sh); reflexivity.
Qed.

Lemma steps_nothing_filter t :
  forallb stepsNoScreen t = true ->
  filter isModelStep (simEvents t) = [] /\ filter isViewStep (simEvents t) = [].
Proof.
  induction t as [|e t IH]; [now split|].
  cbn [forallb]. intros H. apply andb_true_iff in H. destruct H as [He Ht].
  destruct (IH Ht) as [H1 H2]. destruct e; cbn [simEvents]; try (now split).
  cbn in He. apply andb_true_iff in He. destruct He as [Hm Hv].
  apply negb_true_iff in Hm. apply negb_true_iff in Hv.
  cbn [filter]. now rewrite Hm, Hv.
Qed.

Lemma bindS_assertS_pass {B} h c msg (f : unit -> MS B) w :
  assertions h && negb c = false -> bindS (assertS h c msg) f w = f tt w.
Proof. intros H. unfold assertS. rewrite H. apply bindS_retS. Qed.

(** The last timer in playback mode, when nothing is asserted in vain. *)
Lemma finishStart_playback_run h sh s linked stepTime currentTime :
  0 < innerWidth h -> 0 < innerHeight h ->
  warnings sh = 0%nat ->
  playbackModeEnabled h = true ->
  assertions h && (stepTimerDrawsRandom sh || brandIsPhet sh && PHET_IO_ENABLED h)
  = false ->
  let r := finishStart h sh stepTime currentTime (mkStartState s linked) in
  outcomeS r = Ret tt
  /\ sim_of (stateS r) = set_lastAnimationFrameTime currentTime (initialized h s)
  /\ In (SimEvent (StepTimerEmit 0)) (traceS r).
Proof.
  intros Hw Hh Hwarn Hp Hassert r. subst r.
  destruct (finishInit_run h sh s linked Hw Hh Hwarn) as [t Hfi].
  unfold finishStart. rewrite (bindS_run_Ret _ _ _ _ _ _ Hfi). runS.
  rewrite bindS_whenS_emitS. runS.
  rewrite (bindS_liftSim _ _ _ _ _ _ _
             (runAnimationLoop_playback h (initialized h s) stepTime currentTime Hp)).
  runS. rewrite Hp. cbn [whenS]. runS.
  rewrite (bindS_liftSim (emit (StepTimerEmit 0)) _ _ _ tt _ [StepTimerEmit 0] eq_refl).
  runS.
  assert (Hrandom : assertions h && negb (negb (stepTimerDrawsRandom sh)) = false).
  { rewrite negb_involutive. destruct (assertions h); [|reflexivity].
    cbn in Hassert |- *. now destruct (stepTimerDrawsRandom sh). }
  assert (Hbrand : brandIsPhet sh = true ->
                   assertions h && negb (negb (PHET_IO_ENABLED h)) = false).
  { intros Hb. rewrite negb_involutive, Hb in *. destruct (assertions h); [|reflexivity].
    cbn in Hassert |- *. destruct (stepTimerDrawsRandom sh); [discriminate|exact Hassert]. }
  rewrite (bindS_assertS_pass h _ _ _ _ Hrandom).
  rewrite bindS_whenS_emitS. runS.
  assert (Hin : forall (l1 l2 : list StartEvent),
             In (SimEvent (StepTimerEmit 0)) (l1 ++ map SimEvent [StepTimerEmit 0] ++ l2)).
  { intros l1 l2. apply in_or_app. right. now left. }
  assert (Hb : forall (k : unit -> MS unit) w,
             bindS (whenS (brandIsPhet sh)
                      (assertS h (negb (PHET_IO_ENABLED h))
                         "window.phet.preloads.phetio should not exist for phet brand"))
                   k w = k tt w).
  { intros k w. destruct (brandIsPhet sh) eqn:Eb; cbn [whenS]; [|now runS].
    now rewrite (bindS_assertS_pass h _ _ _ _ (Hbrand eq_refl)). }
  rewrite Hb.
  destruct (continuousTest sh), (postMessageOnLoad sh), (windowParent sh);
    cbn [whenS]; runS; unfold outcomeS, stateS, traceS; cbn [fst snd];
    (split; [reflexivity|]); (split; [reflexivity|]);
    rewrite !in_app_iff; cbn [map In]; intuition.
Qed.

(** X21.  In playback mode start-up steps no screen.  The log of [start]
    holds no step of a model or of a view, whether [start] returns or
    throws.  In a window of positive area, without warnings and with the
    assertions passing, [start] returns; the frame counter and the elapsed
    time are as before, no step time is recorded, and the step timer is
    flushed with a step of zero. *)
Theorem start_in_playback_steps_nothing h sh s linked stepTime currentTime :
  playbackModeEnabled h = true ->
  (0 < List.length (screens s))%nat ->
  let r := start h sh stepTime currentTime (mkStartState s linked) in
  let f := sim_of (stateS r) in
  filter isModelStep (simEvents (traceS r)) = []
  /\ filter isViewStep (simEvents (traceS r)) = []
  /\ (0 < innerWidth h -> 0 < innerHeight h ->
      warnings sh = 0%nat ->
      assertions h && (stepTimerDrawsRandom sh || brandIsPhet sh && PHET_IO_ENABLED h)
      = false ->
      outcomeS r = Ret tt
      /\ frameCounter f = frameCounter s
      /\ elapsedTime f = elapsedTime s
      /\ lastStepTime f = (-1)%Z
      /\ In (SimEvent (StepTimerEmit 0)) (traceS r)).
Proof.
  intros Hp Hn r f. subst f r.
  rewrite (start_run h sh s linked stepTime currentTime Hn). cbv zeta.
  rewrite outcomeS_prependS, !stateS_prependS, !traceS_prependS.
  set (linked' := linkedAfter sh linked (seq 0 (List.length (screens s)))).
  assert (Hlog : forallb stepsNoScreen
                   (workLog sh (List.length (screens s)) linked
                      (seq 0 (List.length (screens s)))
                    ++ traceS (finishStart h sh stepTime currentTime
                                 (mkStartState s linked'))) = true).
  { rewrite forallb_app, workLog_steps_nothing.
    apply (finishStart_playback_logs h sh stepTime currentTime Hp). }
  destruct (steps_nothing_filter _ Hlog) as [Hm Hv].
  split; [exact Hm|]. split; [exact Hv|].
  intros Hw Hh Hwarn Hassert.
  destruct (finishStart_playback_run h sh s linked' stepTime currentTime
              Hw Hh Hwarn Hp Hassert) as [Ho [Hs Hin]].
  rewrite Hs. split; [exact Ho|].
  repeat (split; [reflexivity|]).
  apply in_or_app. now right.
Qed.

(** The theorem above for the sample sim before start-up. *)
Lemma start_in_playback_steps_nothing_witness :
  filter isModelStep
    (simEvents (traceS (start playbackHost plainStart 1000 1001
                          (mkStartState constructedSim []))))
  = [].
Proof.
  assert (Hn : (0 < List.length (screens constructedSim))%nat) by (cbn; lia).
  pose proof (start_in_playback_steps_nothing playbackHost plainStart constructedSim
                [] 1000 1001 eq_refl Hn) as H.
  cbv zeta in H. destruct H as [H _]. exact H.
Defined.

(** ** The screen buttons of the navigation bar *)

(** X22.  The feedback of a screen button.  Whatever state the button and
    the navigation bar are in: the two highlights are never visible
    together; one of them is visible exactly when the button is enabled and
    looks over or pressed, the brightening one on a black bar and the
    darkening one on any other; the text is never black on a black bar and
    never white on a white one; the icon has a frame only on a black or a
    white bar; and after any assignment to the screen property of the sim,
    the button of the screen assigned, and no other, is drawn at full
    opacity. *)
Theorem screen_button_feedback showFrame selected looksPressed looksOver fill enabled :
  let look := interactionFeedback showFrame selected looksPressed looksOver fill enabled in
  brightenHighlight_visible look && darkenHighlight_visible look = false
  /\ brightenHighlight_visible look || darkenHighlight_visible look
     = enabled && (looksOver || looksPressed)
  /\ (brightenHighlight_visible look = true -> Color_equals fill Color_BLACK = true)
  /\ (darkenHighlight_visible look = true -> Color_equals fill Color_BLACK = false)
  /\ (Color_equals fill Color_BLACK = true -> text_fill look <> PaintBlack)
  /\ (Color_equals fill Color_WHITE = true -> text_fill look <> PaintWhite)
  /\ (iconFrame_stroke look <> PaintTransparent ->
      Color_equals fill Color_BLACK = true \/ Color_equals fill Color_WHITE = true)
  /\ (forall s y screen,
        let s' := state_of (screenProperty_set y s) in
        iconAndText_opacity
          (interactionFeedback showFrame (selectedProperty screen s')
             looksPressed looksOver fill enabled) == 1
        <-> screen = y).
Proof.
  cbv zeta. unfold interactionFeedback.
  cbn [brightenHighlight_visible darkenHighlight_visible text_fill iconFrame_stroke
       iconAndText_opacity].
  assert (Hbw : Color_equals fill Color_WHITE = true -> Color_equals fill Color_BLACK = false).
  { unfold Color_equals. cbn [red green blue alpha Color_BLACK Color_WHITE].
    intros H. apply andb_true_iff in H. destruct H as [H _].
    apply andb_true_iff in H. destruct H as [H _].
    apply andb_true_iff in H. destruct H as [H _].
    apply Nat.eqb_eq in H. rewrite H. reflexivity. }
  split; [destruct (Color_equals fill Color_BLACK), enabled, looksOver, looksPressed;
          reflexivity|].
  split; [destruct (Color_equals fill Color_BLACK), enabled, looksOver, looksPressed;
          reflexivity|].
  split; [destruct (Color_equals fill Color_BLACK); [reflexivity|discriminate]|].
  split; [destruct (Color_equals fill Color_BLACK); [discriminate|reflexivity]|].
  split; [intros ->; destruct selected; discriminate|].
  split; [intros H; rewrite (Hbw H); destruct selected; discriminate|].
  split.
  { destruct showFrame.
    - destruct (Color_equals fill Color_BLACK); [now left|congruence].
    - destruct (Color_equals fill Color_WHITE); [now right|congruence].
    - congruence. }
  intros s y screen.
  assert (Hsel : screenProperty (state_of (screenProperty_set y s)) = y).
  { destruct (Nat.eq_dec y (screenProperty s)) as [E|Hne].
    - subst y. now rewrite screenProperty_set_same.
    - now rewrite (screenProperty_set_run y s Hne). }
  unfold selectedProperty. rewrite Hsel.
  destruct (Nat.eqb_spec y screen) as [E|Hne].
  - split; [now intros _|reflexivity].
  - split; [|intros E; now subst].
    destruct looksPressed; intros H; discriminate H.
Qed.

(** ** Resize requests between two frames *)

Lemma resizeListeners_run h n s :
  playbackModeEnabled h = false -> (0 < n)%nat ->
  resizeListeners h n s = (Ret tt, set_resizePending true s, []).
Proof.
  intros Hp Hn. unfold resizeListeners.
  assert (H1 : forall s', resizeListener h s' = (Ret tt, set_resizePending true s', []))
    by (intros s'; unfold resizeListener; now rewrite Hp).
  destruct n as [|n]; [lia|]. clear Hn. generalize 0%nat at 1.
  revert s. induction n as [|n IH]; intros s k.
  - cbn [seq forEach]. rewrite (bind_run_Ret _ _ _ _ _ _ (H1 s)). reflexivity.
  - cbn [seq forEach] in IH |- *. rewrite (bind_run_Ret _ _ _ _ _ _ (H1 s)).
    rewrite (IH (set_resizePending true s) (S k)). reflexivity.
Qed.

Lemma stepEvents_no_resize h v i scr d e :
  filter isDimensionWrite (stepEvents h v i scr d e) = []
  /\ filter isScreenViewLayout (stepEvents h v i scr d e) = [].
Proof.
  unfold stepEvents.
  destruct (modelHasStep scr && truthy d), (hasTWEEN h), (supportsPanAndZoom h), v,
    (viewHasStep scr), (negb (PHET_IO_ENABLED h && negb (isReadyForDisplay h))),
    (memoryLimit h); split; reflexivity.
Qed.

(** What a resize to the window writes and lays out. *)
Lemma resizeToWindow_writes h s :
  0 < innerWidth h -> 0 < innerHeight h ->
  outcome (resizeToWindow h s) = Ret tt
  /\ filter isDimensionWrite (trace_of (resizeToWindow h s))
     = [DimensionPropertySet (mkDimension2 (innerWidth h) (innerHeight h))]
  /\ filter isScreenViewLayout (trace_of (resizeToWindow h s))
     = map (fun m => ScreenViewLayout m
                       (contentBounds h s (innerWidth h) (innerHeight h)))
           (seq 0 (List.length (screens s))).
Proof.
  intros Hw Hh. destruct (positive_area_guards h _ _ Hw Hh) as [Ha Hz].
  unfold resizeToWindow, resize. rewrite bind_modify.
  rewrite (resizeAction_nonzero h _ _ _ Ha Hz).
  unfold outcome, trace_of. cbn [fst snd hasToolbar topLayer screens set_resizePending].
  split; [reflexivity|]. split.
  - rewrite !filter_app.
    rewrite !filter_flat_map_none;
      try (intros p; unfold popupLayoutEvent; now destruct (hasLayout p));
      try (intros m; reflexivity).
    now destruct (hasToolbar s), (mobileSafari h).
  - rewrite !filter_app.
    rewrite (filter_flat_map_none isScreenViewLayout (popupLayoutEvent _))
      by (intros p; unfold popupLayoutEvent; now destruct (hasLayout p)).
    assert (E : forall b l,
               filter isScreenViewLayout (flat_map (fun m => [ScreenViewLayout m b]) l)
               = map (fun m => ScreenViewLayout m b) l).
    { intros b l. induction l as [|x l IH]; [reflexivity|]. cbn. now rewrite IH. }
    rewrite E.
    destruct (hasToolbar s), (mobileSafari h); cbn; now rewrite app_nil_r.
Qed.

(** X23.  Resize requests between two frames are applied once.  Outside
    playback mode, in a window of positive area and with a screen selected,
    however many resize events the window raises before the next call of
    [stepSimulation], that call writes the dimension once, with the size
    that the window has then, and lays out every screen once; and the call
    after it, when no further event has come, writes no dimension and lays
    out no screen. *)
Theorem resize_requests_are_applied_once h s scr n dt dt' :
  playbackModeEnabled h = false ->
  (0 < n)%nat ->
  nth_error (screens s) (screenProperty s) = Some scr ->
  0 < innerWidth h -> 0 < innerHeight h ->
  let requested := state_of (resizeListeners h n s) in
  let r := stepSimulation h dt requested in
  let r' := stepSimulation h dt' (state_of r) in
  filter isDimensionWrite (trace_of r)
  = [DimensionPropertySet (mkDimension2 (innerWidth h) (innerHeight h))]
  /\ List.length (filter isScreenViewLayout (trace_of r)) = List.length (screens s)
  /\ filter isDimensionWrite (trace_of r') = []
  /\ filter isScreenViewLayout (trace_of r') = [].
Proof.
  intros Hp Hn Hscr Hw Hh requested r r'. subst r' r requested.
  rewrite (resizeListeners_run h n s Hp Hn).
  change (state_of (Ret tt, set_resizePending true s, @nil Event))
    with (set_resizePending true s).
  unfold stepSimulation.
  destruct (stepSimulationAction_run h (set_resizePending true s) scr dt Hscr Hw Hh)
    as [s1 [Hrun [Hrp [_ [_ [_ [Hsc [Hsp _]]]]]]]].
  rewrite Hrun. unfold state_of, trace_of. cbn [fst snd resizePending set_resizePending].
  cbn [screens screenProperty set_resizePending] in Hsc, Hsp.
  rewrite <- Hsc, <- Hsp in Hscr.
  destruct (stepSimulationAction_run h s1 scr dt' Hscr Hw Hh) as [s2 [Hrun2 _]].
  rewrite Hrun2, Hrp. cbn [fst snd app].
  destruct (resizeToWindow_writes h
              (set_frameCounter (frameCounter (set_resizePending true s) + 1)
                 (set_resizePending true s)) Hw Hh) as [_ [Hd Hl]].
  unfold trace_of in Hd, Hl.
  destruct (stepEvents_no_resize h (hasVibrationManager (set_resizePending true s))
              (screenProperty (set_resizePending true s)) scr (effectiveDT h scr dt)
              (elapsedTime (set_resizePending true s) + effectiveDT h scr dt * 1000))
    as [Hsd Hsl].
  destruct (stepEvents_no_resize h (hasVibrationManager s1) (screenProperty s1) scr
              (effectiveDT h scr dt') (elapsedTime s1 + effectiveDT h scr dt' * 1000))
    as [Hsd' Hsl'].
  cbn [filter isDimensionWrite isScreenViewLayout].
  rewrite !filter_app, Hd, Hl, Hsd, Hsl, Hsd', Hsl', !app_nil_r, length_map, length_seq.
  repeat split; reflexivity.
Qed.

(** The theorem above for three resize events before one frame. *)
Lemma resize_requests_are_applied_once_witness :
  filter isDimensionWrite
    (trace_of (stepSimulation resizedHost (1 # 60)
                 (state_of (resizeListeners resizedHost 3 runningSim))))
  = [DimensionPropertySet (mkDimension2 800 600)].
Proof.
  assert (Hn : (0 < 3)%nat) by lia.
  pose proof (resize_requests_are_applied_once resizedHost runningSim
                (mkScreen None true true true true) 3 (1 # 60) (1 # 60)
                eq_refl Hn eq_refl eq_refl eq_refl) as H.
  cbv zeta in H. destruct H as [H _]. exact H.
Defined.

(** ** Which screen is stepped *)

Lemma steps_in_log h s scr dt :
  nth_error (screens s) (screenProperty s) = Some scr ->
  0 < innerWidth h -> 0 < innerHeight h ->
  let r := stepSimulation h dt s in
  outcome r = Ret tt
  /\ (forall i d, In (ModelStep i d) (trace_of r) \/ In (ViewStep i d) (trace_of r) ->
                  i = screenProperty s /\ d = effectiveDT h scr dt).
Proof.
  intros Hscr Hw Hh r. subst r. unfold stepSimulation.
  destruct (stepSimulationAction_run h s scr dt Hscr Hw Hh)
    as [s' [Hrun [_ [_ [_ [_ [_ [_ [_ [Hnm Hnv]]]]]]]]]].
  rewrite Hrun. unfold outcome, trace_of. cbn [fst snd].
  split; [reflexivity|].
  intros i d [[Hin|Hin]|[Hin|Hin]]; try discriminate;
    apply in_app_or in Hin; destruct Hin as [Hin|Hin].
  - exfalso. assert (Hf : In (ModelStep i d) (filter isModelStep
        (if resizePending s
         then trace_of (resizeToWindow h (set_frameCounter (frameCounter s + 1) s))
         else []))) by (apply filter_In; split; [exact Hin|reflexivity]).
    rewrite Hnm in Hf. destruct Hf.
  - now apply in_stepEvents_model in Hin.
  - exfalso. assert (Hf : In (ViewStep i d) (filter isViewStep
        (if resizePending s
         then trace_of (resizeToWindow h (set_frameCounter (frameCounter s + 1) s))
         else []))) by (apply filter_In; split; [exact Hin|reflexivity]).
    rewrite Hnv in Hf. destruct Hf.
  - now apply in_stepEvents_view in Hin.
Qed.

(** X24.  Only the selected screen is stepped.  In a window of positive
    area, after the screen at position [y] of [this.screens] has been
    assigned to the screen property, a call of [stepSimulation] returns,
    and every step of a model or of a view that it makes is a step of that
    screen, by [dt] times the speed, capped by that screen. *)
Theorem only_selected_screen_is_stepped h s scr y dt :
  nth_error (screens s) y = Some scr ->
  0 < innerWidth h -> 0 < innerHeight h ->
  let r := stepSimulation h dt (state_of (screenProperty_set y s)) in
  outcome r = Ret tt
  /\ (forall i d, In (ModelStep i d) (trace_of r) \/ In (ViewStep i d) (trace_of r) ->
                  i = y /\ d = effectiveDT h scr dt).
Proof.
  intros Hscr Hw Hh r. subst r.
  set (s1 := state_of (screenProperty_set y s)).
  assert (H1 : screenProperty s1 = y
               /\ exists scr', nth_error (screens s1) y = Some scr'
                               /\ maxDT scr' = maxDT scr).
  { subst s1. destruct (Nat.eq_dec y (screenProperty s)) as [E|Hne].
    - subst y. rewrite screenProperty_set_same. split; [reflexivity|].
      exists scr. now split.
    - rewrite (screenProperty_set_run y s Hne). unfold state_of.
      cbn [fst snd screens screenProperty set_screens set_screenProperty].
      split; [reflexivity|]. eexists. split.
      + apply (showScreens_nth_error y _ 0 y scr Hscr).
      + reflexivity. }
  destruct H1 as [Hsel [scr' [Hscr' Hcap]]].
  rewrite <- Hsel in Hscr'.
  destruct (steps_in_log h s1 scr' dt Hscr' Hw Hh) as [Ho Hsteps].
  split; [exact Ho|]. intros i d Hin. destruct (Hsteps i d Hin) as [Hi Hd].
  split; [congruence|]. rewrite Hd. unfold effectiveDT, capDT. now rewrite Hcap.
Qed.

(** The theorem above for the second content screen of the sample sim. *)
Lemma only_selected_screen_is_stepped_witness :
  outcome (stepSimulation productionHost (1 # 60)
             (state_of (screenProperty_set 2 runningSim)))
  = Ret tt.
Proof.
  pose proof (only_selected_screen_is_stepped productionHost runningSim
                (mkScreen (Some (1 # 2)) true true false false) 2 (1 # 60)
                eq_refl eq_refl eq_refl) as H.
  cbv zeta in H. destruct H as [H _]. exact H.
Defined.

(** ** The locale property *)

(** X25.  The initial locale is a fixed point of its own selection:
    selecting again from the locale selected gives the same locale.  The
    locale selected is the locale of chipper when that is valid; and it is
    valid whenever the fallback locale is. *)
Theorem validInitialLocale_is_stable localeInfo chipperLocale :
  let v := validInitialLocale localeInfo chipperLocale in
  validInitialLocale localeInfo (Some v) = v
  /\ (isLocaleValid localeInfo chipperLocale = true -> chipperLocale = Some v)
  /\ (isLocaleValid localeInfo (Some FALLBACK_LOCALE) = true ->
      isLocaleValid localeInfo (Some v) = true).
Proof.
  cbv zeta.
  assert (Hen : validInitialLocale localeInfo (Some FALLBACK_LOCALE) = FALLBACK_LOCALE).
  { unfold validInitialLocale, partialLocale.
    destruct (isLocaleValid localeInfo (Some FALLBACK_LOCALE)) eqn:E; [reflexivity|].
    change (substring 0 2 FALLBACK_LOCALE) with FALLBACK_LOCALE.
    now rewrite E. }
  assert (Hvalid : forall l, isLocaleValid localeInfo (Some l) = true ->
                             validInitialLocale localeInfo (Some l) = l).
  { intros l H. unfold validInitialLocale. now rewrite H. }
  destruct chipperLocale as [l|]; cbn [validInitialLocale partialLocale].
  - destruct (isLocaleValid localeInfo (Some l)) eqn:E1.
    + split; [now apply Hvalid|]. split; [reflexivity|now intros _].
    + destruct (isLocaleValid localeInfo (Some (substring 0 2 l))) eqn:E2.
      * split; [now apply Hvalid|]. split; [discriminate|now intros _].
      * split; [exact Hen|]. split; [discriminate|now intros H].
  - split; [exact Hen|]. split; [discriminate|now intros H].
Qed.

Lemma indexOf_range locales value :
  (-1 <= indexOf locales value < Z.of_nat (List.length locales))%Z.
Proof.
  induction locales as [|l locales IH]; [cbn; lia|].
  cbn [indexOf List.length]. destruct (String.eqb l value); [lia|].
  destruct (Z.eqb_spec (indexOf locales value) (-1)); lia.
Qed.

Lemma indexOf_nth locales : forall i value,
  NoDup locales -> nth_error locales i = Some value ->
  indexOf locales value = Z.of_nat i.
Proof.
  induction locales as [|l locales IH]; intros i value Hnd Hn; [destruct i; discriminate|].
  inversion Hnd as [|x m Hnotin Hnd']; subst.
  destruct i as [|i]; cbn in Hn.
  - inversion Hn; subst. cbn [indexOf]. now rewrite String.eqb_refl.
  - cbn [indexOf]. destruct (String.eqb_spec l value) as [E|_].
    + subst l. exfalso. apply Hnotin. now apply nth_error_In in Hn.
    + rewrite (IH i value Hnd' Hn).
      destruct (Z.eqb_spec (Z.of_nat i) (-1)); lia.
Qed.

Lemma existsb_eqb_member locales v :
  In v locales -> existsb (String.eqb v) locales = true.
Proof.
  intros H. apply existsb_exists. exists v. split; [exact H|apply String.eqb_refl].
Qed.

(** The remainder after a bump by one, from an index of the array or from
    -1. *)
Lemma bump_index n i delta :
  (0 < n)%Z -> (-1 <= i < n)%Z -> delta = 1%Z \/ delta = (-1)%Z ->
  (0 <= Z.rem (i + delta + n) n < n)%Z
  /\ ((0 <= i)%Z ->
      Z.rem (Z.rem (i + delta + n) n + - delta + n) n = i).
Proof.
  intros Hn Hi Hd.
  assert (Hrem : forall x k, (0 <= k)%Z -> (0 <= x - k * n < n)%Z ->
                             Z.rem x n = (x - k * n)%Z).
  { intros x k Hk Hx. rewrite Z.rem_mod_nonneg by nia.
    symmetry. apply (Z.mod_unique_pos x n k (x - k * n)); lia. }
  destruct (Z.eq_dec (i + delta + n) (-1)) as [E|Hne].
  - assert (n = 1%Z) by lia. subst n. rewrite E. cbn. split; [lia|]. intros H0. lia.
  - destruct (Z_lt_ge_dec (i + delta + n) n) as [Hlt|Hge].
    + rewrite (Hrem (i + delta + n)%Z 0%Z) by lia.
      split; [lia|]. intros Hi0.
      rewrite (Hrem (i + delta + n - 0 * n + - delta + n)%Z 2%Z) by lia. lia.
    + destruct (Z_lt_ge_dec (i + delta + n) (2 * n)) as [Hlt2|Hge2].
      * rewrite (Hrem (i + delta + n)%Z 1%Z) by lia.
        split; [lia|]. intros Hi0.
        rewrite (Hrem (i + delta + n - 1 * n + - delta + n)%Z 1%Z) by lia. lia.
      * rewrite (Hrem (i + delta + n)%Z 2%Z) by lia.
        split; [lia|]. intros Hi0.
        rewrite (Hrem (i + delta + n - 2 * n + - delta + n)%Z 0%Z) by lia. lia.
Qed.

(** One bump by one, with at least one locale. *)
Lemma bump_run assertions locales delta current :
  locales <> [] -> delta = 1%Z \/ delta = (-1)%Z ->
  let n := Z.of_nat (List.length locales) in
  let next := Z.rem (indexOf locales current + delta + n) n in
  exists v, nth_error locales (Z.to_nat next) = Some v
            /\ (0 <= next < n)%Z
            /\ bump assertions locales delta current = (Ret tt, v).
Proof.
  intros Hne Hd n next.
  assert (Hn : (0 < n)%Z) by (subst n; destruct locales; [congruence|cbn; lia]).
  destruct (bump_index n (indexOf locales current) delta Hn
              (indexOf_range locales current) Hd) as [Hrange _].
  fold next in Hrange.
  destruct (nth_error locales (Z.to_nat next)) as [v|] eqn:Hv.
  - exists v. split; [reflexivity|]. split; [exact Hrange|].
    unfold bump. fold n. fold next.
    destruct (Z.eqb_spec n 0); [lia|].
    unfold localeAt. destruct (Z.ltb_spec next 0); [lia|].
    rewrite Hv. unfold unguardedSet.
    now rewrite (existsb_eqb_member locales v (nth_error_In _ _ Hv)).
  - exfalso. apply nth_error_None in Hv. subst n. lia.
Qed.

(** X26.  The keyboard locale switcher never leaves the supported locales.
    With at least one locale, a bump forwards or backwards returns, with
    assertions on or off, and the locale it sets is one of [locales],
    whatever the value of the property was, a value that is not among the
    locales included. *)
Theorem bump_stays_within_locales assertions locales delta current :
  locales <> [] -> delta = 1%Z \/ delta = (-1)%Z ->
  let r := bump assertions locales delta current in
  fst r = Ret tt /\ In (snd r) locales.
Proof.
  intros Hne Hd r. subst r.
  destruct (bump_run assertions locales delta current Hne Hd) as [v [Hv [_ Hrun]]].
  rewrite Hrun. split; [reflexivity|]. exact (nth_error_In _ _ Hv).
Qed.

(** The theorem above for a value that is no locale, with assertions
    enabled. *)
Lemma bump_stays_within_locales_witness :
  fst (bump true ["de"; "en"; "fr"]%string (-1) "zz"%string) = Ret tt
  /\ In (snd (bump true ["de"; "en"; "fr"]%string (-1) "zz"%string))
        ["de"; "en"; "fr"]%string.
Proof.
  assert (Hne : ["de"; "en"; "fr"]%string <> []) by discriminate.
  exact (bump_stays_within_locales true ["de"; "en"; "fr"]%string (-1) "zz"%string
           Hne (or_intror eq_refl)).
Defined.

(** X27.  Bumping forwards and then backwards, or backwards and then
    forwards, gives the locale back: for locales without repetition (the
    sorted keys of an object) and a property whose value is one of them, a
    bump by [delta] followed by a bump by [- delta] leaves the value as it
    was, and both bumps return. *)
Theorem bump_round_trip assertions locales delta current :
  NoDup locales -> In current locales -> delta = 1%Z \/ delta = (-1)%Z ->
  let there := bump assertions locales delta current in
  let back := bump assertions locales (- delta) (snd there) in
  fst there = Ret tt /\ fst back = Ret tt /\ snd back = current.
Proof.
  intros Hnd Hin Hd there back. subst back there.
  assert (Hne : locales <> []) by (destruct locales; [destruct Hin|discriminate]).
  assert (Hd' : (- delta = 1 \/ - delta = -1)%Z) by lia.
  destruct (bump_run assertions locales delta current Hne Hd) as [v [Hv [Hrange Hrun]]].
  rewrite Hrun. cbn [fst snd].
  destruct (bump_run assertions locales (- delta) v Hne Hd') as [u [Hu [_ Hrun']]].
  rewrite Hrun'. cbn [fst snd]. split; [reflexivity|]. split; [reflexivity|].
  destruct (In_nth_error _ _ Hin) as [i Hi].
  pose proof (indexOf_nth locales i current Hnd Hi) as Ei.
  pose proof (indexOf_nth locales _ v Hnd Hv) as Ev.
  rewrite Z2Nat.id in Ev by lia.
  assert (Hn : (0 < Z.of_nat (List.length locales))%Z)
    by (destruct locales; [congruence|cbn; lia]).
  destruct (bump_index (Z.of_nat (List.length locales)) (indexOf locales current) delta
              Hn (indexOf_range locales current) Hd) as [_ Hback].
  rewrite Ev, Hback, Ei, Nat2Z.id in Hu by lia.
  congruence.
Qed.

(** The theorem above for the last of three locales, where the forward
    bump wraps around. *)
Lemma bump_round_trip_witness :
  snd (bump true ["de"; "en"; "fr"]%string (- (1))
         (snd (bump true ["de"; "en"; "fr"]%string 1 "fr"%string)))
  = "fr"%string.
Proof.
  assert (Hnd : NoDup ["de"; "en"; "fr"]%string).
  { repeat constructor; cbn; intuition discriminate. }
  assert (Hin : In "fr"%string ["de"; "en"; "fr"]%string) by (cbn; tauto).
  pose proof (bump_round_trip true ["de"; "en"; "fr"]%string 1 "fr"%string
                Hnd Hin (or_introl eq_refl)) as H.
  cbv zeta in H. destruct H as [_ [_ H]]. exact H.
Defined.

(** Forward bumps walk through the locales in order, wrapping around. *)
Lemma bumps_forward assertions locales : forall k i current,
  NoDup locales ->
  nth_error locales i = Some current ->
  nth_error locales
    (Z.to_nat ((Z.of_nat i + Z.of_nat k) mod Z.of_nat (List.length locales)))
  = Some (bumps assertions locales (repeat 1%Z k) current).
Proof.
  induction k as [|k IH]; intros i current Hnd Hi.
  - cbn [repeat bumps]. rewrite Z.add_0_r.
    assert (Hlt : (i < List.length locales)%nat) by (apply nth_error_Some; congruence).
    rewrite Z.mod_small by lia. now rewrite Nat2Z.id.
  - cbn [repeat bumps].
    assert (Hlt : (i < List.length locales)%nat) by (apply nth_error_Some; congruence).
    assert (Hne : locales <> []) by (destruct locales; [destruct i; discriminate|discriminate]).
    destruct (bump_run assertions locales 1 current Hne (or_introl eq_refl))
      as [v [Hv [Hrange Hrun]]].
    rewrite Hrun. cbn [snd].
    rewrite (indexOf_nth locales i current Hnd Hi) in Hv, Hrange.
    set (n := Z.of_nat (List.length locales)) in *.
    assert (Hnext : Z.rem (Z.of_nat i + 1 + n) n = ((Z.of_nat i + 1) mod n)%Z).
    { rewrite Z.rem_mod_nonneg by lia.
      rewrite <- (Z.mod_add (Z.of_nat i + 1) 1 n) by lia. f_equal. lia. }
    rewrite Hnext in Hv, Hrange.
    rewrite <- (IH _ v Hnd Hv). f_equal. f_equal.
    rewrite Z2Nat.id by lia. fold n.
    rewrite Z.add_mod_idemp_l by lia. f_equal. lia.
Qed.

(** X28.  The forward key walks through all the locales.  For locales
    without repetition and a property whose value is the locale at position
    [i], [k] forward bumps set the locale at position [(i + k) mod n], [n]
    being the number of locales; so [n] bumps bring the value back, and
    every locale is reached on the way. *)
Theorem forward_bumps_cycle assertions locales i current k :
  NoDup locales ->
  nth_error locales i = Some current ->
  let n := List.length locales in
  nth_error locales ((i + k) mod n) = Some (bumps assertions locales (repeat 1%Z k) current)
  /\ bumps assertions locales (repeat 1%Z n) current = current.
Proof.
  intros Hnd Hi n.
  assert (Hlt : (i < n)%nat) by (apply nth_error_Some; congruence).
  assert (Hmod : forall j, Z.to_nat ((Z.of_nat i + Z.of_nat j) mod Z.of_nat n)
                           = ((i + j) mod n)%nat).
  { intros j. rewrite <- Nat2Z.inj_add, <- Nat2Z.inj_mod. apply Nat2Z.id. }
  split.
  - rewrite <- Hmod. now apply bumps_forward.
  - pose proof (bumps_forward assertions locales n i current Hnd Hi) as H.
    fold n in H. rewrite Hmod in H.
    replace ((i + n) mod n)%nat with i in H.
    + congruence.
    + replace (i + n)%nat with (i + 1 * n)%nat by lia.
      rewrite Nat.Div0.mod_add. symmetry. now apply Nat.mod_small.
Qed.

(** The theorem above for three locales, starting from the second. *)
Lemma forward_bumps_cycle_witness :
  bumps true ["de"; "en"; "fr"]%string (repeat 1%Z 3) "en"%string = "en"%string.
Proof.
  assert (Hnd : NoDup ["de"; "en"; "fr"]%string).
  { repeat constructor; cbn; intuition discriminate. }
  pose proof (forward_bumps_cycle true ["de"; "en"; "fr"]%string 1 "en"%string 3
                Hnd eq_refl) as H.
  cbv zeta in H. destruct H as [_ H]. exact H.
Defined.

(** ** The description of the voice pitch *)

(** X29.  The ranges of the pitch descriptions cover the pitches from 0.5
    to 2, and a pitch on the border of two ranges has the description of
    the higher one: a pitch in [0.5, 0.75) is low, in [0.75, 1.25) normal,
    in [1.25, 1.5) above normal and in [1.5, 2] high, with assertions on or
    off.  For a pitch outside [0.5, 2] no description is found: the
    assertion fails, and without assertions the empty string is returned. *)
Theorem pitch_description_by_range assertions pitchValue :
  (1 # 2 <= pitchValue -> pitchValue <= 2 ->
   getPitchDescriptionString assertions pitchValue
   = Ret (Some (if Qle_bool (3 # 2) pitchValue then inHighRange
                else if Qle_bool (5 # 4) pitchValue then aboveNormalRange
                else if Qle_bool (3 # 4) pitchValue then inNormalRange
                else inLowRange)))
  /\ (pitchValue < 1 # 2 \/ 2 < pitchValue ->
      getPitchDescriptionString assertions pitchValue
      = if assertions then Throw "no description found for pitch at value"
        else Ret None).
Proof.
  assert (Hle : forall a b, a <= b -> Qle_bool a b = true)
    by (intros a b H; now apply Qle_bool_iff).
  assert (Hgt : forall a b, b < a -> Qle_bool a b = false).
  { intros a b H. destruct (Qle_bool a b) eqn:E; [|reflexivity].
    apply Qle_bool_iff in E. exfalso. exact (Qlt_not_le _ _ H E). }
  assert (Hdec : forall a b, Qle_bool a b = false -> b < a).
  { intros a b E. apply Qnot_le_lt. intros H. apply Qle_bool_iff in H. congruence. }
  unfold getPitchDescriptionString, VOICE_PITCH_DESCRIPTION_MAP, Range_contains.
  cbn [fold_left fst snd]. split.
  - intros Hlo Hhi. rewrite (Hle _ _ Hlo), (Hle _ _ Hhi).
    destruct (Qle_bool (3 # 2) pitchValue) eqn:E1.
    { cbn [andb]. now destruct (Qle_bool (5 # 4) pitchValue && Qle_bool pitchValue (3 # 2)),
        (Qle_bool (3 # 4) pitchValue && Qle_bool pitchValue (5 # 4)),
        (Qle_bool pitchValue (3 # 4)). }
    apply Hdec in E1. rewrite (Hle pitchValue (3 # 2)) by (now apply Qlt_le_weak).
    destruct (Qle_bool (5 # 4) pitchValue) eqn:E2.
    { cbn [andb]. reflexivity. }
    apply Hdec in E2. rewrite (Hle pitchValue (5 # 4)) by (now apply Qlt_le_weak).
    destruct (Qle_bool (3 # 4) pitchValue) eqn:E3.
    { cbn [andb]. reflexivity. }
    apply Hdec in E3. rewrite (Hle pitchValue (3 # 4)) by (now apply Qlt_le_weak).
    reflexivity.
  - intros [Hlo|Hhi].
    + rewrite (Hgt (1 # 2) pitchValue Hlo).
      rewrite (Hgt (3 # 4) pitchValue) by (eapply Qlt_trans; [exact Hlo|reflexivity]).
      rewrite (Hgt (5 # 4) pitchValue) by (eapply Qlt_trans; [exact Hlo|reflexivity]).
      rewrite (Hgt (3 # 2) pitchValue) by (eapply Qlt_trans; [exact Hlo|reflexivity]).
      reflexivity.
    + rewrite (Hgt pitchValue 2 Hhi), !andb_false_r.
      rewrite (Hgt pitchValue (3 # 2)) by (eapply Qlt_trans; [|exact Hhi]; reflexivity).
      rewrite (Hgt pitchValue (5 # 4)) by (eapply Qlt_trans; [|exact Hhi]; reflexivity).
      rewrite (Hgt pitchValue (3 # 4)) by (eapply Qlt_trans; [|exact Hhi]; reflexivity).
      rewrite !andb_false_r. reflexivity.
Qed.
